(** * BaseMailer SDK: the secure envelope protocol

    A shallow embedding of the TypeScript sources of the BaseMailer SDK:

    - [utils/bytes.ts]: [toHex], [fromHex], [cidToBytes32];
    - [utils/hkdf.ts], [encryption/EncryptionManager.ts]: the hybrid
      AES-256-GCM + ECIES engine;
    - [utils/cid-store.ts], [service/MailStore.ts]: the in-memory maps;
    - [storage/IPFSClient.ts], [zkproof/ProofGenerator.ts];
    - [client/BaseMailerClient.ts]: [sendMail] and its helpers;
    - [service/EmailService.ts]: the [/api/send-mail] handler and the
      event ingestion ([bootstrapEvents], [persistEvent]).

    JavaScript strings are modelled by Rocq strings read as their UTF-8
    byte sequence, buffers by lists of bytes, thrown exceptions by the
    [Throw] outcome, and every call that leaves the process (registry,
    ledger, IPFS, prover, clock) by an oracle that may answer anything,
    its call and answer being appended to a chronological trace. *)

From Stdlib Require Import List String Ascii ZArith NArith Lia Bool.
From Stdlib Require Import DecimalString DecimalZ.
From Stdlib.Strings Require Import Byte.
Import ListNotations.

Local Open Scope string_scope.
Local Open Scope list_scope.

(** ** Outcomes of JavaScript computations *)

(** A thrown [Error]; only its message is observable in the modelled code. *)
Inductive exn : Type :=
| Error (message : string).

Definition message (e : exn) : string :=
  match e with Error m => m end.

(** A call returns, throws, or never returns: [Diverge] is a promise that
    never settles, and what the model answers once its finite tape of
    random draws has run dry (so also when [generatePrivateKey] would
    resample for ever). *)
Inductive outcome (A : Type) : Type :=
| Ok (a : A)
| Throw (e : exn)
| Diverge.

Arguments Ok {A} a.
Arguments Throw {A} e.
Arguments Diverge {A}.

Definition bytes := list byte.

(** ** utils/bytes.ts *)

Module Bytes.

Definition byte_of_N (n : N) : byte :=
  match Byte.of_N (n mod 256) with
  | Some b => b
  | None => x00
  end.

(** [a ^ b] on two buffer cells. *)
Definition byte_xor (a b : byte) : byte :=
  match Byte.to_bits a, Byte.to_bits b with
  | (a0, (a1, (a2, (a3, (a4, (a5, (a6, a7))))))),
    (b0, (b1, (b2, (b3, (b4, (b5, (b6, b7))))))) =>
      Byte.of_bits (xorb a0 b0, (xorb a1 b1, (xorb a2 b2, (xorb a3 b3,
                   (xorb a4 b4, (xorb a5 b5, (xorb a6 b6, xorb a7 b7)))))))
  end.

Definition is_zero (b : byte) : bool := Byte.eqb b x00.

Definition hexDigit (n : N) : ascii :=
  match n with
  | 0 => "0" | 1 => "1" | 2 => "2" | 3 => "3" | 4 => "4" | 5 => "5"
  | 6 => "6" | 7 => "7" | 8 => "8" | 9 => "9" | 10 => "a" | 11 => "b"
  | 12 => "c" | 13 => "d" | 14 => "e" | _ => "f"
  end%N%char.

(** Value of a hexadecimal digit, either case, as Node's hex decoder
    reads it. *)
Definition hexValue (c : ascii) : option N :=
  let n := N_of_ascii c in
  if ((48 <=? n) && (n <=? 57))%N then Some (n - 48)%N
  else if ((97 <=? n) && (n <=? 102))%N then Some (n - 87)%N
  else if ((65 <=? n) && (n <=? 70))%N then Some (n - 55)%N
  else None.

Definition byteToHex (b : byte) : string :=
  String (hexDigit (Byte.to_N b / 16)) (String (hexDigit (Byte.to_N b mod 16)) "").

(** [Buffer.from(buffer).toString('hex')] *)
Fixpoint hexEncode (bs : bytes) : string :=
  match bs with
  | [] => ""
  | b :: rest => byteToHex b ++ hexEncode rest
  end.

(** [Buffer.from(s, 'hex')]: pairs of digits are decoded until the
    first pair that is not hexadecimal; a trailing odd digit is dropped. *)
Fixpoint hexDecode (s : string) : bytes :=
  match s with
  | String c1 (String c2 rest) =>
      match hexValue c1, hexValue c2 with
      | Some h, Some l => byte_of_N (16 * h + l) :: hexDecode rest
      | _, _ => []
      end
  | _ => []
  end.

(** [value.startsWith('0x')] *)
Definition startsWith0x (s : string) : bool :=
  match s with
  | String c0 (String c1 _) => (c0 =? "0")%char && (c1 =? "x")%char
  | _ => false
  end.

(** [hex.slice(2)] *)
Definition slice2 (s : string) : string :=
  match s with
  | String _ (String _ rest) => rest
  | _ => ""
  end.

Definition toHex (buffer : bytes) : string := "0x" ++ hexEncode buffer.

Definition fromHex (hex : string) : outcome bytes :=
  if negb (startsWith0x hex) then Throw (Error "Hex string must start with 0x")
  else Ok (hexDecode (slice2 hex)).

(** [toUtf8Bytes(s)] and [Buffer.from(s, 'utf-8')]: strings are kept
    as their UTF-8 bytes already. *)
Definition toUtf8Bytes (s : string) : bytes := list_byte_of_string s.

(** [buffer.toString('utf-8')] *)
Definition utf8ToString (b : bytes) : string := string_of_list_byte b.

End Bytes.

(** ** keccak256 (ethers), the Keccak-f[1600] sponge with rate 136 and the
    original 0x01 domain byte *)

Module Keccak.

Local Open Scope N_scope.

Definition mask64 : N := 0xFFFFFFFFFFFFFFFF.

Definition rotl64 (x : N) (n : N) : N :=
  N.land (N.lor (N.shiftl x n) (N.shiftr x (64 - n))) mask64.

Definition not64 (x : N) : N := N.lxor x mask64.

Definition lane (st : list N) (x y : nat) : N :=
  nth (x mod 5 + 5 * (y mod 5))%nat st 0.

Definition rotation_offsets : list N :=
  [ 0;  1; 62; 28; 27;
   36; 44;  6; 55; 20;
    3; 10; 43; 25; 39;
   41; 45; 15; 21;  8;
   18;  2; 61; 56; 14].

Definition round_constants : list N :=
  [0x0000000000000001; 0x0000000000008082; 0x800000000000808A;
   0x8000000080008000; 0x000000000000808B; 0x0000000080000001;
   0x8000000080008081; 0x8000000000008009; 0x000000000000008A;
   0x0000000000000088; 0x0000000080008009; 0x000000008000000A;
   0x000000008000808B; 0x800000000000008B; 0x8000000000008089;
   0x8000000000008003; 0x8000000000008002; 0x8000000000000080;
   0x000000000000800A; 0x800000008000000A; 0x8000000080008081;
   0x8000000000008080; 0x0000000080000001; 0x8000000080008008].

(** The lanes of a state, generated from a function of the coordinates. *)
Definition build (f : nat -> nat -> N) : list N :=
  map (fun i => f (i mod 5)%nat (i / 5)%nat) (seq 0 25).

Definition theta (st : list N) : list N :=
  let c x := N.lxor (lane st x 0) (N.lxor (lane st x 1) (N.lxor (lane st x 2)
             (N.lxor (lane st x 3) (lane st x 4)))) in
  let d x := N.lxor (c (x + 4)%nat) (rotl64 (c (x + 1)%nat) 1) in
  build (fun x y => N.lxor (lane st x y) (d x)).

Definition rho_pi (st : list N) : list N :=
  build (fun x y =>
    let x0 := ((x + 3 * y) mod 5)%nat in
    rotl64 (lane st x0 x) (nth (x0 + 5 * x)%nat rotation_offsets 0)).

Definition chi (st : list N) : list N :=
  build (fun x y =>
    N.lxor (lane st x y)
           (N.land (not64 (lane st (x + 1) y)) (lane st (x + 2) y))).

Definition iota (rc : N) (st : list N) : list N :=
  match st with
  | [] => []
  | a :: rest => N.lxor a rc :: rest
  end.

Definition round (st : list N) (rc : N) : list N :=
  iota rc (chi (rho_pi (theta st))).

Definition keccak_f (st : list N) : list N :=
  fold_left round round_constants st.

(** Little-endian load of eight bytes. *)
Fixpoint load_le (bs : bytes) : N :=
  match bs with
  | [] => 0
  | b :: rest => Byte.to_N b + 256 * load_le rest
  end.

Fixpoint lanes_of_block (n : nat) (block : bytes) : list N :=
  match n with
  | O => []
  | S n' => load_le (firstn 8 block) :: lanes_of_block n' (skipn 8 block)
  end.

Fixpoint xor_lanes (st blk : list N) : list N :=
  match st, blk with
  | s :: st', b :: blk' => N.lxor s b :: xor_lanes st' blk'
  | _, [] => st
  | [], _ => []
  end.

Definition rate : nat := 136.

Definition absorb_block (st : list N) (block : bytes) : list N :=
  keccak_f (xor_lanes st (lanes_of_block 17 block)).

(** pad10*1 with the Keccak domain byte: 0x01, zeros, and 0x80 merged
    into the last byte of the block. *)
Definition pad_last (tail : bytes) : bytes :=
  let fill := (rate - 1 - List.length tail)%nat in
  match fill with
  | O => (tail ++ [x81])%list
  | S k => (tail ++ [x01] ++ repeat x00 k ++ [x80])%list
  end.

Fixpoint absorb (fuel : nat) (st : list N) (data : bytes) : list N :=
  match fuel with
  | O => absorb_block st (pad_last data)
  | S fuel' =>
      if (List.length data <? rate)%nat
      then absorb_block st (pad_last data)
      else absorb fuel' (absorb_block st (firstn rate data)) (skipn rate data)
  end.

Definition state_byte (st : list N) (i : nat) : byte :=
  Bytes.byte_of_N (N.shiftr (nth (i / 8)%nat st 0) (8 * N.of_nat (i mod 8)%nat)).

Definition keccak256 (data : bytes) : bytes :=
  let st := absorb (List.length data / rate)%nat (repeat 0 25) data in
  map (state_byte st) (seq 0 32).

End Keccak.

Module BytesUtil.
Export Bytes.

(** [utils/bytes.ts], [cidToBytes32]: ethers' [keccak256] returns the
    digest as a 0x-prefixed lowercase hex string. *)
Definition keccak256 (data : bytes) : string := toHex (Keccak.keccak256 data).

Definition cidToBytes32 (cid : string) : string :=
  let hash := keccak256 (toUtf8Bytes cid) in
  hash.

End BytesUtil.

(** ** JavaScript values used by the sources *)

Module Js.

(** [bigint.toString()] and [String(number)] on integers. *)
Definition toString (z : Z) : string := NilZero.string_of_int (Z.to_int z).

(** [Number(n)] of a bigint [n]: the double nearest to [n], a tie going
    to the even significand.  A double has 53 significant bits: an
    integer of at most 53 bits is kept, a longer one is rounded to a
    multiple of the power of two that its surplus bits span.  The bigints
    converted here are [uint256] event fields, below 2^1024 where the
    conversion gives [Infinity]. *)
Definition Number (n : Z) : Z :=
  let a := Z.abs n in
  let shift := (Z.log2 a + 1 - 53)%Z in
  if (shift <=? 0)%Z then n
  else
    let q := Z.shiftr a shift in
    let r := (a - Z.shiftl q shift)%Z in
    let half := Z.shiftl 1 (shift - 1) in
    let q' :=
      if (half <? r)%Z || ((r =? half)%Z && Z.odd q) then (q + 1)%Z else q in
    (Z.sgn n * Z.shiftl q' shift)%Z.

(** Truthiness of an optional string: [undefined] and [''] are falsy. *)
Definition truthy (s : option string) : bool :=
  match s with
  | None => false
  | Some s => negb (s =? "")
  end.

(** [Map<string, V>]: entries in insertion order, [set] on a key that is
    present replaces the value in place. *)
Definition Map (V : Type) : Type := list (string * V).

Fixpoint map_set {V} (k : string) (v : V) (m : Map V) : Map V :=
  match m with
  | [] => [(k, v)]
  | (k', v') :: rest =>
      if k =? k' then (k, v) :: rest else (k', v') :: map_set k v rest
  end.

Fixpoint map_get {V} (k : string) (m : Map V) : option V :=
  match m with
  | [] => None
  | (k', v') :: rest => if k =? k' then Some v' else map_get k rest
  end.

(** [Array.from(map.values())] *)
Definition map_values {V} (m : Map V) : list V := map snd m.

Definition map_keys {V} (m : Map V) : list string := map fst m.

End Js.

(** ** types/mail.ts, types/config.ts, service/types.ts *)

Module AttachmentMeta.
Record t : Type := mk
  { name : string; mimeType : string; size : Z; cid : option string }.
End AttachmentMeta.

Module MailContent.
Record t : Type := mk
  { from : string;
    to : string;
    subject : string;
    body : string;
    timestamp : option Z;
    attachments : option (list AttachmentMeta.t) }.

(** [{ ...content, timestamp }] *)
Definition with_timestamp (content : t) (ts : Z) : t :=
  mk (from content) (to content) (subject content) (body content)
     (Some ts) (attachments content).
End MailContent.

Module MailMetadata.
Record t : Type := mk
  { version : string; timestamp : Z; size : Z; contentType : string }.
End MailMetadata.

Module EncryptedContentPayload.
Record t : Type := mk
  { algorithm : string; ciphertext : string; iv : string; authTag : string }.
End EncryptedContentPayload.

Module EncryptedKeyPayload.
Record t : Type := mk
  { algorithm : string;
    ephemeralPublicKey : string;
    ciphertext : string;
    mac : string }.
End EncryptedKeyPayload.

Module EncryptedMailPackage.
Record t : Type := mk
  { version : string;
    encryptedContent : EncryptedContentPayload.t;
    encryptedKey : EncryptedKeyPayload.t;
    metadata : MailMetadata.t }.
End EncryptedMailPackage.

Module SendMailParams.
Record t : Type := mk
  { from : string;
    to : string;
    subject : string;
    body : string;
    attachments : option (list AttachmentMeta.t) }.
End SendMailParams.

Module RecipientResolutionResult.
Record t : Type := mk { email : string; owner : string; publicKey : string }.
End RecipientResolutionResult.

Module StoredMail.
Record t : Type := mk
  { mailId : string;
    cid : string;
    contentHash : string;
    senderEmail : string;
    recipientEmail : string;
    timestamp : Z;
    blockNumber : option Z;
    txHash : option string }.
End StoredMail.

(** ** Values exchanged with snarkjs and ethers *)

Module ProofInputs.
Record t : Type := mk
  { senderEmail : string; recipientEmail : string; contentHash : string }.
End ProofInputs.

(** A Groth16 proof as snarkjs has it: [pi_a], [pi_b], [pi_c]. *)
Module Groth16Proof.
Record t : Type := mk
  { pi_a : list string; pi_b : list (list string); pi_c : list string }.
End Groth16Proof.

Module ProofResult.
Record t : Type := mk { proof : string; publicSignals : list string }.
End ProofResult.

Module Log.
Record t : Type := mk { topics : option (list string); data : string }.
End Log.

Module TransactionReceipt.
Record t : Type := mk
  { logs : option (list Log.t); blockNumber : option Z }.
End TransactionReceipt.

Module TransactionResponse.
Record t : Type := mk { hash : string }.
End TransactionResponse.

(** The result of [interface.parseLog]: only [args.mailId] is read. *)
Module LogDescription.
Record t : Type := mk { mailId : option Z }.
End LogDescription.

(** An entry returned by [mailer.queryFilter]; [args] is absent on a log
    the interface could not decode. *)
Module MailSentArgs.
Record t : Type := mk
  { mailId : option Z;
    contentCID : option string;
    senderEmail : string;
    recipientEmail : string;
    timestamp : Z }.
End MailSentArgs.

Module EventLog.
Record t : Type := mk
  { args : option MailSentArgs.t;
    blockNumber : option Z;
    transactionHash : option string }.
End EventLog.

(** ** Libraries the sources call *)

(** [crypto] (Node) and [@noble/secp256k1].  A failing call throws. *)
Class CryptoLib : Type :=
  { (** [getPublicKey(privateKey, true)] *)
    getPublicKey : bytes -> outcome bytes;
    (** [getSharedSecret(privateKey, publicKey, true)] *)
    getSharedSecret : bytes -> bytes -> outcome bytes;
    (** [hkdfSync('sha256', key, salt, info, length)] *)
    hkdfSync : bytes -> bytes -> bytes -> nat -> outcome bytes;
    (** [createHmac('sha256', key).update(data).digest()] *)
    hmacSha256 : bytes -> bytes -> bytes;
    (** [createCipheriv('aes-256-gcm', key, iv)], [update], [final],
        [getAuthTag]: ciphertext and tag *)
    aes256gcmEncrypt : bytes -> bytes -> bytes -> outcome (bytes * bytes);
    (** [createDecipheriv('aes-256-gcm', key, iv)], [setAuthTag], [update],
        [final] *)
    aes256gcmDecrypt : bytes -> bytes -> bytes -> bytes -> outcome bytes }.

Definition VerificationKey : Type := string.

(** [JSON] and [BigInt] of the JavaScript runtime.  [JSON.parse] results
    are cast without a check in the sources ([as MailContent]); the model
    gives the parser the declared type. *)
Class JsLib : Type :=
  { JSON_stringify_content : MailContent.t -> string;
    JSON_parse_content : string -> outcome MailContent.t;
    JSON_stringify_package : EncryptedMailPackage.t -> string;
    JSON_parse_key : string -> outcome VerificationKey;
    (** whether a parsed verification key is a truthy value *)
    key_truthy : VerificationKey -> bool;
    (** [BigInt(s)] *)
    BigInt : string -> outcome Z }.

(** [AbiCoder] and [Interface] of ethers. *)
Class EthersLib : Type :=
  { (** [abi.encode(['uint256[2]', 'uint256[2][2]', 'uint256[2]'], ...)]
        after the [BigInt] conversions of [packProof] *)
    abiEncodeProof : Groth16Proof.t -> outcome string;
    (** [abiCoder.decode] of the same tuple, entries as decimal strings *)
    abiDecodeProof : string -> outcome Groth16Proof.t;
    (** [mailer.interface.parseLog({ data, topics })] *)
    parseLog : Log.t -> outcome (option LogDescription.t) }.

(** ** Effects *)

Inductive Event : Type :=
| EvDateNow (t : Z)
| EvCipher (key iv plaintext : bytes) (r : outcome (bytes * bytes))
| EvDecipher (key iv ciphertext authTag : bytes) (r : outcome bytes)
| EvLoggerError (msg : string)
| EvResolveEmail (email : string) (r : outcome string)
| EvRecipientResolver (email owner : string)
    (r : outcome RecipientResolutionResult.t)
| EvIpfsAdd (pkg : EncryptedMailPackage.t) (compress pin : bool)
    (r : outcome string)
| EvIpfsPinAdd (cid : string) (r : outcome unit)
| EvFullProve (inputs : ProofInputs.t)
    (r : outcome (Groth16Proof.t * list string))
| EvGroth16Verify (key : VerificationKey) (publicSignals : list string)
    (proof : Groth16Proof.t) (r : outcome bool)
| EvMailerSendMail (proof contentCID senderEmail recipientEmail : string)
    (r : outcome TransactionResponse.t)
| EvTxWait (tx : TransactionResponse.t)
    (r : outcome (option TransactionReceipt.t))
| EvReadFile (path : string) (r : outcome string)
| EvGetBlockNumber (r : outcome Z)
| EvQueryFilter (fromBlock toBlock : Z) (r : outcome (list EventLog.t))
| EvMailerOn (eventName : string)
| EvCidStoreSet (key cid : string)
| EvCidStoreGet (key : string) (r : option string)
| EvMailStoreSave (mail : StoredMail.t).

(** Everything outside the process.  Each oracle sees the calls made so
    far, so its answers may change from call to call. *)
Class Env : Type :=
  { Date_now : list Event -> Z;
    registry_resolveEmail : list Event -> string -> outcome string;
    (** [config.recipientResolver], when configured *)
    recipientResolver :
      option (list Event -> string -> string ->
              outcome RecipientResolutionResult.t);
    ipfs_add :
      list Event -> EncryptedMailPackage.t -> bool -> bool -> outcome string;
    ipfs_pin_add : list Event -> string -> outcome unit;
    groth16_fullProve :
      list Event -> ProofInputs.t -> outcome (Groth16Proof.t * list string);
    groth16_verify :
      list Event -> VerificationKey -> list string -> Groth16Proof.t ->
      outcome bool;
    mailer_sendMail :
      list Event -> string -> string -> string -> string ->
      outcome TransactionResponse.t;
    tx_wait :
      list Event -> TransactionResponse.t ->
      outcome (option TransactionReceipt.t);
    fs_readFile : list Event -> string -> outcome string;
    provider_getBlockNumber : list Event -> outcome Z;
    mailer_queryFilter :
      list Event -> Z -> Z -> outcome (list EventLog.t) }.

(** The state of one process. *)
Record World : Type := mkWorld
  { trace : list Event;
    (** the successive results of [randomBytes] still to come *)
    tape : list bytes;
    (** [InMemoryCidStore.store] *)
    cidStore : Js.Map string;
    (** [InMemoryMailStore.mails] *)
    mails : Js.Map StoredMail.t;
    (** [EmailService.verificationKey] *)
    verificationKey : option VerificationKey }.

Definition M (A : Type) : Type := World -> outcome A * World.

Definition ret {A} (a : A) : M A := fun w => (Ok a, w).

Definition bind {A B} (m : M A) (k : A -> M B) : M B :=
  fun w =>
    match m w with
    | (Ok a, w') => k a w'
    | (Throw e, w') => (Throw e, w')
    | (Diverge, w') => (Diverge, w')
    end.

Definition throw {A} (e : exn) : M A := fun w => (Throw e, w).

Definition lift {A} (o : outcome A) : M A := fun w => (o, w).

(** [try { m } catch (error) { h error }] *)
Definition try_catch {A} (m : M A) (h : exn -> M A) : M A :=
  fun w =>
    match m w with
    | (Throw e, w') => h e w'
    | r => r
    end.

Declare Scope js_scope.
Delimit Scope js_scope with js.
Notation "x <- m ;; k" := (bind m (fun x => k))
  (at level 61, m at next level, right associativity) : js_scope.
Notation "' p <- m ;; k" := (bind m (fun x => match x with p => k end))
  (at level 61, p pattern, m at next level, right associativity) : js_scope.
Notation "m ;;; k" := (bind m (fun _ => k))
  (at level 61, right associativity) : js_scope.
Local Open Scope js_scope.

Definition log_event (ev : Event) (w : World) : World :=
  mkWorld (trace w ++ [ev]) (tape w) (cidStore w) (mails w) (verificationKey w).

Definition emit (ev : Event) : M unit := fun w => (Ok tt, log_event ev w).

(** A call to the outside: the oracle answers from the history and the
    call is recorded with its answer. *)
Definition call {A} (oracle : list Event -> outcome A)
    (record : outcome A -> Event) : M A :=
  fun w => let r := oracle (trace w) in (r, log_event (record r) w).

(** [Date.now()] *)
Definition now `{Env} : M Z :=
  fun w => let t := Date_now (trace w) in (Ok t, log_event (EvDateNow t) w).

(** ** Buffers *)

Module Buffer.

(** [a.equals(b)]: the two buffers have the same length and the same
    bytes. *)
Fixpoint equals (a b : bytes) : bool :=
  match a, b with
  | [], [] => true
  | x :: a', y :: b' => Byte.eqb x y && equals a' b'
  | _, _ => false
  end.

(** [buf.every((b) => b === 0)] *)
Definition everyZero (key : bytes) : bool := forallb Bytes.is_zero key.

(** A buffer of exactly [n] bytes cut from (or zero-filled after) [chunk]. *)
Definition resize (n : nat) (chunk : bytes) : bytes :=
  firstn n (chunk ++ repeat x00 n).

End Buffer.

(** [randomBytes(n)]: the next chunk of the tape, at the requested size.
    The tape is finite; past its end the run is cut short. *)
Definition randomBytes (n : nat) : M bytes :=
  fun w =>
    match tape w with
    | [] => (Diverge, w)
    | chunk :: rest =>
        (Ok (Buffer.resize n chunk),
         mkWorld (trace w) rest (cidStore w) (mails w) (verificationKey w))
    end.

(** ** utils/hkdf.ts *)

Module Hkdf.
Section WithCrypto.
Context `{CryptoLib}.

(** [deriveKey(sharedSecret, info, length)], [salt] left out by every
    caller: [Buffer.alloc(0)]. *)
Definition deriveKey (sharedSecret : bytes) (info : string) (length : nat)
  : outcome bytes :=
  hkdfSync sharedSecret [] (Bytes.toUtf8Bytes info) length.

End WithCrypto.
End Hkdf.

(** ** encryption/EncryptionManager.ts *)

Module EncryptionManager.

Record t : Type := mk { version : string }.

(** [new EncryptionManager(options)] *)
Definition new (optVersion : option string) : t :=
  mk (match optVersion with Some v => v | None => "1.0" end).

Record WrappedKey : Type := mkWrapped
  { encryptedKey : bytes; mac : bytes; ephemeralPublicKey : bytes }.

(** The loop shared by wrapping and unwrapping:
    [out[i] = key[i] ^ maskKey[i % maskKey.length]] from index [i] on. *)
Fixpoint xorMaskFrom (i : nat) (key maskKey : bytes) : bytes :=
  match key with
  | [] => []
  | k :: rest =>
      Bytes.byte_xor k (nth (i mod List.length maskKey) maskKey x00)
      :: xorMaskFrom (S i) rest maskKey
  end.

Definition xorMask (key maskKey : bytes) : bytes := xorMaskFrom 0 key maskKey.

Definition ensureHexPrefix (value : string) : string :=
  if Bytes.startsWith0x value then value else "0x" ++ value.

Definition normalizePublicKey (hex : string) : outcome bytes :=
  Bytes.fromHex (ensureHexPrefix hex).

Definition normalizePrivateKey (hex : string) : outcome bytes :=
  match Bytes.fromHex (ensureHexPrefix hex) with
  | Ok buff =>
      if negb (List.length buff =? 32)%nat
      then Throw (Error "Private key must be 32 bytes")
      else Ok buff
  | Throw e => Throw e
  | Diverge => Diverge
  end.

(** The resampling loop of [generatePrivateKey] over the draws to come:
    the first draw that is neither empty nor all zero, and the draws
    left after it. *)
Fixpoint firstUsableKey (draws : list bytes) : option (bytes * list bytes) :=
  match draws with
  | [] => None
  | chunk :: rest =>
      let key := Buffer.resize 32 chunk in
      if (List.length key =? 0)%nat || Buffer.everyZero key
      then firstUsableKey rest
      else Some (key, rest)
  end.

Definition generatePrivateKey : M bytes :=
  fun w =>
    match firstUsableKey (tape w) with
    | Some (key, rest) =>
        (Ok key,
         mkWorld (trace w) rest (cidStore w) (mails w) (verificationKey w))
    | None =>
        (Diverge,
         mkWorld (trace w) [] (cidStore w) (mails w) (verificationKey w))
    end.

Section WithLibs.
Context `{CryptoLib} `{JsLib} `{Env}.

Definition computeSharedSecret (privateKey publicKey : bytes)
  : outcome bytes :=
  match getSharedSecret privateKey publicKey with
  | Ok secret => Ok (tl secret) (* drop format byte *)
  | Throw e => Throw e
  | Diverge => Diverge
  end.

Definition wrapSymmetricKey (key recipientPublicKey : bytes)
  : M WrappedKey :=
  ephemeralPrivateKey <- generatePrivateKey ;;
  ephemeralPublicKey <- lift (getPublicKey ephemeralPrivateKey) ;;
  sharedSecret <-
    lift (computeSharedSecret ephemeralPrivateKey recipientPublicKey) ;;
  maskKey <- lift (Hkdf.deriveKey sharedSecret "basemailer-mask" 32) ;;
  macKey <- lift (Hkdf.deriveKey sharedSecret "basemailer-mac" 32) ;;
  let encryptedKey := xorMask key maskKey in
  let mac := hmacSha256 macKey encryptedKey in
  ret (mkWrapped encryptedKey mac ephemeralPublicKey).

Definition unwrapSymmetricKey (pkg : EncryptedMailPackage.t)
    (recipientPrivateKeyHex : string) : M bytes :=
  let ek := EncryptedMailPackage.encryptedKey pkg in
  ephemeralPublicKey <-
    lift (normalizePublicKey (EncryptedKeyPayload.ephemeralPublicKey ek)) ;;
  recipientPrivateKey <- lift (normalizePrivateKey recipientPrivateKeyHex) ;;
  sharedSecret <-
    lift (computeSharedSecret recipientPrivateKey ephemeralPublicKey) ;;
  maskKey <- lift (Hkdf.deriveKey sharedSecret "basemailer-mask" 32) ;;
  macKey <- lift (Hkdf.deriveKey sharedSecret "basemailer-mac" 32) ;;
  encryptedKey <- lift (Bytes.fromHex (EncryptedKeyPayload.ciphertext ek)) ;;
  let expectedMac := hmacSha256 macKey encryptedKey in
  providedMac <- lift (Bytes.fromHex (EncryptedKeyPayload.mac ek)) ;;
  if negb (Buffer.equals expectedMac providedMac) then
    emit (EvLoggerError
            "MAC verification failed while decrypting symmetric key") ;;;
    throw (Error "encrypted key MAC mismatch")
  else
    ret (xorMask encryptedKey maskKey).

Definition encrypt (self : t) (content : MailContent.t)
    (recipientPublicKeyHex : string) : M EncryptedMailPackage.t :=
  timestamp <-
    match MailContent.timestamp content with
    | Some ts => ret ts
    | None => now
    end ;;
  let canonical := MailContent.with_timestamp content timestamp in
  let plaintext := Bytes.toUtf8Bytes (JSON_stringify_content canonical) in
  symmetricKey <- randomBytes 32 ;;
  iv <- randomBytes 12 ;;
  ' (ciphertext, authTag) <-
    call (fun _ => aes256gcmEncrypt symmetricKey iv plaintext)
         (EvCipher symmetricKey iv plaintext) ;;
  recipientPublicKey <- lift (normalizePublicKey recipientPublicKeyHex) ;;
  wrapped <- wrapSymmetricKey symmetricKey recipientPublicKey ;;
  let metadataSize :=
    Z.of_nat (List.length ciphertext + List.length (encryptedKey wrapped)) in
  ret (EncryptedMailPackage.mk
         (version self)
         (EncryptedContentPayload.mk
            "AES-256-GCM" (Bytes.toHex ciphertext) (Bytes.toHex iv)
            (Bytes.toHex authTag))
         (EncryptedKeyPayload.mk
            "ECIES-secp256k1" (Bytes.toHex (ephemeralPublicKey wrapped))
            (Bytes.toHex (encryptedKey wrapped)) (Bytes.toHex (mac wrapped)))
         (MailMetadata.mk (version self) timestamp metadataSize "mail")).

Definition decrypt (self : t) (pkg : EncryptedMailPackage.t)
    (recipientPrivateKeyHex : string) : M MailContent.t :=
  let ec := EncryptedMailPackage.encryptedContent pkg in
  symmetricKey <- unwrapSymmetricKey pkg recipientPrivateKeyHex ;;
  iv <- lift (Bytes.fromHex (EncryptedContentPayload.iv ec)) ;;
  ciphertext <- lift (Bytes.fromHex (EncryptedContentPayload.ciphertext ec)) ;;
  authTag <- lift (Bytes.fromHex (EncryptedContentPayload.authTag ec)) ;;
  decrypted <-
    call (fun _ => aes256gcmDecrypt symmetricKey iv ciphertext authTag)
         (EvDecipher symmetricKey iv ciphertext authTag) ;;
  lift (JSON_parse_content (Bytes.utf8ToString decrypted)).

End WithLibs.
End EncryptionManager.

(** ** utils/cid-store.ts *)

Module InMemoryCidStore.

Definition set (key cid : string) : M unit :=
  fun w =>
    (Ok tt,
     mkWorld (trace w ++ [EvCidStoreSet key cid]) (tape w)
             (Js.map_set key cid (cidStore w)) (mails w) (verificationKey w)).

Definition get (key : string) : M (option string) :=
  fun w =>
    let r := Js.map_get key (cidStore w) in
    (Ok r, log_event (EvCidStoreGet key r) w).

End InMemoryCidStore.

(** ** service/MailStore.ts *)

Module InMemoryMailStore.

Definition save (mail : StoredMail.t) : M unit :=
  fun w =>
    (Ok tt,
     mkWorld (trace w ++ [EvMailStoreSave mail]) (tape w) (cidStore w)
             (Js.map_set (StoredMail.mailId mail) mail (mails w))
             (verificationKey w)).

Definition get (mailId : string) : M (option StoredMail.t) :=
  fun w => (Ok (Js.map_get mailId (mails w)), w).

Definition getInbox (email : string) : M (list StoredMail.t) :=
  fun w =>
    (Ok (filter (fun mail => StoredMail.recipientEmail mail =? email)
                (Js.map_values (mails w))), w).

Definition getSentbox (email : string) : M (list StoredMail.t) :=
  fun w =>
    (Ok (filter (fun mail => StoredMail.senderEmail mail =? email)
                (Js.map_values (mails w))), w).

End InMemoryMailStore.

(** ** storage/IPFSClient.ts *)

Module IPFSClient.

Record t : Type := mk { shouldPin : bool; shouldCompress : bool }.

(** [options.pin ?? true], [options.compress ?? true] *)
Definition new (pin compress : option bool) : t :=
  mk (match pin with Some b => b | None => true end)
     (match compress with Some b => b | None => true end).

Section WithEnv.
Context `{Env}.

(** The payload handed to [ipfs.add] is the JSON text of the package,
    gzipped when [shouldCompress]. *)
Definition upload (self : t) (pkg : EncryptedMailPackage.t) : M string :=
  call (fun h => ipfs_add h pkg (shouldCompress self) (shouldPin self))
       (EvIpfsAdd pkg (shouldCompress self) (shouldPin self)).

Definition pin (self : t) (cid : string) : M unit :=
  if negb (shouldPin self) then ret tt
  else call (fun h => ipfs_pin_add h cid) (EvIpfsPinAdd cid).

End WithEnv.
End IPFSClient.

(** ** zkproof/ProofGenerator.ts *)

Module ProofGenerator.
Section WithLibs.
Context `{EthersLib} `{Env}.

Definition packProof (proof : Groth16Proof.t) : outcome string :=
  abiEncodeProof proof.

Definition generateProof (inputs : ProofInputs.t) : M ProofResult.t :=
  ' (proof, publicSignals) <-
    call (fun h => groth16_fullProve h inputs) (EvFullProve inputs) ;;
  packed <- lift (packProof proof) ;;
  ret (ProofResult.mk packed publicSignals).

End WithLibs.
End ProofGenerator.

(** ** The [MailSent] event of [NameBasedMailerABI] *)

Module MailerInterface.

Definition MailSent_signature : string :=
  "MailSent(uint256,string,string,bytes32,uint256)".

(** [mailer.interface.getEvent('MailSent').topicHash] *)
Definition topicHash : string :=
  BytesUtil.keccak256 (Bytes.toUtf8Bytes MailSent_signature).

End MailerInterface.

(** ** client/BaseMailerClient.ts *)

Module SendMailResponse.
Record t : Type := mk { mailId : string; cid : string; txHash : string }.
End SendMailResponse.

Module BaseMailerClient.

Record t : Type := mk
  { encryption : EncryptionManager.t; storage : IPFSClient.t }.

Section WithLibs.
Context `{CryptoLib} `{JsLib} `{EthersLib} `{Env}.

Definition resolveOwner (email : string) : M string :=
  call (fun h => registry_resolveEmail h email) (EvResolveEmail email).

Definition resolveRecipient (email : string)
  : M RecipientResolutionResult.t :=
  owner <- resolveOwner email ;;
  match recipientResolver with
  | None =>
      throw (Error
        "recipientResolver is not configured; cannot derive public key")
  | Some resolver =>
      call (fun h => resolver h email owner) (EvRecipientResolver email owner)
  end.

(** The [for] loop of [extractMailIdFromReceipt]: the first log whose
    first topic is the [MailSent] topic decides. *)
Fixpoint scanLogs (logs : list Log.t) : outcome (option string) :=
  match logs with
  | [] => Ok None
  | log :: rest =>
      let topics := match Log.topics log with Some ts => ts | None => [] end in
      match topics with
      | topic0 :: _ =>
          if topic0 =? MailerInterface.topicHash then
            match parseLog log with
            | Ok (Some parsed) =>
                Ok (option_map Js.toString (LogDescription.mailId parsed))
            | Ok None => Ok None
            | Throw e => Throw e
            | Diverge => Diverge
            end
          else scanLogs rest
      | [] => scanLogs rest
      end
  end.

Definition extractMailIdFromReceipt (logs : option (list Log.t))
  : outcome (option string) :=
  match logs with
  | None => Ok None
  | Some logs =>
      if negb (Js.truthy (Some MailerInterface.topicHash)) then Ok None
      else scanLogs logs
  end.

(** [receipt?.logs] *)
Definition receiptLogs (receipt : option TransactionReceipt.t)
  : option (list Log.t) :=
  match receipt with
  | Some r => TransactionReceipt.logs r
  | None => None
  end.

Definition sendMail (self : t) (params : SendMailParams.t)
  : M SendMailResponse.t :=
  if negb (Js.truthy (Some (SendMailParams.from params)))
  then throw (Error "from email is required")
  else
    recipient <- resolveRecipient (SendMailParams.to params) ;;
    timestamp <- now ;;
    let content :=
      MailContent.mk (SendMailParams.from params) (SendMailParams.to params)
        (SendMailParams.subject params) (SendMailParams.body params)
        (Some timestamp) (SendMailParams.attachments params) in
    encrypted <-
      EncryptionManager.encrypt (encryption self) content
        (RecipientResolutionResult.publicKey recipient) ;;
    cid <- IPFSClient.upload (storage self) encrypted ;;
    let contentCID := BytesUtil.cidToBytes32 cid in
    InMemoryCidStore.set contentCID cid ;;;
    let proofInputs :=
      ProofInputs.mk (SendMailParams.from params) (SendMailParams.to params)
        (BytesUtil.keccak256
           (Bytes.toUtf8Bytes (JSON_stringify_package encrypted))) in
    proof <- ProofGenerator.generateProof proofInputs ;;
    tx <-
      call (fun h => mailer_sendMail h (ProofResult.proof proof) contentCID
                       (SendMailParams.from params) (SendMailParams.to params))
           (EvMailerSendMail (ProofResult.proof proof) contentCID
              (SendMailParams.from params) (SendMailParams.to params)) ;;
    receipt <- call (fun h => tx_wait h tx) (EvTxWait tx) ;;
    mailId <- lift (extractMailIdFromReceipt (receiptLogs receipt)) ;;
    ret (SendMailResponse.mk
           (match mailId with Some id => id | None => "0" end)
           cid (TransactionResponse.hash tx)).

End WithLibs.
End BaseMailerClient.

(** ** service/EmailService.ts *)

Module EmailService.

Record Config : Type := mkConfig
  { verificationKeyPath : option string; eventStartBlock : option Z }.

Record t : Type := mk { config : Config; ipfs : IPFSClient.t }.

(** [req.body] of [POST /api/send-mail] *)
Record SendMailBody : Type := mkBody
  { proof : option string;
    cid : option string;
    senderEmail : option string;
    recipientEmail : option string }.

Inductive ResponseBody : Type :=
| ErrorBody (error : string)
| SentBody (success : bool) (mailId txHash : string) (timestamp : Z).

(** [res.status(code).json(body)]; [res.json] answers 200. *)
Record Response : Type := mkResponse { status : Z; json : ResponseBody }.

Definition zeroAddress : string :=
  "0x0000000000000000000000000000000000000000".

Definition set_verificationKey (key : VerificationKey) : M unit :=
  fun w =>
    (Ok tt, mkWorld (trace w) (tape w) (cidStore w) (mails w) (Some key)).

Definition get_verificationKey : M (option VerificationKey) :=
  fun w => (Ok (verificationKey w), w).

Definition orEmpty (s : option string) : string :=
  match s with Some s => s | None => "" end.

Section WithLibs.
Context `{JsLib} `{EthersLib} `{Env}.

(** [if (this.verificationKey)] *)
Definition keyLoaded (key : option VerificationKey) : bool :=
  match key with
  | Some k => key_truthy k
  | None => false
  end.

Definition persistEvent (mailId contentCID : option string)
    (senderEmail recipientEmail : string) (timestamp : Z)
    (blockNumber : option Z) (txHash : option string) : M unit :=
  if negb (Js.truthy mailId) || negb (Js.truthy contentCID) then ret tt
  else
    let mailId := orEmpty mailId in
    let contentCID := orEmpty contentCID in
    stored <- InMemoryCidStore.get contentCID ;;
    let cid := match stored with Some c => c | None => contentCID end in
    let record :=
      StoredMail.mk mailId cid contentCID senderEmail recipientEmail
        timestamp blockNumber txHash in
    InMemoryMailStore.save record.

(** [args.mailId.toString()]: a [TypeError] when [mailId] is absent. *)
Definition mailIdToString (mailId : option Z) : M string :=
  match mailId with
  | Some id => ret (Js.toString id)
  | None =>
      throw (Error
        "Cannot read properties of undefined (reading 'toString')")
  end.

(** The body of the catch-up loop for one queried event. *)
Definition replayEvent (event : EventLog.t) : M unit :=
  match EventLog.args event with
  | None => ret tt
  | Some args =>
      id <- mailIdToString (MailSentArgs.mailId args) ;;
      persistEvent (Some id) (MailSentArgs.contentCID args)
        (MailSentArgs.senderEmail args) (MailSentArgs.recipientEmail args)
        (Js.Number (MailSentArgs.timestamp args))
        (EventLog.blockNumber event) (EventLog.transactionHash event)
  end.

Fixpoint replayEvents (events : list EventLog.t) : M unit :=
  match events with
  | [] => ret tt
  | event :: rest => replayEvent event ;;; replayEvents rest
  end.

(** The listener registered by [mailer.on('MailSent', ...)]. *)
Definition onMailSent (args : MailSentArgs.t) (blockNumber : option Z)
    (transactionHash : option string) : M unit :=
  id <- mailIdToString (MailSentArgs.mailId args) ;;
  persistEvent (Some id) (MailSentArgs.contentCID args)
    (MailSentArgs.senderEmail args) (MailSentArgs.recipientEmail args)
    (Js.Number (MailSentArgs.timestamp args)) blockNumber transactionHash.

Definition bootstrapEvents (self : t) : M unit :=
  startBlock <-
    match eventStartBlock (config self) with
    | Some b => ret b
    | None => call provider_getBlockNumber EvGetBlockNumber
    end ;;
  current <- call provider_getBlockNumber EvGetBlockNumber ;;
  (if (current >=? startBlock)%Z then
     events <-
       call (fun h => mailer_queryFilter h startBlock current)
            (EvQueryFilter startBlock current) ;;
     replayEvents events
   else ret tt) ;;;
  emit (EvMailerOn "MailSent").

(** [start()], up to the point where the HTTP server listens. *)
Definition start (self : t) : M unit :=
  (if Js.truthy (verificationKeyPath (config self)) then
     let path := orEmpty (verificationKeyPath (config self)) in
     raw <- call (fun h => fs_readFile h path) (EvReadFile path) ;;
     key <- lift (JSON_parse_key raw) ;;
     set_verificationKey key
   else ret tt) ;;;
  bootstrapEvents self.

Fixpoint scanLogs (logs : list Log.t) : outcome (option string) :=
  match logs with
  | [] => Ok None
  | log :: rest =>
      match Log.topics log with
      | Some (topic0 :: _) =>
          if topic0 =? MailerInterface.topicHash then
            match parseLog log with
            | Ok (Some parsed) =>
                Ok (option_map Js.toString (LogDescription.mailId parsed))
            | Ok None => Ok None
            | Throw e => Throw e
            | Diverge => Diverge
            end
          else scanLogs rest
      | _ => scanLogs rest
      end
  end.

Definition extractMailId (logs : option (list Log.t))
  : outcome (option string) :=
  match logs with
  | None => Ok None
  | Some logs =>
      if negb (Js.truthy (Some MailerInterface.topicHash)) then Ok None
      else scanLogs logs
  end.

Definition decodeProof (encoded : string) : outcome Groth16Proof.t :=
  abiDecodeProof encoded.

Definition verifyProof (encodedProof senderAddress senderEmail
    contentCID : string) : M bool :=
  key <- get_verificationKey ;;
  if negb (keyLoaded key) then ret true
  else
    decoded <- lift (decodeProof encodedProof) ;;
    address <- lift (BigInt senderAddress) ;;
    content <- lift (BigInt contentCID) ;;
    email <- lift (BigInt (BytesUtil.keccak256
                             (Bytes.toUtf8Bytes senderEmail))) ;;
    let publicSignals :=
      [Js.toString address; Js.toString content; Js.toString email] in
    call (fun h => groth16_verify h (orEmpty key) publicSignals decoded)
         (EvGroth16Verify (orEmpty key) publicSignals decoded).

(** [app.post('/api/send-mail', ...)] *)
Definition postSendMail (self : t) (body : SendMailBody) : M Response :=
  try_catch
    (if negb (Js.truthy (proof body)) || negb (Js.truthy (cid body))
        || negb (Js.truthy (senderEmail body))
        || negb (Js.truthy (recipientEmail body))
     then ret (mkResponse 400 (ErrorBody "Missing required fields"))
     else
       let proof := orEmpty (proof body) in
       let cid := orEmpty (cid body) in
       let senderEmail := orEmpty (senderEmail body) in
       let recipientEmail := orEmpty (recipientEmail body) in
       owner <-
         call (fun h => registry_resolveEmail h senderEmail)
              (EvResolveEmail senderEmail) ;;
       if owner =? zeroAddress
       then ret (mkResponse 400 (ErrorBody "Sender email not registered"))
       else
         let contentCID := BytesUtil.cidToBytes32 cid in
         InMemoryCidStore.set contentCID cid ;;;
         key <- get_verificationKey ;;
         isValid <-
           (if keyLoaded key
            then verifyProof proof owner senderEmail contentCID
            else ret true) ;;
         if negb isValid then ret (mkResponse 400 (ErrorBody "Invalid proof"))
         else
           IPFSClient.pin (ipfs self) cid ;;;
           tx <-
             call (fun h => mailer_sendMail h proof contentCID senderEmail
                              recipientEmail)
                  (EvMailerSendMail proof contentCID senderEmail
                     recipientEmail) ;;
           receipt <- call (fun h => tx_wait h tx) (EvTxWait tx) ;;
           extracted <-
             lift (extractMailId (BaseMailerClient.receiptLogs receipt)) ;;
           let mailId := match extracted with Some id => id | None => "0" end in
           timestamp <- now ;;
           let record :=
             StoredMail.mk mailId cid contentCID senderEmail recipientEmail
               timestamp
               (match receipt with
                | Some r => TransactionReceipt.blockNumber r
                | None => None
                end)
               (Some (TransactionResponse.hash tx)) in
           InMemoryMailStore.save record ;;;
           ret (mkResponse 200
                  (SentBody true mailId (TransactionResponse.hash tx)
                     timestamp)))
    (fun error => ret (mkResponse 500 (ErrorBody (message error)))).

End WithLibs.
End EmailService.


(** * The rest of the sources *)

(** ** utils/bytes.ts: [assertHex] *)

Module HexCheck.
Import Bytes.

(** The class [[0-9a-fA-F]]. *)
Definition isHexDigit (c : ascii) : bool :=
  match hexValue c with Some _ => true | None => false end.

Fixpoint allHexDigits (s : string) : bool :=
  match s with
  | EmptyString => true
  | String c rest => isHexDigit c && allHexDigits rest
  end.

(** [/^0x[0-9a-fA-F]+$/.test(input)] *)
Definition test (input : string) : bool :=
  startsWith0x input
  && negb (slice2 input =? "")
  && allHexDigits (slice2 input).

Definition assertHex (input label : string) : outcome unit :=
  if negb (test input) then Throw (Error (label ++ " must be a hex string"))
  else Ok tt.

End HexCheck.

(** ** utils/logger.ts *)

Module ConsoleLogger.

Inductive LogLevel : Type :=
| LvDebug | LvInfo | LvWarn | LvError | LvSilent.

Definition levelName (l : LogLevel) : string :=
  match l with
  | LvDebug => "debug" | LvInfo => "info" | LvWarn => "warn"
  | LvError => "error" | LvSilent => "silent"
  end.

Definition level_eqb (a b : LogLevel) : bool := levelName a =? levelName b.

Record t : Type := mk { level : LogLevel }.

(** [new ConsoleLogger(level = 'info')] *)
Definition new (lvl : option LogLevel) : t :=
  mk (match lvl with Some l => l | None => LvInfo end).

Definition order : list LogLevel :=
  [LvDebug; LvInfo; LvWarn; LvError; LvSilent].

(** [array.indexOf(x)]: the first position of [x], -1 when absent. *)
Fixpoint indexOfFrom (i : Z) (x : LogLevel) (l : list LogLevel) : Z :=
  match l with
  | [] => (-1)%Z
  | y :: rest => if level_eqb y x then i else indexOfFrom (i + 1) x rest
  end.

Definition indexOf (x : LogLevel) (l : list LogLevel) : Z := indexOfFrom 0 x l.

Definition shouldLog (self : t) (target : LogLevel) : bool :=
  (indexOf target order >=? indexOf (level self) order)%Z
  && negb (level_eqb (level self) LvSilent).

(** A line handed to the console: the method of [console] called, the
    text, and [meta ?? '']. *)
Record ConsoleLine : Type := mkLine
  { method : LogLevel; text : string; extra : string }.

Definition write (self : t) (target : LogLevel) (message : string)
    (meta : option string) : option ConsoleLine :=
  if shouldLog self target
  then Some (mkLine target
               ("[BaseMailer][" ++ levelName target ++ "] " ++ message)
               (match meta with Some m => m | None => "" end))
  else None.

Definition debug (self : t) := write self LvDebug.
Definition info (self : t) := write self LvInfo.
Definition warn (self : t) := write self LvWarn.
Definition error (self : t) := write self LvError.

End ConsoleLogger.

(** ** client/BaseMailerClient.ts: the records read back from the ledger *)

(** An entry as the [mailer] contract returns it; [mailId] and
    [timestamp] may be absent from the tuple. *)
Module RawMailRecord.
Record t : Type := mk
  { mailId : option Z;
    contentCID : string;
    senderEmail : string;
    recipientEmail : string;
    timestamp : option Z;
    verified : bool }.
End RawMailRecord.

Module MailRecord.
Record t : Type := mk
  { mailId : Z;
    contentCID : string;
    senderEmail : string;
    recipientEmail : string;
    timestamp : Z;
    verified : bool }.
End MailRecord.

Module MailRecords.

(** [records.map((record, index) => ...)] from position [index] on. *)
Fixpoint normalizeFrom (index : Z) (records : list RawMailRecord.t)
  : list MailRecord.t :=
  match records with
  | [] => []
  | record :: rest =>
      MailRecord.mk
        (match RawMailRecord.mailId record with
         | Some id => id
         | None => index
         end)
        (RawMailRecord.contentCID record)
        (RawMailRecord.senderEmail record)
        (RawMailRecord.recipientEmail record)
        (match RawMailRecord.timestamp record with
         | Some ts => ts
         | None => 0%Z
         end)
        (RawMailRecord.verified record)
      :: normalizeFrom (index + 1) rest
  end.

Definition normalizeMailRecords (records : list RawMailRecord.t)
  : list MailRecord.t :=
  normalizeFrom 0 records.

End MailRecords.

(** ** service/EmailService.ts: the routes that read the index *)

Module Routes.

Inductive Body : Type :=
| InboxBody (inbox : list StoredMail.t)
| SentboxBody (sentbox : list StoredMail.t)
| MailBody (mail : StoredMail.t)
| NotFound (error : string).

Record Response : Type := mkResponse { status : Z; json : Body }.

(** [app.get('/api/inbox/:email', ...)] *)
Definition getInbox (email : string) : M Response :=
  inbox <- InMemoryMailStore.getInbox email ;;
  ret (mkResponse 200 (InboxBody inbox)).

(** [app.get('/api/sentbox/:email', ...)] *)
Definition getSentbox (email : string) : M Response :=
  sentbox <- InMemoryMailStore.getSentbox email ;;
  ret (mkResponse 200 (SentboxBody sentbox)).

(** [app.get('/api/mail/:mailId', ...)] *)
Definition getMail (mailId : string) : M Response :=
  mail <- InMemoryMailStore.get mailId ;;
  match mail with
  | None => ret (mkResponse 404 (NotFound "Mail not found"))
  | Some mail => ret (mkResponse 200 (MailBody mail))
  end.

End Routes.
(** ** Stand-ins for the libraries and the outside world

    Small executable instances of [CryptoLib], [JsLib], [EthersLib] and
    [Env], on which the model can be run.  They keep the shape of the
    real libraries (key sizes, what throws) and none of their security. *)

Module Standin.
Import Bytes.

Definition xorZip (a b : bytes) : bytes :=
  map (fun p => byte_xor (fst p) (snd p)) (combine a b).

(** A private key is 32 bytes, not all zero; its public key is the key
    behind a format byte. *)
Definition getPublicKey (sk : bytes) : outcome bytes :=
  if (List.length sk =? 32)%nat && negb (Buffer.everyZero sk)
  then Ok (x02 :: sk)
  else Throw (Error "invalid private key").

Definition getSharedSecret (sk pk : bytes) : outcome bytes :=
  match pk with
  | _ :: body =>
      if (List.length sk =? 32)%nat && (List.length body =? 32)%nat
      then Ok (x02 :: xorZip sk body)
      else Throw (Error "invalid key")
  | [] => Throw (Error "invalid public key")
  end.

Definition hkdfSync (ikm salt info : bytes) (length : nat) : outcome bytes :=
  if (255 * 32 <? length)%nat then Throw (Error "Invalid key length")
  else Ok (EncryptionManager.xorMask (Buffer.resize length ikm) (info ++ salt)).

Definition hmacSha256 (key data : bytes) : bytes :=
  EncryptionManager.xorMask (Buffer.resize 32 data) key.

Definition tagOf (key iv ciphertext : bytes) : bytes :=
  EncryptionManager.xorMask (Buffer.resize 16 ciphertext) (iv ++ key).

Definition aes256gcmEncrypt (key iv plaintext : bytes)
  : outcome (bytes * bytes) :=
  if negb (List.length key =? 32)%nat then Throw (Error "Invalid key length")
  else
    let ciphertext := EncryptionManager.xorMask plaintext (key ++ iv) in
    Ok (ciphertext, tagOf key iv ciphertext).

Definition aes256gcmDecrypt (key iv ciphertext authTag : bytes)
  : outcome bytes :=
  if negb (List.length key =? 32)%nat then Throw (Error "Invalid key length")
  else if negb (Buffer.equals authTag (tagOf key iv ciphertext))
  then Throw (Error "Unsupported state or unable to authenticate data")
  else Ok (EncryptionManager.xorMask ciphertext (key ++ iv)).

Definition crypto : CryptoLib :=
  Build_CryptoLib getPublicKey getSharedSecret hkdfSync hmacSha256
    aes256gcmEncrypt aes256gcmDecrypt.

(** One field per line stands in for JSON; attachments are not carried. *)
Definition newline : string := String "010"%char "".

Fixpoint cutLine (s : string) : string * string :=
  match s with
  | EmptyString => ("", "")
  | String c rest =>
      if (c =? "010")%char then ("", rest)
      else let (line, others) := cutLine rest in (String c line, others)
  end.

Definition stringify_content (c : MailContent.t) : string :=
  MailContent.from c ++ newline ++ MailContent.to c ++ newline
  ++ MailContent.subject c ++ newline
  ++ match MailContent.timestamp c with
     | Some ts => Js.toString ts
     | None => ""
     end
  ++ newline ++ MailContent.body c.

Definition parse_content (s : string) : outcome MailContent.t :=
  let (from, r1) := cutLine s in
  let (to, r2) := cutLine r1 in
  let (subject, r3) := cutLine r2 in
  let (ts, body) := cutLine r3 in
  if ts =? "" then Ok (MailContent.mk from to subject body None None)
  else
    match NilZero.int_of_string ts with
    | Some d => Ok (MailContent.mk from to subject body (Some (Z.of_int d)) None)
    | None => Throw (Error "Unexpected token in JSON")
    end.

Definition stringify_package (pkg : EncryptedMailPackage.t) : string :=
  let ec := EncryptedMailPackage.encryptedContent pkg in
  let ek := EncryptedMailPackage.encryptedKey pkg in
  EncryptedMailPackage.version pkg ++ newline
  ++ EncryptedContentPayload.ciphertext ec ++ newline
  ++ EncryptedContentPayload.iv ec ++ newline
  ++ EncryptedContentPayload.authTag ec ++ newline
  ++ EncryptedKeyPayload.ephemeralPublicKey ek ++ newline
  ++ EncryptedKeyPayload.ciphertext ek ++ newline
  ++ EncryptedKeyPayload.mac ek.

(** Big-endian value of a 0x-prefixed hex string, or of a decimal one. *)
Definition bigInt (s : string) : outcome Z :=
  if startsWith0x s then
    Ok (Z.of_N (fold_left (fun acc b => (acc * 256 + Byte.to_N b)%N)
                          (hexDecode (slice2 s)) 0%N))
  else
    match NilZero.int_of_string s with
    | Some d => Ok (Z.of_int d)
    | None => Throw (Error "Cannot convert to a BigInt")
    end.

Definition js : JsLib :=
  {| JSON_stringify_content := stringify_content;
     JSON_parse_content := parse_content;
     JSON_stringify_package := stringify_package;
     JSON_parse_key := fun raw => Ok raw;
     key_truthy := fun key => negb (key =? "null");
     BigInt := bigInt |}.

Definition abiEncodeProof (p : Groth16Proof.t) : outcome string :=
  Ok (toHex (toUtf8Bytes
        (String.concat ","
           (Groth16Proof.pi_a p ++ List.concat (Groth16Proof.pi_b p)
            ++ Groth16Proof.pi_c p)%list))).

Definition abiDecodeProof (encoded : string) : outcome Groth16Proof.t :=
  match fromHex encoded with
  | Ok b => Ok (Groth16Proof.mk [utf8ToString b] [] [])
  | Throw e => Throw e
  | Diverge => Diverge
  end.

(** A [MailSent] log carries the mail id as its second topic. *)
Definition parseLog (log : Log.t) : outcome (option LogDescription.t) :=
  match Log.topics log with
  | Some (topic0 :: topic1 :: _) =>
      if topic0 =? MailerInterface.topicHash then
        match bigInt topic1 with
        | Ok id => Ok (Some (LogDescription.mk (Some id)))
        | Throw e => Throw e
        | Diverge => Diverge
        end
      else Ok None
  | _ => Ok None
  end.

Definition ethers : EthersLib :=
  Build_EthersLib abiEncodeProof abiDecodeProof parseLog.

(** The recipient of the test suite: the private key is 32 bytes 0x01. *)
Definition recipientPrivateKeyBytes : bytes := repeat x01 32.
Definition recipientPrivateKey : string := toHex recipientPrivateKeyBytes.
Definition recipientPublicKey : string :=
  toHex (x02 :: recipientPrivateKeyBytes).

(** The outside world.  [owner] is what the registry answers for every
    address, [resolver] tells whether a recipient resolver is configured,
    [stored] and [proved] are the answers of [ipfs.add] and of the
    prover, [logs] are the logs of every receipt, and the verifier
    rejects every proof. *)
Definition env (owner : string) (resolver : bool) (stored : outcome string)
    (proved : outcome (Groth16Proof.t * list string)) (logs : list Log.t)
  : Env :=
  {| Date_now := fun h => (1700000000000 + Z.of_nat (List.length h))%Z;
     registry_resolveEmail := fun _ _ => Ok owner;
     recipientResolver :=
       if resolver
       then Some (fun _ email owner =>
                    Ok (RecipientResolutionResult.mk email owner
                          recipientPublicKey))
       else None;
     ipfs_add := fun _ _ _ _ => stored;
     ipfs_pin_add := fun _ _ => Ok tt;
     groth16_fullProve := fun _ _ => proved;
     groth16_verify := fun _ _ _ _ => Ok false;
     mailer_sendMail := fun _ _ _ _ _ => Ok (TransactionResponse.mk "0xfeed");
     tx_wait := fun _ _ =>
       Ok (Some (TransactionReceipt.mk (Some logs) (Some 7%Z)));
     fs_readFile := fun _ _ => Ok "{}";
     provider_getBlockNumber := fun _ => Ok 10%Z;
     mailer_queryFilter := fun _ _ _ => Ok [] |}.

Definition handle : outcome string := Ok "QmStandinHandle".

Definition groth16Proof : outcome (Groth16Proof.t * list string) :=
  Ok (Groth16Proof.mk ["1"; "2"] [["3"; "4"]; ["5"; "6"]] ["7"; "8"], ["9"]).

Definition registeredOwner : string :=
  "0x00000000000000000000000000000000000000a1".

(** The [MailSent] log of mail 42. *)
Definition mailSentLog : Log.t :=
  Log.mk (Some [MailerInterface.topicHash; "0x2a"]) "0x".

(** Worlds outside: a registered recipient whose receipt carries the
    [MailSent] log; the same with a receipt without logs; a registry that
    knows no owner for the recipient (the zero address); a storage that
    fails; a prover that fails with the same error. *)
Definition registered : Env :=
  env registeredOwner true handle groth16Proof [mailSentLog].
Definition withoutLogs : Env := env registeredOwner true handle groth16Proof [].
Definition unregistered : Env :=
  env EmailService.zeroAddress true handle groth16Proof [].
Definition storageDown : Env :=
  env registeredOwner true (Throw (Error "socket hang up")) groth16Proof [].
Definition proverDown : Env :=
  env registeredOwner true handle (Throw (Error "socket hang up")) [].

(** A process that has done nothing yet, with three random draws ahead:
    the symmetric key, the nonce and the ephemeral private key. *)
Definition world0 : World :=
  mkWorld [] [repeat x11 32; repeat x22 12; repeat x33 32] [] [] None.

Definition mail : MailContent.t :=
  MailContent.mk "alice.base.eth@basemailer.com" "bob.base.eth@basemailer.com"
    "Hi Bob" "Hello from Alice" (Some 1700000000000%Z) None.

Definition params : SendMailParams.t :=
  SendMailParams.mk "alice.base.eth@basemailer.com"
    "bob.base.eth@basemailer.com" "Hi Bob" "Hello from Alice" None.

Definition client : BaseMailerClient.t :=
  BaseMailerClient.mk (EncryptionManager.new None) (IPFSClient.new None None).

Definition emptyPackage : EncryptedMailPackage.t :=
  EncryptedMailPackage.mk ""
    (EncryptedContentPayload.mk "" "" "" "")
    (EncryptedKeyPayload.mk "" "" "" "")
    (MailMetadata.mk "" 0 0 "").

(** The package [encrypt] makes of [mail] for the recipient in [world0]. *)
Definition package : EncryptedMailPackage.t :=
  Eval vm_compute in
    match
      fst (@EncryptionManager.encrypt crypto js withoutLogs
             (EncryptionManager.new None) mail recipientPublicKey world0)
    with
    | Ok pkg => pkg
    | _ => emptyPackage
    end.

(** [package] relabelled with another version, in both places. *)
Definition withVersion (v : string) (pkg : EncryptedMailPackage.t)
  : EncryptedMailPackage.t :=
  let md := EncryptedMailPackage.metadata pkg in
  EncryptedMailPackage.mk v
    (EncryptedMailPackage.encryptedContent pkg)
    (EncryptedMailPackage.encryptedKey pkg)
    (MailMetadata.mk v (MailMetadata.timestamp md) (MailMetadata.size md)
       (MailMetadata.contentType md)).



(** A service constructed without [verificationKeyPath], and a request. *)
Definition service : EmailService.t :=
  EmailService.mk (EmailService.mkConfig None None) (IPFSClient.new None None).

Definition request : EmailService.SendMailBody :=
  EmailService.mkBody (Some "0xbad0") (Some "QmStandinHandle")
    (Some "alice.base.eth@basemailer.com") (Some "bob.base.eth@basemailer.com").



End Standin.


(** * Notions used by the statements *)

(** ** Reading traces *)

(** The events a run added to the trace of the state it started from. *)
Definition newEvents (before after : World) : list Event :=
  skipn (List.length (trace before)) (trace after).


Definition is_cipher (ev : Event) : bool :=
  match ev with EvCipher _ _ _ _ => true | _ => false end.

Definition is_ipfs_add (ev : Event) : bool :=
  match ev with EvIpfsAdd _ _ _ _ => true | _ => false end.

Definition is_verify (ev : Event) : bool :=
  match ev with EvGroth16Verify _ _ _ _ => true | _ => false end.

(** The handle made of [n] letters a, for digests at the block boundary
    of the sponge (136 bytes). *)
Definition lettersA (n : nat) : string :=
  string_of_list_ascii (repeat "a"%char n).

Definition is_submit (ev : Event) : bool :=
  match ev with EvMailerSendMail _ _ _ _ _ => true | _ => false end.

(** The error an outside call answered with, if it threw. *)
Definition thrownBy (ev : Event) : option exn :=
  let thrown {A} (r : outcome A) :=
    match r with Throw e => Some e | _ => None end in
  match ev with
  | EvCipher _ _ _ r => thrown r
  | EvDecipher _ _ _ _ r => thrown r
  | EvResolveEmail _ r => thrown r
  | EvRecipientResolver _ _ r => thrown r
  | EvIpfsAdd _ _ _ r => thrown r
  | EvIpfsPinAdd _ r => thrown r
  | EvFullProve _ r => thrown r
  | EvGroth16Verify _ _ _ r => thrown r
  | EvMailerSendMail _ _ _ _ r => thrown r
  | EvTxWait _ r => thrown r
  | EvReadFile _ r => thrown r
  | EvGetBlockNumber r => thrown r
  | EvQueryFilter _ _ r => thrown r
  | _ => None
  end.


(** The environment with another verifier. *)
Definition withVerifier (E : Env)
    (verifier : list Event -> VerificationKey -> list string ->
                Groth16Proof.t -> outcome bool) : Env :=
  {| Date_now := @Date_now E;
     registry_resolveEmail := @registry_resolveEmail E;
     recipientResolver := @recipientResolver E;
     ipfs_add := @ipfs_add E;
     ipfs_pin_add := @ipfs_pin_add E;
     groth16_fullProve := @groth16_fullProve E;
     groth16_verify := verifier;
     mailer_sendMail := @mailer_sendMail E;
     tx_wait := @tx_wait E;
     fs_readFile := @fs_readFile E;
     provider_getBlockNumber := @provider_getBlockNumber E;
     mailer_queryFilter := @mailer_queryFilter E |}.

Arguments BytesUtil.keccak256 : simpl never.
Arguments BytesUtil.cidToBytes32 : simpl never.
Arguments MailerInterface.topicHash : simpl never.
Arguments Buffer.resize : simpl never.

(** ** Where an exception of the client comes from *)

(** The errors [BaseMailerClient.sendMail] raises without leaving the
    process: its two guards and the library calls that may throw. *)
Inductive raisedLocally `{CryptoLib} `{EthersLib} : exn -> Prop :=
| raised_from_required : raisedLocally (Error "from email is required")
| raised_no_resolver :
    raisedLocally
      (Error "recipientResolver is not configured; cannot derive public key")
| raised_getPublicKey (key : bytes) (e : exn) :
    getPublicKey key = Throw e -> raisedLocally e
| raised_getSharedSecret (sk pk : bytes) (e : exn) :
    getSharedSecret sk pk = Throw e -> raisedLocally e
| raised_hkdfSync (ikm salt info : bytes) (n : nat) (e : exn) :
    hkdfSync ikm salt info n = Throw e -> raisedLocally e
| raised_abiEncodeProof (p : Groth16Proof.t) (e : exn) :
    abiEncodeProof p = Throw e -> raisedLocally e
| raised_parseLog (log : Log.t) (e : exn) :
    parseLog log = Throw e -> raisedLocally e.

(** [e] was raised by the process itself, as [local] allows, or is the
    answer of a call recorded in [evs]. *)
Definition origin (local : exn -> Prop) (e : exn) (evs : list Event) : Prop :=
  local e \/ exists ev, In ev evs /\ thrownBy ev = Some e.

(** A computation that only appends to the trace, events that all pass
    [p], and whose exceptions all have an origin. *)
Definition emits (local : exn -> Prop) (p : Event -> bool) {A} (m : M A)
  : Prop :=
  forall w : World,
    exists evs : list Event,
      trace (snd (m w)) = trace w ++ evs
      /\ forallb p evs = true
      /\ (forall e, fst (m w) = Throw e -> origin local e evs).

Definition anyError (e : exn) : Prop := True.


(** The events of a dispatch other than its two landmarks, the write to
    the commitment map and the submission to the ledger. *)
Definition is_cidStore_set (ev : Event) : bool :=
  match ev with EvCidStoreSet _ _ => true | _ => false end.

Definition quiet (ev : Event) : bool :=
  negb (is_submit ev) && negb (is_cidStore_set ev).

Definition anyEvent (ev : Event) : bool := true.

Definition encryptsOrStores (ev : Event) : bool :=
  is_cipher ev || is_ipfs_add ev.

(** ** The handler without its verification step *)

Module Unverified.
Section WithLibs.
Context `{JsLib} `{EthersLib} `{Env}.
Import EmailService.

(** [POST /api/send-mail] as the source has it, with the block
    [if (this.verificationKey) { ... }] taken out: the reference against
    which the handler of a service without key is compared. *)
Definition postSendMail (self : EmailService.t) (body : SendMailBody)
  : M Response :=
  try_catch
    (if negb (Js.truthy (proof body)) || negb (Js.truthy (cid body))
        || negb (Js.truthy (senderEmail body))
        || negb (Js.truthy (recipientEmail body))
     then ret (mkResponse 400 (ErrorBody "Missing required fields"))
     else
       let proof := orEmpty (proof body) in
       let cid := orEmpty (cid body) in
       let senderEmail := orEmpty (senderEmail body) in
       let recipientEmail := orEmpty (recipientEmail body) in
       owner <-
         call (fun h => registry_resolveEmail h senderEmail)
              (EvResolveEmail senderEmail) ;;
       if owner =? zeroAddress
       then ret (mkResponse 400 (ErrorBody "Sender email not registered"))
       else
         let contentCID := BytesUtil.cidToBytes32 cid in
         InMemoryCidStore.set contentCID cid ;;;
         IPFSClient.pin (ipfs self) cid ;;;
         tx <-
           call (fun h => mailer_sendMail h proof contentCID senderEmail
                            recipientEmail)
                (EvMailerSendMail proof contentCID senderEmail
                   recipientEmail) ;;
         receipt <- call (fun h => tx_wait h tx) (EvTxWait tx) ;;
         extracted <-
           lift (extractMailId (BaseMailerClient.receiptLogs receipt)) ;;
         let mailId := match extracted with Some id => id | None => "0" end in
         timestamp <- now ;;
         let record :=
           StoredMail.mk mailId cid contentCID senderEmail recipientEmail
             timestamp
             (match receipt with
              | Some r => TransactionReceipt.blockNumber r
              | None => None
              end)
             (Some (TransactionResponse.hash tx)) in
         InMemoryMailStore.save record ;;;
         ret (mkResponse 200
                (SentBody true mailId (TransactionResponse.hash tx)
                   timestamp)))
    (fun error => ret (mkResponse 500 (ErrorBody (message error)))).

End WithLibs.
End Unverified.

(** A computation that leaves [verificationKey] as it found it. *)
Definition keepsKey {A} (m : M A) : Prop :=
  forall w : World, verificationKey (snd (m w)) = verificationKey w.

Definition notVerify (ev : Event) : bool := negb (is_verify ev).

(** ** Laws of the libraries, key pairs, faithful contents *)

(** What the engine relies on from its libraries: both sides of an ECDH
    exchange compute the same secret, and AES-256-GCM decrypts what it
    encrypted. *)
Class CryptoLaws (C : CryptoLib) : Prop :=
  { ecdh_agreement :
      forall a b pa pb : bytes,
        getPublicKey a = Ok pa -> getPublicKey b = Ok pb ->
        getSharedSecret a pb = getSharedSecret b pa;
    aes_gcm_correct :
      forall key iv plaintext ciphertext authTag : bytes,
        aes256gcmEncrypt key iv plaintext = Ok (ciphertext, authTag) ->
        aes256gcmDecrypt key iv ciphertext authTag = Ok plaintext }.

(** [(privateKeyHex, publicKeyHex)] is a recipient key pair: the private
    key is 32 bytes of hex and the public key is the one the curve
    library derives from it. *)
Definition recipient_keypair `{CryptoLib} (privateKeyHex publicKeyHex : string)
  : Prop :=
  exists sk pk : bytes,
    EncryptionManager.normalizePrivateKey privateKeyHex = Ok sk
    /\ getPublicKey sk = Ok pk
    /\ EncryptionManager.normalizePublicKey publicKeyHex = Ok pk.

(** The content survives [JSON.stringify] followed by [JSON.parse]. *)
Definition json_faithful `{JsLib} (content : MailContent.t) : Prop :=
  JSON_parse_content (JSON_stringify_content content) = Ok content.

(** How many entries of a map sit under a key. *)
Definition entriesUnder {V} (k : string) (m : Js.Map V) : nat :=
  List.length (filter (fun k' => k' =? k) (Js.map_keys m)).


(** ** Letter case *)

(** [c.toLowerCase()] on one ASCII character. *)
Definition lowerAscii (c : ascii) : ascii :=
  let n := N_of_ascii c in
  if ((65 <=? n) && (n <=? 90))%N then ascii_of_N (n + 32) else c.

Fixpoint toLowerCase (s : string) : string :=
  match s with
  | EmptyString => EmptyString
  | String c rest => String (lowerAscii c) (toLowerCase rest)
  end.

(** The sixteen hexadecimal digits with their values. *)
Definition hexTable : list (N * ascii) :=
  Eval vm_compute in
    map (fun n => (n, Bytes.hexDigit n)) (map N.of_nat (seq 0 16)).

(** ** The index of the service *)

(** The [Map] of the mail store: one entry per key, each record filed
    under its own mail id.  The empty map is such, and [save] keeps it
    so. *)
Definition indexed (m : Js.Map StoredMail.t) : Prop :=
  NoDup (Js.map_keys m)
  /\ Forall (fun entry => fst entry = StoredMail.mailId (snd entry)) m.

(** ** Events of the catch-up *)

Definition is_subscribe (ev : Event) : bool :=
  match ev with EvMailerOn _ => true | _ => false end.

(** The events of the index: a lookup in the commitment map, a save in
    the mail store. *)
Definition is_indexing (ev : Event) : bool :=
  match ev with
  | EvCidStoreGet _ _ | EvMailStoreSave _ => true
  | _ => false
  end.

(** [bootstrapEvents] once the start block is known. *)
Definition bootstrapFrom `{Env} (startBlock : Z)
  : M unit :=
  current <- call provider_getBlockNumber EvGetBlockNumber ;;
  (if (current >=? startBlock)%Z then
     events <-
       call (fun h => mailer_queryFilter h startBlock current)
            (EvQueryFilter startBlock current) ;;
     EmailService.replayEvents events
   else ret tt) ;;;
  emit (EvMailerOn "MailSent").

(** ** The submission of a request *)

(** The events that are not a submission to the ledger, and the
    submission of the given proof, commitment, sender and recipient. *)
Definition submits (proof contentCID senderEmail recipientEmail : string)
    (ev : Event) : bool :=
  match ev with
  | EvMailerSendMail p c s r _ =>
      (p =? proof) && (c =? contentCID) && (s =? senderEmail)
      && (r =? recipientEmail)
  | _ => true
  end.

Definition notSubmit (ev : Event) : bool := negb (is_submit ev).

(** A computation that leaves the index and the commitment map as it
    found them. *)
Definition keepsStores {A} (m : M A) : Prop :=
  forall w : World,
    mails (snd (m w)) = mails w /\ cidStore (snd (m w)) = cidStore w.


(** ** More runs of the stand-ins *)

Module Samples.

(** The mail of the test suite before it is stamped. *)
Definition unstamped : MailContent.t :=
  MailContent.mk "alice.base.eth@basemailer.com" "bob.base.eth@basemailer.com"
    "Hi Bob" "Hello from Alice" None None.

(** A verifier that accepts every proof. *)
Definition accepting : Env :=
  withVerifier Standin.registered (fun _ _ _ _ => Ok true).

(** A service configured with a verification key and a start block
    beyond the head of the stand-in ledger, and a process in which that
    key is loaded. *)
Definition keyedService : EmailService.t :=
  EmailService.mk (EmailService.mkConfig (Some "vk.json") (Some 20%Z))
    (IPFSClient.new None None).

Definition keyedWorld : World := mkWorld [] [] [] [] (Some "{}").

(** Two [MailSent] events of mail 42, the second with other addresses,
    and one of mail 43 that lacks its commitment. *)
Definition ledgerEvents : list EventLog.t :=
  [EventLog.mk
     (Some (MailSentArgs.mk (Some 42%Z) (Some "0xc0ffee") "alice" "bob"
              1700000000000%Z)) (Some 7%Z) (Some "0xfeed");
   EventLog.mk
     (Some (MailSentArgs.mk (Some 43%Z) None "carol" "dave"
              1700000000001%Z)) (Some 8%Z) (Some "0xbeef");
   EventLog.mk
     (Some (MailSentArgs.mk (Some 42%Z) (Some "0xc0ffee") "erin" "frank"
              1700000000002%Z)) (Some 9%Z) (Some "0xfade")].

(** The record the stand-in service files for [Standin.request]. *)
Definition sentRecord : StoredMail.t :=
  StoredMail.mk "42" "QmStandinHandle"
    (BytesUtil.cidToBytes32 "QmStandinHandle")
    "alice.base.eth@basemailer.com" "bob.base.eth@basemailer.com"
    1700000000005%Z (Some 7%Z) (Some "0xfeed").

End Samples.
(** * Properties *)

(** ** Bytes and hexadecimal strings *)

Section BytesFacts.
Import Bytes.

Lemma byte_xor_involutive (a b : byte) : byte_xor (byte_xor a b) b = a.
Proof.
  unfold byte_xor.
  destruct (Byte.to_bits a) as [a0 [a1 [a2 [a3 [a4 [a5 [a6 a7]]]]]]] eqn:Ea.
  destruct (Byte.to_bits b) as [b0 [b1 [b2 [b3 [b4 [b5 [b6 b7]]]]]]] eqn:Eb.
  rewrite Byte.to_bits_of_bits.
  rewrite <- (Byte.of_bits_to_bits a), Ea.
  f_equal.
  repeat (f_equal; try (rewrite xorb_assoc, xorb_nilpotent, xorb_false_r;
                        reflexivity)).
Qed.

Lemma byte_xor_comm (a b : byte) : byte_xor a b = byte_xor b a.
Proof.
  unfold byte_xor.
  destruct (Byte.to_bits a) as [a0 [a1 [a2 [a3 [a4 [a5 [a6 a7]]]]]]].
  destruct (Byte.to_bits b) as [b0 [b1 [b2 [b3 [b4 [b5 [b6 b7]]]]]]].
  f_equal.
  repeat (f_equal; try apply xorb_comm).
Qed.

Lemma hexDecode_byteToHex (b : byte) (rest : string) :
  hexDecode (byteToHex b ++ rest) = b :: hexDecode rest.
Proof. destruct b; reflexivity. Qed.

Lemma hexDecode_hexEncode (bs : bytes) : hexDecode (hexEncode bs) = bs.
Proof.
  induction bs as [|b bs IH]; cbn [hexEncode].
  - reflexivity.
  - rewrite hexDecode_byteToHex, IH. reflexivity.
Qed.

Lemma fromHex_toHex (bs : bytes) : fromHex (toHex bs) = Ok bs.
Proof.
  unfold fromHex, toHex. simpl. rewrite hexDecode_hexEncode. reflexivity.
Qed.

Lemma length_hexEncode (bs : bytes) :
  String.length (hexEncode bs) = 2 * List.length bs.
Proof.
  induction bs as [|b bs IH]; simpl.
  - reflexivity.
  - rewrite IH. lia.
Qed.

Lemma length_toHex (bs : bytes) :
  String.length (toHex bs) = 2 + 2 * List.length bs.
Proof. unfold toHex. simpl. rewrite length_hexEncode. lia. Qed.

Lemma toHex_injective (a b : bytes) : toHex a = toHex b -> a = b.
Proof.
  intros E. apply (f_equal fromHex) in E.
  rewrite !fromHex_toHex in E. congruence.
Qed.

End BytesFacts.

Lemma length_keccak256 (data : bytes) :
  List.length (Keccak.keccak256 data) = 32.
Proof. unfold Keccak.keccak256. rewrite length_map, length_seq. reflexivity. Qed.

Example keccak256_empty :
  BytesUtil.keccak256 [] =
  "0xc5d2460186f7233c927e7db2dcc703c0e500b653ca82273b7bfad8045d85a470".
Proof. vm_compute. reflexivity. Qed.

(** [keccak256(abi.encode(uint256(0)))], and the topic of the ERC-20
    [Transfer] event. *)
Example keccak256_zero_word :
  BytesUtil.keccak256 (repeat x00 32) =
  "0x290decd9548b62a8d60345a988386fc84ba6bc95484008f6362f93160ef3e563".
Proof. vm_compute. reflexivity. Qed.

Example keccak256_transfer_topic :
  BytesUtil.keccak256 (Bytes.toUtf8Bytes "Transfer(address,address,uint256)") =
  "0xddf252ad1be2c89b69c2b068fc378daa952ba7f163c4a11628f55a4df523b3ef".
Proof. vm_compute. reflexivity. Qed.

Example cidToBytes32_abc :
  BytesUtil.cidToBytes32 "abc" =
  "0x4e03657aea45a94fc7d47ba826c8d667c0d1e6e33a64a036ec44f58fa12d6c45".
Proof. vm_compute. reflexivity. Qed.

(** C6.  The commitment of a storage handle is a function of the handle
    alone.  It is the 0x-prefixed lowercase hex text of one 32-byte
    digest of the handle's UTF-8 bytes, the same for handles with the
    same bytes.  The digest is keccak-256: on the empty handle, on abc,
    on handles of the two content-identifier formats, on a handle outside
    ASCII and on handles of 135, 136, 137 and 272 bytes (the sponge
    absorbs 136 bytes a block) it is the published keccak-256 digest,
    which on the empty handle differs from the SHA3-256 one.  Handles
    that differ in one letter have different commitments. *)
Theorem cidToBytes32_is_keccak_digest (cid : string) :
  let digest := Keccak.keccak256 (Bytes.toUtf8Bytes cid) in
  (List.length digest = 32
   /\ BytesUtil.cidToBytes32 cid = Bytes.toHex digest
   /\ Bytes.fromHex (BytesUtil.cidToBytes32 cid) = Ok digest
   /\ String.length (BytesUtil.cidToBytes32 cid) = 66
   /\ (forall cid' : string,
         Bytes.toUtf8Bytes cid' = Bytes.toUtf8Bytes cid ->
         BytesUtil.cidToBytes32 cid' = BytesUtil.cidToBytes32 cid))
  /\ (BytesUtil.cidToBytes32 ""
      = "0xc5d2460186f7233c927e7db2dcc703c0e500b653ca82273b7bfad8045d85a470"
      /\ BytesUtil.cidToBytes32 ""
         <> "0xa7ffc6f8bf1ed76651c14756a061d662f580ff4de43b49fa82d80a4b80f8434a"
      /\ BytesUtil.cidToBytes32 "abc"
         = "0x4e03657aea45a94fc7d47ba826c8d667c0d1e6e33a64a036ec44f58fa12d6c45"
      /\ BytesUtil.cidToBytes32
           "QmYwAPJzv5CZsnA625s3Xf2nemtYgPpHdWEz79ojWnPbdG"
         = "0x9e70d347eb27e5edfa2b03409b020ecdaba0997a7a4806a5c441694ea6bf9b5d"
      /\ BytesUtil.cidToBytes32
           "bafybeigdyrzt5sfp7udm7hu76uh7y26nf3efuylqabf3oclgtqy55fbzdi"
         = "0x27bdcde325b1f75f418259cc6e8eb0c3a6aab6fb11319979b433d47d0c585752"
      /\ BytesUtil.cidToBytes32 (Bytes.utf8ToString [x63; x61; x66; xc3; xa9])
         = "0x9513447e2d376aacd434727887590dd448cda8f2d30c4ace903d31fe209f8ad8"
      /\ BytesUtil.cidToBytes32 (lettersA 135)
         = "0x34367dc248bbd832f4e3e69dfaac2f92638bd0bbd18f2912ba4ef454919cf446"
      /\ BytesUtil.cidToBytes32 (lettersA 136)
         = "0xa6c4d403279fe3e0af03729caada8374b5ca54d8065329a3ebcaeb4b60aa386e"
      /\ BytesUtil.cidToBytes32 (lettersA 137)
         = "0xd869f639c7046b4929fc92a4d988a8b22c55fbadb802c0c66ebcd484f1915f39"
      /\ BytesUtil.cidToBytes32 (lettersA 272)
         = "0xcf7fcd4f705ee749930d19ca84561a9bf62516bd90a471545fa2f49fdc7e63c8")
  /\ BytesUtil.cidToBytes32 "QmYwAPJzv5CZsnA625s3Xf2nemtYgPpHdWEz79ojWnPbdG"
     <> BytesUtil.cidToBytes32 "QmYwAPJzv5CZsnA625s3Xf2nemtYgPpHdWEz79ojWnPbdH".
Proof.
  cbv zeta. split; [| split].
  - unfold BytesUtil.cidToBytes32, BytesUtil.keccak256.
    split; [|split; [|split; [|split]]].
    + apply length_keccak256.
    + reflexivity.
    + apply fromHex_toHex.
    + rewrite length_toHex, length_keccak256. reflexivity.
    + intros cid' ->. reflexivity.
  - repeat split; try (vm_compute; reflexivity).
    vm_compute. discriminate.
  - vm_compute. discriminate.
Qed.

(** ** The state-and-exception monad *)

Section MonadFacts.

Lemma bind_Ok_inv {A B} (m : M A) (k : A -> M B) w b w' :
  bind m k w = (Ok b, w') ->
  exists a w1, m w = (Ok a, w1) /\ k a w1 = (Ok b, w').
Proof.
  unfold bind. destruct (m w) as [[a | e |] w1]; intros E;
    try discriminate.
  exists a, w1. split; [reflexivity | exact E].
Qed.

Lemma bind_Ok {A B} (m : M A) (k : A -> M B) w a w1 :
  m w = (Ok a, w1) -> bind m k w = k a w1.
Proof. unfold bind. intros ->. reflexivity. Qed.

Lemma bind_Throw {A B} (m : M A) (k : A -> M B) w e w1 :
  m w = (Throw e, w1) -> bind m k w = (Throw e, w1).
Proof. unfold bind. intros ->. reflexivity. Qed.

Lemma bind_ret {A B} (a : A) (k : A -> M B) w : bind (ret a) k w = k a w.
Proof. reflexivity. Qed.

Lemma bind_cong {A B} (m : M A) (k k' : A -> M B) w :
  (forall a w1, m w = (Ok a, w1) -> k a w1 = k' a w1) ->
  bind m k w = bind m k' w.
Proof.
  intros Hk. unfold bind. destruct (m w) as [[a | e |] w1]; try reflexivity.
  apply Hk. reflexivity.
Qed.

Lemma try_catch_cong {A} (m m' : M A) (h : exn -> M A) w :
  m w = m' w -> try_catch m h w = try_catch m' h w.
Proof. unfold try_catch. intros ->. reflexivity. Qed.

Lemma lift_Ok_inv {A} (o : outcome A) w a w' :
  lift o w = (Ok a, w') -> o = Ok a /\ w' = w.
Proof. unfold lift. intros E. inversion E. split; reflexivity. Qed.

Lemma ret_Ok_inv {A} (a b : A) w w' :
  ret a w = (Ok b, w') -> a = b /\ w' = w.
Proof. unfold ret. intros E. inversion E. split; reflexivity. Qed.

Lemma call_Ok_inv {A} (oracle : list Event -> outcome A) record w a w' :
  call oracle record w = (Ok a, w') ->
  oracle (trace w) = Ok a /\ w' = log_event (record (Ok a)) w.
Proof.
  unfold call. intros E. inversion E as [[E1 E2]].
  split; [reflexivity | rewrite E1; reflexivity].
Qed.

End MonadFacts.

(** ** Buffers *)

Section BufferFacts.

Lemma equals_true_iff (a b : bytes) : Buffer.equals a b = true <-> a = b.
Proof.
  revert b. induction a as [|x a IH]; intros [|y b]; simpl;
    try (split; [discriminate | discriminate]).
  - split; reflexivity.
  - rewrite andb_true_iff, IH. split.
    + intros [E ->]. apply Byte.byte_dec_bl in E. subst y. reflexivity.
    + intros Heq. inversion Heq; subst.
      split; [apply Byte.byte_dec_lb |]; reflexivity.
Qed.

Lemma equals_refl (a : bytes) : Buffer.equals a a = true.
Proof. apply equals_true_iff. reflexivity. Qed.

Lemma length_resize (n : nat) (chunk : bytes) :
  List.length (Buffer.resize n chunk) = n.
Proof.
  unfold Buffer.resize.
  rewrite length_firstn, length_app, repeat_length. lia.
Qed.

End BufferFacts.

(** ** EncryptionManager *)

Section EncryptionFacts.
Import EncryptionManager.

Lemma xorMaskFrom_involutive (maskKey key : bytes) (i : nat) :
  xorMaskFrom i (xorMaskFrom i key maskKey) maskKey = key.
Proof.
  revert i. induction key as [|k key IH]; intros i; simpl.
  - reflexivity.
  - rewrite byte_xor_involutive, IH. reflexivity.
Qed.

Lemma xorMask_involutive (key maskKey : bytes) :
  xorMask (xorMask key maskKey) maskKey = key.
Proof. apply xorMaskFrom_involutive. Qed.

Lemma length_xorMaskFrom (maskKey key : bytes) (i : nat) :
  List.length (xorMaskFrom i key maskKey) = List.length key.
Proof.
  revert i. induction key as [|k key IH]; intros i; simpl;
    [reflexivity | rewrite IH; reflexivity].
Qed.

Lemma ensureHexPrefix_toHex (b : bytes) :
  ensureHexPrefix (Bytes.toHex b) = Bytes.toHex b.
Proof. reflexivity. Qed.

Lemma normalizePublicKey_toHex (b : bytes) :
  normalizePublicKey (Bytes.toHex b) = Ok b.
Proof. unfold normalizePublicKey. apply fromHex_toHex. Qed.

(** The prefix is there after [ensureHexPrefix]: [normalizePublicKey]
    never throws. *)
Lemma normalizePublicKey_total (hex : string) :
  exists b, normalizePublicKey hex = Ok b.
Proof.
  unfold normalizePublicKey, ensureHexPrefix, Bytes.fromHex.
  destruct (Bytes.startsWith0x hex) eqn:E.
  - rewrite E. simpl. eauto.
  - simpl. eauto.
Qed.

Lemma with_timestamp_present (content : MailContent.t) (ts : Z) :
  MailContent.timestamp content = Some ts ->
  MailContent.with_timestamp content ts = content.
Proof. destruct content; simpl; intros ->; reflexivity. Qed.

Lemma utf8ToString_toUtf8Bytes (s : string) :
  Bytes.utf8ToString (Bytes.toUtf8Bytes s) = s.
Proof. apply string_of_list_byte_of_string. Qed.

End EncryptionFacts.

Section RoundTrip.
Context {C : CryptoLib} {L : CryptoLaws C} `{JsLib} `{Env}.
Import EncryptionManager.

(** [encrypt] does return a package when the tape holds the two draws
    for the symmetric key and the nonce, then a usable ephemeral key, and
    the library calls on them succeed. *)
Lemma encrypt_returns
    (self : EncryptionManager.t) (content : MailContent.t) (ts : Z)
    (publicKeyHex : string) (w : World)
    (draw1 draw2 : bytes) (draws rest : list bytes)
    (pk ephemeralPrivateKey ephemeralPublicKey secret maskKey macKey : bytes)
    (sealed : bytes * bytes) :
  MailContent.timestamp content = Some ts ->
  tape w = draw1 :: draw2 :: draws ->
  aes256gcmEncrypt (Buffer.resize 32 draw1) (Buffer.resize 12 draw2)
    (Bytes.toUtf8Bytes (JSON_stringify_content content)) = Ok sealed ->
  normalizePublicKey publicKeyHex = Ok pk ->
  firstUsableKey draws = Some (ephemeralPrivateKey, rest) ->
  getPublicKey ephemeralPrivateKey = Ok ephemeralPublicKey ->
  computeSharedSecret ephemeralPrivateKey pk = Ok secret ->
  Hkdf.deriveKey secret "basemailer-mask" 32 = Ok maskKey ->
  Hkdf.deriveKey secret "basemailer-mac" 32 = Ok macKey ->
  exists pkg w1, encrypt self content publicKeyHex w = (Ok pkg, w1).
Proof.
  intros Hts Htape Haes Hpub Hkey Heph Hsecret Hmask Hmac.
  unfold encrypt. rewrite Hts, bind_ret.
  rewrite (with_timestamp_present _ _ Hts).
  unfold bind at 1. unfold randomBytes at 1. rewrite Htape.
  unfold bind at 1. unfold randomBytes at 1. cbn [tape].
  unfold bind at 1. unfold call at 1. rewrite Haes.
  destruct sealed as [ciphertext authTag].
  unfold bind at 1. unfold lift at 1. rewrite Hpub.
  unfold bind at 1. unfold wrapSymmetricKey.
  unfold bind at 1. unfold generatePrivateKey at 1.
  cbn [tape log_event]. rewrite Hkey.
  unfold bind at 1. unfold lift at 1. rewrite Heph.
  unfold bind at 1. unfold lift at 1. rewrite Hsecret.
  unfold bind at 1. unfold lift at 1. rewrite Hmask.
  unfold bind at 1. unfold lift at 1. rewrite Hmac.
  unfold ret. eexists. eexists. reflexivity.
Qed.

(** C1.  For a mail content whose timestamp is present and a recipient
    key pair (priv, pub), whenever [encrypt content pub] produces a
    package, [decrypt package priv] returns the original content (from
    any state, by any engine instance). *)
Theorem decrypt_encrypt_roundtrip
    (sender receiver : EncryptionManager.t) (content : MailContent.t)
    (ts : Z) (privateKeyHex publicKeyHex : string)
    (w w1 w2 : World) (pkg : EncryptedMailPackage.t) :
  MailContent.timestamp content = Some ts ->
  json_faithful content ->
  recipient_keypair privateKeyHex publicKeyHex ->
  encrypt sender content publicKeyHex w = (Ok pkg, w1) ->
  fst (decrypt receiver pkg privateKeyHex w2) = Ok content.
Proof.
  intros Hts Hjson (sk & pk & Hsk & Hpk & Hpub) Henc.
  unfold encrypt in Henc. rewrite Hts in Henc.
  apply bind_Ok_inv in Henc as (ts' & w' & Hret & Henc).
  apply ret_Ok_inv in Hret as [<- ->].
  rewrite (with_timestamp_present _ _ Hts) in Henc.
  apply bind_Ok_inv in Henc as (symmetricKey & wk & _ & Henc).
  apply bind_Ok_inv in Henc as (iv & wi & _ & Henc).
  apply bind_Ok_inv in Henc as ([ciphertext authTag] & wc & Haes & Henc).
  apply call_Ok_inv in Haes as [Haes _].
  apply bind_Ok_inv in Henc as (pk' & wp & Hnorm & Henc).
  apply lift_Ok_inv in Hnorm as [Hnorm _].
  rewrite Hpub in Hnorm. injection Hnorm as <-.
  apply bind_Ok_inv in Henc as (wrapped & ww & Hwrap & Henc).
  apply ret_Ok_inv in Henc as [<- _].
  unfold wrapSymmetricKey in Hwrap.
  apply bind_Ok_inv in Hwrap as (ephemeralPrivateKey & we & _ & Hwrap).
  apply bind_Ok_inv in Hwrap as (ephemeralPublicKey & w3 & Heph & Hwrap).
  apply lift_Ok_inv in Heph as [Heph _].
  apply bind_Ok_inv in Hwrap as (sharedSecret & w4 & Hshared & Hwrap).
  apply lift_Ok_inv in Hshared as [Hshared _].
  apply bind_Ok_inv in Hwrap as (maskKey & w5 & Hmask & Hwrap).
  apply lift_Ok_inv in Hmask as [Hmask _].
  apply bind_Ok_inv in Hwrap as (macKey & w6 & Hmac & Hwrap).
  apply lift_Ok_inv in Hmac as [Hmac _].
  apply ret_Ok_inv in Hwrap as [<- _].
  assert (Hshared' : computeSharedSecret sk ephemeralPublicKey
                     = Ok sharedSecret).
  { unfold computeSharedSecret in *.
    rewrite (ecdh_agreement sk ephemeralPrivateKey pk ephemeralPublicKey
               Hpk Heph).
    exact Hshared. }
  unfold decrypt, unwrapSymmetricKey, bind, lift, call, emit, ret.
  cbn [EncryptedMailPackage.encryptedKey EncryptedMailPackage.encryptedContent
       EncryptedKeyPayload.ephemeralPublicKey EncryptedKeyPayload.ciphertext
       EncryptedKeyPayload.mac EncryptedContentPayload.iv
       EncryptedContentPayload.ciphertext EncryptedContentPayload.authTag
       EncryptionManager.ephemeralPublicKey EncryptionManager.encryptedKey
       EncryptionManager.mac].
  rewrite normalizePublicKey_toHex, Hsk, Hshared', Hmask, Hmac.
  rewrite !fromHex_toHex, equals_refl.
  cbn [negb fst snd].
  rewrite xorMask_involutive.
  rewrite (aes_gcm_correct _ _ _ _ _ Haes).
  cbn [fst].
  rewrite utf8ToString_toUtf8Bytes. exact Hjson.
Qed.

End RoundTrip.

(** The stand-in libraries obey the laws. *)
Section StandinFacts.

Lemma xorZip_comm (a b : bytes) : Standin.xorZip a b = Standin.xorZip b a.
Proof.
  unfold Standin.xorZip. revert b.
  induction a as [|x a IH]; intros [|y b]; simpl; try reflexivity.
  rewrite byte_xor_comm, IH. reflexivity.
Qed.

Lemma standin_getPublicKey_inv (sk pk : bytes) :
  Standin.getPublicKey sk = Ok pk ->
  (List.length sk =? 32)%nat = true /\ pk = x02 :: sk.
Proof.
  unfold Standin.getPublicKey.
  destruct (List.length sk =? 32)%nat; simpl; [| discriminate].
  destruct (negb (Buffer.everyZero sk)); [| discriminate].
  intros E. injection E as <-. split; reflexivity.
Qed.

Lemma standin_laws : CryptoLaws Standin.crypto.
Proof.
  split.
  - intros a b pa pb Ha Hb.
    apply standin_getPublicKey_inv in Ha as [La ->].
    apply standin_getPublicKey_inv in Hb as [Lb ->].
    cbn. unfold Standin.getSharedSecret.
    rewrite La, Lb, xorZip_comm. reflexivity.
  - intros key iv plaintext ciphertext authTag. cbn.
    unfold Standin.aes256gcmEncrypt, Standin.aes256gcmDecrypt.
    destruct (List.length key =? 32)%nat; simpl; [| discriminate].
    intros E. injection E as <- <-.
    rewrite (proj2 (equals_true_iff _ _) eq_refl). simpl.
    rewrite xorMask_involutive. reflexivity.
Qed.

End StandinFacts.

(** C1 at the key pair of the test suite: the stand-in run of [encrypt]
    returns a package and [decrypt] gives the mail back. *)
Lemma decrypt_encrypt_roundtrip_witness :
  exists (pkg : EncryptedMailPackage.t) (w1 : World),
    @EncryptionManager.encrypt Standin.crypto Standin.js
      Standin.withoutLogs
      (EncryptionManager.new None) Standin.mail Standin.recipientPublicKey
      Standin.world0 = (Ok pkg, w1)
    /\ fst (@EncryptionManager.decrypt Standin.crypto Standin.js
              (EncryptionManager.new None) pkg Standin.recipientPrivateKey w1)
       = Ok Standin.mail.
Proof.
  eexists. eexists. split.
  - vm_compute. reflexivity.
  - eapply (@decrypt_encrypt_roundtrip Standin.crypto standin_laws Standin.js
              Standin.withoutLogs
              (EncryptionManager.new None) (EncryptionManager.new None)
              Standin.mail 1700000000000%Z Standin.recipientPrivateKey
              Standin.recipientPublicKey Standin.world0).
    + reflexivity.
    + vm_compute. reflexivity.
    + exists Standin.recipientPrivateKeyBytes,
        (x02 :: Standin.recipientPrivateKeyBytes).
      vm_compute. repeat split.
    + vm_compute. reflexivity.
Defined.

(** ** Traces of runs *)

Section TraceFacts.

Lemma newEvents_app (w w' : World) (evs : list Event) :
  trace w' = trace w ++ evs -> newEvents w w' = evs.
Proof.
  unfold newEvents. intros ->.
  rewrite skipn_app, skipn_all, Nat.sub_diag. reflexivity.
Qed.

Lemma newEvents_same (w : World) : newEvents w w = [].
Proof. apply newEvents_app. rewrite app_nil_r. reflexivity. Qed.

Lemma newEvents_log1 (w : World) (e1 : Event) :
  newEvents w (log_event e1 w) = [e1].
Proof. apply newEvents_app. reflexivity. Qed.

Lemma newEvents_log2 (w : World) (e1 e2 : Event) :
  newEvents w (log_event e2 (log_event e1 w)) = [e1; e2].
Proof. apply newEvents_app. simpl. rewrite <- app_assoc. reflexivity. Qed.

End TraceFacts.

(** ** The wrap-MAC check of [decrypt] *)

Section MacCheck.
Context `{CryptoLib} `{JsLib}.
Import EncryptionManager.


End MacCheck.


(** ** The version field *)

Section Version.
Context `{CryptoLib} `{JsLib}.
Import EncryptionManager.

(** C3, as the code has it.  [decrypt] reads neither the package's
    [version] nor its [metadata], and not the engine's own version: two
    packages with the same [encryptedContent] and [encryptedKey] decrypt
    alike, whatever versions they and the engines carry. *)
Theorem decrypt_ignores_version
    (self self' : EncryptionManager.t) (pkg : EncryptedMailPackage.t)
    (v : string) (md : MailMetadata.t) (privateKeyHex : string) (w : World) :
  decrypt self'
    (EncryptedMailPackage.mk v (EncryptedMailPackage.encryptedContent pkg)
       (EncryptedMailPackage.encryptedKey pkg) md)
    privateKeyHex w
  = decrypt self pkg privateKeyHex w.
Proof. destruct pkg. reflexivity. Qed.

End Version.

(** A package labelled with version 9.9, which the 1.0 engine does not
    know, is decrypted to the mail all the same. *)
Lemma decrypt_unrecognised_version_counterexample :
  let engine := EncryptionManager.new None in
  let pkg := Standin.withVersion "9.9" Standin.package in
  EncryptionManager.version engine = "1.0"
  /\ EncryptedMailPackage.version pkg = "9.9"
  /\ fst (@EncryptionManager.decrypt Standin.crypto Standin.js engine pkg
            Standin.recipientPrivateKey Standin.world0)
     = Ok Standin.mail.
Proof. vm_compute. repeat split. Qed.

(** ** Insertion-ordered maps *)

Section MapFacts.
Context {V : Type}.

Lemma map_set_idempotent (k : string) (v : V) (m : Js.Map V) :
  Js.map_set k v (Js.map_set k v m) = Js.map_set k v m.
Proof.
  induction m as [|[k' v'] m IH]; simpl.
  - rewrite String.eqb_refl. reflexivity.
  - destruct (k =? k') eqn:E; simpl.
    + rewrite String.eqb_refl. reflexivity.
    + rewrite E, IH. reflexivity.
Qed.

Lemma map_get_set_same (k : string) (v : V) (m : Js.Map V) :
  Js.map_get k (Js.map_set k v m) = Some v.
Proof.
  induction m as [|[k' v'] m IH]; simpl.
  - rewrite String.eqb_refl. reflexivity.
  - destruct (k =? k') eqn:E; simpl.
    + rewrite String.eqb_refl. reflexivity.
    + rewrite E. exact IH.
Qed.

Lemma in_keys_map_set (k k0 : string) (v : V) (m : Js.Map V) :
  In k0 (Js.map_keys (Js.map_set k v m)) <-> k0 = k \/ In k0 (Js.map_keys m).
Proof.
  induction m as [|[k' v'] m IH]; simpl.
  - intuition congruence.
  - destruct (k =? k') eqn:E; simpl.
    + apply String.eqb_eq in E. subst k'. intuition congruence.
    + rewrite IH. intuition congruence.
Qed.

(** Keys stay distinct, as in a [Map]. *)
Lemma map_set_NoDup (k : string) (v : V) (m : Js.Map V) :
  NoDup (Js.map_keys m) -> NoDup (Js.map_keys (Js.map_set k v m)).
Proof.
  induction m as [|[k' v'] m IH]; simpl; intros ND.
  - constructor; [intros [] | constructor].
  - inversion ND as [|? ? Hnotin ND']; subst.
    destruct (k =? k') eqn:E; simpl.
    + apply String.eqb_eq in E. subst k'. constructor; assumption.
    + constructor; [| apply IH; exact ND'].
      rewrite in_keys_map_set. intros [-> | Hin].
      * rewrite String.eqb_refl in E. discriminate.
      * contradiction.
Qed.

Lemma entriesUnder_absent (k : string) (m : Js.Map V) :
  ~ In k (Js.map_keys m) -> entriesUnder k m = 0.
Proof.
  unfold entriesUnder.
  induction m as [|[k' v'] m IH]; simpl; intros Hnotin.
  - reflexivity.
  - destruct (k' =? k) eqn:E.
    + apply String.eqb_eq in E. subst k'. exfalso. apply Hnotin. left.
      reflexivity.
    + apply IH. intros Hin. apply Hnotin. right. exact Hin.
Qed.

Lemma entriesUnder_map_set (k : string) (v : V) (m : Js.Map V) :
  NoDup (Js.map_keys m) -> entriesUnder k (Js.map_set k v m) = 1.
Proof.
  induction m as [|[k' v'] m IH]; simpl; intros ND.
  - unfold entriesUnder. simpl. rewrite String.eqb_refl. reflexivity.
  - inversion ND as [|? ? Hnotin ND']; subst.
    destruct (k =? k') eqn:E.
    + apply String.eqb_eq in E. subst k'.
      pose proof (entriesUnder_absent k m Hnotin) as H0.
      unfold entriesUnder in *. simpl. rewrite String.eqb_refl. simpl.
      rewrite H0. reflexivity.
    + specialize (IH ND'). unfold entriesUnder in *. simpl.
      rewrite String.eqb_sym, E. exact IH.
Qed.

End MapFacts.

(** ** Ingestion *)

Section Ingestion.
Context `{JsLib} `{EthersLib} `{Env}.
Import EmailService.

Lemma persistEvent_run (mailId contentCID : option string)
    (senderEmail recipientEmail : string) (timestamp : Z)
    (blockNumber : option Z) (txHash : option string) (w : World) :
  Js.truthy mailId = true -> Js.truthy contentCID = true ->
  let stored := Js.map_get (orEmpty contentCID) (cidStore w) in
  let record :=
    StoredMail.mk (orEmpty mailId)
      (match stored with Some c => c | None => orEmpty contentCID end)
      (orEmpty contentCID) senderEmail recipientEmail timestamp blockNumber
      txHash in
  persistEvent mailId contentCID senderEmail recipientEmail timestamp
    blockNumber txHash w
  = (Ok tt,
     mkWorld
       (trace w ++ [EvCidStoreGet (orEmpty contentCID) stored;
                    EvMailStoreSave record])
       (tape w) (cidStore w)
       (Js.map_set (orEmpty mailId) record (mails w)) (verificationKey w)).
Proof.
  intros Hid Hcid. cbv zeta. unfold persistEvent. rewrite Hid, Hcid.
  cbn [negb orb]. unfold bind, InMemoryCidStore.get, InMemoryMailStore.save.
  cbn. rewrite <- app_assoc. reflexivity.
Qed.

Lemma persistEvent_skip (mailId contentCID : option string)
    (senderEmail recipientEmail : string) (timestamp : Z)
    (blockNumber : option Z) (txHash : option string) (w : World) :
  Js.truthy mailId = false \/ Js.truthy contentCID = false ->
  persistEvent mailId contentCID senderEmail recipientEmail timestamp
    blockNumber txHash w = (Ok tt, w).
Proof.
  intros [Hmissing | Hmissing]; unfold persistEvent; rewrite Hmissing.
  - reflexivity.
  - rewrite orb_true_r. reflexivity.
Qed.

(** C9.  An event that lacks its mail id or its commitment ([undefined]
    or the empty string) is dropped by [persistEvent]: the call returns
    and leaves the whole state as it was, index and trace included.  The
    same holds one level up, for an event as the catch-up loop or the
    live listener receives it: with no commitment, or with no mail id
    (where [toString] throws first), the index is not written. *)
Theorem persistEvent_drops_incomplete_event
    (mailId contentCID : option string) (senderEmail recipientEmail : string)
    (timestamp : Z) (blockNumber : option Z) (txHash : option string)
    (args : MailSentArgs.t) (w : World) :
  (Js.truthy mailId = false \/ Js.truthy contentCID = false ->
   persistEvent mailId contentCID senderEmail recipientEmail timestamp
     blockNumber txHash w = (Ok tt, w))
  /\ (MailSentArgs.mailId args = None
      \/ Js.truthy (MailSentArgs.contentCID args) = false ->
      let viaCatchUp :=
        snd (replayEvent (EventLog.mk (Some args) blockNumber txHash) w) in
      let viaListener := snd (onMailSent args blockNumber txHash w) in
      mails viaCatchUp = mails w /\ mails viaListener = mails w
      /\ filter (fun ev => match ev with EvMailStoreSave _ => true
                                    | _ => false end)
                (newEvents w viaCatchUp ++ newEvents w viaListener) = []).
Proof.
  split.
  - apply persistEvent_skip.
  - intros Hmissing. cbv zeta.
    unfold replayEvent, onMailSent. cbn [EventLog.args EventLog.blockNumber
      EventLog.transactionHash].
    destruct (MailSentArgs.mailId args) as [id |]; cbn [mailIdToString].
    + destruct Hmissing as [Hmissing | Hmissing]; [discriminate |].
      unfold bind, ret, persistEvent. rewrite Hmissing, orb_true_r.
      cbn [snd]. rewrite newEvents_same. repeat split; reflexivity.
    + unfold bind, throw. cbn [snd]. rewrite newEvents_same.
      repeat split; reflexivity.
Qed.

(** C8.  Applying the upsert of one ledger event twice in a row leaves
    the index (and the commitment map) as one application does, whether
    the event comes twice through [persistEvent] or once through the
    catch-up loop and once through the live listener.  When the index has
    one entry per key and a complete event is followed by a second
    delivery under the same mail id, even one whose other fields differ,
    exactly one entry sits under that mail id afterwards. *)
Theorem persistEvent_idempotent
    (mailId contentCID : option string) (senderEmail recipientEmail : string)
    (timestamp : Z) (blockNumber : option Z) (txHash : option string)
    (args : MailSentArgs.t) (w : World) :
  let upsert :=
    persistEvent mailId contentCID senderEmail recipientEmail timestamp
      blockNumber txHash in
  let once := snd (upsert w) in
  let twice := snd (upsert once) in
  let caughtUp :=
    snd (replayEvent (EventLog.mk (Some args) blockNumber txHash) w) in
  let thenLive := snd (onMailSent args blockNumber txHash caughtUp) in
  (mails twice = mails once /\ cidStore twice = cidStore once)
  /\ (mails thenLive = mails caughtUp /\ cidStore thenLive = cidStore caughtUp)
  /\ (Js.truthy mailId = true -> Js.truthy contentCID = true ->
      NoDup (Js.map_keys (mails w)) ->
      forall (contentCID' : option string) (senderEmail' recipientEmail' : string)
             (timestamp' : Z) (blockNumber' : option Z) (txHash' : option string),
        let again :=
          snd (persistEvent mailId contentCID' senderEmail' recipientEmail'
                 timestamp' blockNumber' txHash' once) in
        entriesUnder (orEmpty mailId) (mails again) = 1
        /\ NoDup (Js.map_keys (mails again))).
Proof.
  cbv zeta.
  assert (Hidem' : forall (mid cc : option string) (se re : string) (ts : Z)
                          (w0 : World),
    let up := persistEvent mid cc se re ts blockNumber txHash in
    mails (snd (up (snd (up w0)))) = mails (snd (up w0))
    /\ cidStore (snd (up (snd (up w0)))) = cidStore (snd (up w0))).
  { intros mid cc se re ts w0. cbv zeta.
    destruct (Js.truthy mid) eqn:Hid; [destruct (Js.truthy cc) eqn:Hcid |].
    - rewrite (persistEvent_run mid cc se re ts _ _ w0 Hid Hcid). cbn [snd].
      rewrite (persistEvent_run mid cc _ _ _ _ _ _ Hid Hcid).
      cbn [snd mails cidStore]. rewrite map_set_idempotent.
      split; reflexivity.
    - rewrite (persistEvent_skip mid cc se re ts _ _ w0 (or_intror Hcid)).
      cbn [snd].
      rewrite (persistEvent_skip mid cc se re ts _ _ w0 (or_intror Hcid)).
      split; reflexivity.
    - rewrite (persistEvent_skip mid cc se re ts _ _ w0 (or_introl Hid)).
      cbn [snd].
      rewrite (persistEvent_skip mid cc se re ts _ _ w0 (or_introl Hid)).
      split; reflexivity. }
  split; [apply Hidem' | split].
  - unfold replayEvent, onMailSent. cbn [EventLog.args EventLog.blockNumber
      EventLog.transactionHash].
    destruct (MailSentArgs.mailId args) as [id |]; cbn [mailIdToString].
    + rewrite !bind_ret. apply Hidem'.
    + unfold bind, throw. cbn [snd]. split; reflexivity.
  - intros Hid Hcid ND contentCID' senderEmail' recipientEmail' timestamp'
      blockNumber' txHash'.
    rewrite (persistEvent_run mailId contentCID _ _ _ _ _ w Hid Hcid).
    cbn [snd].
    assert (ND1 : NoDup (Js.map_keys
              (Js.map_set (orEmpty mailId)
                 (StoredMail.mk (orEmpty mailId)
                    match Js.map_get (orEmpty contentCID) (cidStore w) with
                    | Some c => c
                    | None => orEmpty contentCID
                    end (orEmpty contentCID) senderEmail recipientEmail
                    timestamp blockNumber txHash) (mails w))))
      by (apply map_set_NoDup; exact ND).
    destruct (Js.truthy contentCID') eqn:Hcid'.
    + rewrite (persistEvent_run mailId contentCID' _ _ _ _ _ _ Hid Hcid').
      cbn [snd mails cidStore]. split.
      * apply entriesUnder_map_set. exact ND1.
      * apply map_set_NoDup. exact ND1.
    + rewrite (persistEvent_skip mailId contentCID' _ _ _ _ _ _
                 (or_intror Hcid')).
      cbn [snd mails]. split.
      * apply entriesUnder_map_set. exact ND.
      * exact ND1.
Qed.

End Ingestion.

(** C9 on an event without commitment and on one without mail id. *)
Lemma persistEvent_drops_incomplete_event_witness :
  EmailService.persistEvent (Some "42") None "alice" "bob" 1700000000000
    (Some 7%Z) (Some "0xfeed") Standin.world0 = (Ok tt, Standin.world0)
  /\ mails
       (snd (EmailService.replayEvent
               (EventLog.mk
                  (Some (MailSentArgs.mk None (Some "0xc0ffee") "alice" "bob"
                           1700000000000))
                  (Some 7%Z) (Some "0xfeed"))
               Standin.world0))
     = mails Standin.world0.
Proof.
  pose proof
    (persistEvent_drops_incomplete_event (Some "42") None "alice" "bob"
       1700000000000 (Some 7%Z) (Some "0xfeed")
       (MailSentArgs.mk None (Some "0xc0ffee") "alice" "bob" 1700000000000)
       Standin.world0) as [Hdrop Hlevel].
  split.
  - apply Hdrop. right. reflexivity.
  - apply Hlevel. left. reflexivity.
Defined.

(** C8 on mail 42 arriving twice in an empty index, the second time with
    another block number. *)
Lemma persistEvent_idempotent_witness :
  let upsert :=
    EmailService.persistEvent (Some "42") (Some "0xc0ffee") "alice" "bob"
      1700000000000 (Some 7%Z) (Some "0xfeed") in
  let live :=
    EmailService.persistEvent (Some "42") (Some "0xc0ffee") "alice" "bob"
      1700000000000 None None in
  mails (snd (upsert (snd (upsert Standin.world0))))
  = mails (snd (upsert Standin.world0))
  /\ entriesUnder "42" (mails (snd (live (snd (upsert Standin.world0))))) = 1.
Proof.
  cbv zeta.
  pose proof
    (persistEvent_idempotent (Some "42") (Some "0xc0ffee") "alice" "bob"
       1700000000000 (Some 7%Z) (Some "0xfeed")
       (MailSentArgs.mk (Some 42%Z) (Some "0xc0ffee") "alice" "bob"
          1700000000000)
       Standin.world0) as [[Hsame _] [_ Hone]].
  cbv zeta in Hsame, Hone. split.
  - exact Hsame.
  - apply Hone; [reflexivity | reflexivity | constructor].
Defined.

(** ** Rules for [emits] *)

Section EmitsRules.
Context `{Env}.
Variable local : exn -> Prop.
Variable p : Event -> bool.

Lemma origin_app_l (e : exn) (evs1 evs2 : list Event) :
  origin local e evs1 -> origin local e (evs1 ++ evs2).
Proof.
  intros [Hl | (ev & Hin & Hev)]; [left; exact Hl |].
  right. exists ev. split; [apply in_or_app; left; exact Hin | exact Hev].
Qed.

Lemma origin_app_r (e : exn) (evs1 evs2 : list Event) :
  origin local e evs2 -> origin local e (evs1 ++ evs2).
Proof.
  intros [Hl | (ev & Hin & Hev)]; [left; exact Hl |].
  right. exists ev. split; [apply in_or_app; right; exact Hin | exact Hev].
Qed.

Lemma emits_ret {A} (a : A) : emits local p (ret a).
Proof.
  intros w. exists []. cbn. rewrite app_nil_r.
  split; [reflexivity | split; [reflexivity | discriminate]].
Qed.

Lemma emits_bind {A B} (m : M A) (k : A -> M B) :
  emits local p m -> (forall a, emits local p (k a)) -> emits local p (bind m k).
Proof.
  intros Hm Hk w. destruct (Hm w) as (evs1 & Ht1 & Hp1 & Ho1).
  unfold bind. destruct (m w) as [[a | e |] w1] eqn:Em; cbn [fst snd] in *.
  - destruct (Hk a w1) as (evs2 & Ht2 & Hp2 & Ho2).
    exists (evs1 ++ evs2). split; [| split].
    + rewrite Ht2, Ht1, app_assoc. reflexivity.
    + rewrite forallb_app, Hp1, Hp2. reflexivity.
    + intros e He. apply origin_app_r. apply Ho2. exact He.
  - exists evs1. cbn [fst snd].
    split; [exact Ht1 | split; [exact Hp1 |]].
    intros e' He'. injection He' as <-. apply Ho1. reflexivity.
  - exists evs1. cbn [fst snd]. split; [exact Ht1 | split; [exact Hp1 |]].
    discriminate.
Qed.

Lemma emits_lift {A} (o : outcome A) :
  (forall e, o = Throw e -> local e) -> emits local p (lift o).
Proof.
  intros Hraise w. exists []. cbn. rewrite app_nil_r.
  split; [reflexivity | split; [reflexivity |]].
  intros e He. left. apply Hraise. exact He.
Qed.

Lemma emits_throw {A} (e : exn) : local e -> emits local p (@throw A e).
Proof.
  intros Hraise w. exists []. cbn. rewrite app_nil_r.
  split; [reflexivity | split; [reflexivity |]].
  intros e' He'. injection He' as <-. left. exact Hraise.
Qed.

Lemma emits_call {A} (oracle : list Event -> outcome A)
    (record : outcome A -> Event) :
  (forall r, p (record r) = true) ->
  (forall e, thrownBy (record (Throw e)) = Some e) ->
  emits local p (call oracle record).
Proof.
  intros Hp Hthrown w. exists [record (oracle (trace w))]. cbn.
  split; [reflexivity | split; [rewrite Hp; reflexivity |]].
  intros e He. right. exists (record (oracle (trace w))).
  split; [left; reflexivity | rewrite He; apply Hthrown].
Qed.

Lemma emits_emit (ev : Event) : p ev = true -> emits local p (emit ev).
Proof.
  intros Hp w. exists [ev]. cbn.
  split; [reflexivity | split; [rewrite Hp; reflexivity | discriminate]].
Qed.

Lemma emits_now : (forall t, p (EvDateNow t) = true) -> emits local p now.
Proof.
  intros Hp w. exists [EvDateNow (Date_now (trace w))]. cbn.
  split; [reflexivity | split; [rewrite Hp; reflexivity | discriminate]].
Qed.

Lemma emits_randomBytes (n : nat) : emits local p (randomBytes n).
Proof.
  intros w. exists []. unfold randomBytes.
  destruct (tape w); cbn; rewrite app_nil_r;
    (split; [reflexivity | split; [reflexivity | discriminate]]).
Qed.

Lemma emits_generatePrivateKey : emits local p EncryptionManager.generatePrivateKey.
Proof.
  intros w. exists []. unfold EncryptionManager.generatePrivateKey.
  destruct (EncryptionManager.firstUsableKey (tape w)) as [[key rest] |];
    cbn; rewrite app_nil_r;
    (split; [reflexivity | split; [reflexivity | discriminate]]).
Qed.

Lemma emits_cidStore_set (key cid : string) :
  p (EvCidStoreSet key cid) = true -> emits local p (InMemoryCidStore.set key cid).
Proof.
  intros Hp w. exists [EvCidStoreSet key cid]. cbn.
  split; [reflexivity | split; [rewrite Hp; reflexivity | discriminate]].
Qed.

Lemma emits_if {A} (b : bool) (m1 m2 : M A) :
  emits local p m1 -> emits local p m2 -> emits local p (if b then m1 else m2).
Proof. destruct b; auto. Qed.

End EmitsRules.

(** Splits an [emits] goal along the steps of the computation; what is
    left are the calls to procedures and to libraries. *)
Ltac emits_steps :=
  repeat
    lazymatch goal with
    | |- emits _ _ (ret _) => apply emits_ret
    | |- emits _ _ (bind _ _) => apply emits_bind; [| intros ?]
    | |- emits _ _ now => apply emits_now; intros; reflexivity
    | |- emits _ _ (randomBytes _) => apply emits_randomBytes
    | |- emits _ _ EncryptionManager.generatePrivateKey =>
        apply emits_generatePrivateKey
    | |- emits _ _ (call _ _) =>
        apply emits_call; [intros; reflexivity | intros; reflexivity]
    | |- emits _ _ (InMemoryCidStore.set _ _) =>
        apply emits_cidStore_set; reflexivity
    | |- emits _ _ (emit _) => apply emits_emit; reflexivity
    | |- emits _ _ (throw _) => apply emits_throw; solve [constructor]
    | |- emits _ _ (match ?x with _ => _ end) => destruct x
    end.

Section ClientEffects.
Context `{CryptoLib} `{JsLib} `{EthersLib} `{Env}.

Lemma emits_weaken (local : exn -> Prop) (p q : Event -> bool) {A} (m : M A) :
  (forall ev, p ev = true -> q ev = true) -> emits local p m -> emits local q m.
Proof.
  intros Hpq Hm w. destruct (Hm w) as (evs & Ht & Hp & Ho).
  exists evs. split; [exact Ht | split; [| exact Ho]].
  rewrite forallb_forall in *. intros ev Hin. apply Hpq, Hp, Hin.
Qed.

Lemma computeSharedSecret_throws (sk pk : bytes) (e : exn) :
  EncryptionManager.computeSharedSecret sk pk = Throw e -> raisedLocally e.
Proof.
  unfold EncryptionManager.computeSharedSecret.
  destruct (getSharedSecret sk pk) eqn:E; try discriminate.
  intros He. injection He as <-. eapply raised_getSharedSecret. exact E.
Qed.

Lemma normalizePublicKey_never_throws (hex : string) (e : exn) :
  EncryptionManager.normalizePublicKey hex <> Throw e.
Proof.
  destruct (normalizePublicKey_total hex) as [b ->]. discriminate.
Qed.

Lemma scanLogs_throws (logs : list Log.t) (e : exn) :
  BaseMailerClient.scanLogs logs = Throw e -> raisedLocally e.
Proof.
  induction logs as [|log rest IH]; simpl; [discriminate |].
  destruct (Log.topics log) as [[|topic0 ?] |]; try exact IH.
  destruct (topic0 =? MailerInterface.topicHash); [| exact IH].
  destruct (parseLog log) as [[parsed |] | e' |] eqn:E; try discriminate.
  intros He. injection He as <-. eapply raised_parseLog. exact E.
Qed.

Lemma extractMailIdFromReceipt_throws (logs : option (list Log.t)) (e : exn) :
  BaseMailerClient.extractMailIdFromReceipt logs = Throw e -> raisedLocally e.
Proof.
  unfold BaseMailerClient.extractMailIdFromReceipt.
  destruct logs as [logs |]; [| discriminate].
  destruct (negb _); [discriminate | apply scanLogs_throws].
Qed.

Lemma wrapSymmetricKey_quiet (key recipientPublicKey : bytes) :
  emits raisedLocally quiet (EncryptionManager.wrapSymmetricKey key recipientPublicKey).
Proof.
  unfold EncryptionManager.wrapSymmetricKey. emits_steps.
  - apply emits_lift. intros e He. eapply raised_getPublicKey. exact He.
  - apply emits_lift. apply computeSharedSecret_throws.
  - apply emits_lift. intros e He. eapply raised_hkdfSync. exact He.
  - apply emits_lift. intros e He. eapply raised_hkdfSync. exact He.
Qed.

Lemma encrypt_quiet (self : EncryptionManager.t) (content : MailContent.t)
    (recipientPublicKeyHex : string) :
  emits raisedLocally quiet (EncryptionManager.encrypt self content recipientPublicKeyHex).
Proof.
  unfold EncryptionManager.encrypt. emits_steps.
  - apply emits_lift. intros e He.
    exfalso. exact (normalizePublicKey_never_throws _ _ He).
  - apply wrapSymmetricKey_quiet.
Qed.

Lemma resolveRecipient_quiet (email : string) :
  emits raisedLocally quiet (BaseMailerClient.resolveRecipient email).
Proof.
  unfold BaseMailerClient.resolveRecipient, BaseMailerClient.resolveOwner.
  emits_steps.
Qed.

Lemma upload_quiet (self : IPFSClient.t) (pkg : EncryptedMailPackage.t) :
  emits raisedLocally quiet (IPFSClient.upload self pkg).
Proof. unfold IPFSClient.upload. emits_steps. Qed.

Lemma generateProof_quiet (inputs : ProofInputs.t) :
  emits raisedLocally quiet (ProofGenerator.generateProof inputs).
Proof.
  unfold ProofGenerator.generateProof, ProofGenerator.packProof. emits_steps.
  apply emits_lift. intros e He. eapply raised_abiEncodeProof. exact He.
Qed.

(** Every event of a dispatch is appended to the trace, and every
    exception of a dispatch has its origin. *)
Lemma sendMail_emits (self : BaseMailerClient.t) (params : SendMailParams.t) :
  emits raisedLocally anyEvent (BaseMailerClient.sendMail self params).
Proof.
  assert (Hany : forall ev, quiet ev = true -> anyEvent ev = true)
    by reflexivity.
  unfold BaseMailerClient.sendMail.
  destruct (negb _); [apply emits_throw; constructor |].
  apply emits_bind; [apply (emits_weaken _ _ _ _ Hany), resolveRecipient_quiet |].
  intros recipient. apply emits_bind; [emits_steps |]. intros timestamp.
  apply emits_bind; [apply (emits_weaken _ _ _ _ Hany), encrypt_quiet |].
  intros encrypted.
  apply emits_bind; [apply (emits_weaken _ _ _ _ Hany), upload_quiet |].
  intros cid. apply emits_bind; [emits_steps |]. intros _.
  apply emits_bind; [apply (emits_weaken _ _ _ _ Hany), generateProof_quiet |].
  intros proof. apply emits_bind; [emits_steps |]. intros tx.
  apply emits_bind; [emits_steps |]. intros receipt.
  apply emits_bind; [| intros; apply emits_ret].
  apply emits_lift. apply extractMailIdFromReceipt_throws.
Qed.

End ClientEffects.

(** ** The commitment is remembered before the submission *)

Section CommitRules.
Context `{Env}.








End CommitRules.

Section ServiceEffects.
Context `{JsLib} `{EthersLib} `{Env}.
Variable p : Event -> bool.

Lemma emits_get_verificationKey :
  emits anyError p EmailService.get_verificationKey.
Proof.
  intros w. exists []. cbn. rewrite app_nil_r.
  split; [reflexivity | split; [reflexivity | discriminate]].
Qed.

Lemma emits_mailStore_save (mail : StoredMail.t) :
  p (EvMailStoreSave mail) = true ->
  emits anyError p (InMemoryMailStore.save mail).
Proof.
  intros Hp w. exists [EvMailStoreSave mail]. cbn.
  split; [reflexivity | split; [rewrite Hp; reflexivity | discriminate]].
Qed.

Lemma emits_pin (self : IPFSClient.t) (cid : string) :
  (forall r, p (EvIpfsPinAdd cid r) = true) ->
  emits anyError p (IPFSClient.pin self cid).
Proof.
  intros Hp. unfold IPFSClient.pin. destruct (negb _).
  - apply emits_ret.
  - apply emits_call; [exact Hp | reflexivity].
Qed.

Lemma emits_verifyProof (encodedProof senderAddress senderEmail
    contentCID : string) :
  (forall key signals proof r, p (EvGroth16Verify key signals proof r) = true) ->
  emits anyError p
    (EmailService.verifyProof encodedProof senderAddress senderEmail contentCID).
Proof.
  intros Hp. unfold EmailService.verifyProof.
  apply emits_bind; [apply emits_get_verificationKey |]. intros key.
  destruct (negb _); [apply emits_ret |].
  repeat (apply emits_bind; [apply emits_lift; intros; exact I | intros ?]).
  apply emits_call; [intros; apply Hp | reflexivity].
Qed.

End ServiceEffects.

Section CommitBeforeSubmit.
Context `{CryptoLib} `{JsLib} `{EthersLib} `{Env}.





End CommitBeforeSubmit.

(** ** What a dispatch returns *)

Section SendOutcome.
Context `{CryptoLib} `{JsLib} `{EthersLib} `{Env}.

Lemma emits_run (local : exn -> Prop) (p : Event -> bool) {A} (m : M A)
    (w w' : World) (r : outcome A) :
  emits local p m -> m w = (r, w') -> exists evs, trace w' = trace w ++ evs.
Proof.
  intros Hm E. destruct (Hm w) as (evs & Ht & _). rewrite E in Ht.
  exists evs. exact Ht.
Qed.

(** The id [scanLogs] finds is the [mailId] argument decoded from a log of
    the receipt whose first topic is the [MailSent] topic. *)
Lemma scanLogs_found (logs : list Log.t) (id : string) :
  BaseMailerClient.scanLogs logs = Ok (Some id) ->
  exists (log : Log.t) (otherTopics : list string) (mailId : Z),
    In log logs
    /\ Log.topics log = Some (MailerInterface.topicHash :: otherTopics)
    /\ parseLog log = Ok (Some (LogDescription.mk (Some mailId)))
    /\ id = Js.toString mailId.
Proof.
  induction logs as [|log rest IH]; simpl; [discriminate |].
  assert (Hrest : BaseMailerClient.scanLogs rest = Ok (Some id) ->
                  exists (log0 : Log.t) (otherTopics : list string) (mailId : Z),
                    In log0 (log :: rest)
                    /\ Log.topics log0
                       = Some (MailerInterface.topicHash :: otherTopics)
                    /\ parseLog log0 = Ok (Some (LogDescription.mk (Some mailId)))
                    /\ id = Js.toString mailId).
  { intros Hscan. destruct (IH Hscan) as (log0 & ts & z & Hin & Hrest).
    exists log0, ts, z. split; [right; exact Hin | exact Hrest]. }
  destruct (Log.topics log) as [[|topic0 others] |] eqn:Etopics;
    try exact Hrest.
  destruct (topic0 =? MailerInterface.topicHash) eqn:Etopic; [| exact Hrest].
  apply String.eqb_eq in Etopic. subst topic0.
  destruct (parseLog log) as [[[[mailId |]] |] | e |] eqn:Eparse;
    try discriminate.
  simpl. intros Hid. injection Hid as <-.
  exists log, others, mailId.
  split; [left; reflexivity | repeat split; assumption].
Qed.

(** Without a log carrying the [MailSent] topic, no id is found. *)
Lemma scanLogs_none (logs : list Log.t) :
  (forall log otherTopics,
      In log logs ->
      Log.topics log <> Some (MailerInterface.topicHash :: otherTopics)) ->
  BaseMailerClient.scanLogs logs = Ok None.
Proof.
  induction logs as [|log rest IH]; simpl; intros Hnone; [reflexivity |].
  assert (Hrest : BaseMailerClient.scanLogs rest = Ok None).
  { apply IH. intros log0 ts Hin. apply Hnone. right. exact Hin. }
  destruct (Log.topics log) as [[|topic0 others] |] eqn:Etopics;
    try exact Hrest.
  destruct (topic0 =? MailerInterface.topicHash) eqn:Etopic; [| exact Hrest].
  apply String.eqb_eq in Etopic. subst topic0.
  exfalso. apply (Hnone log others); [left; reflexivity | exact Etopics].
Qed.

Lemma try_catch_Ok_inv {A} (m : M A) (h : exn -> M A) w a w' :
  try_catch m h w = (Ok a, w') ->
  m w = (Ok a, w') \/ exists e w1, m w = (Throw e, w1) /\ h e w1 = (Ok a, w').
Proof.
  unfold try_catch. destruct (m w) as [[a0 | e |] w1]; intros E.
  - left. exact E.
  - right. exists e, w1. split; [reflexivity | exact E].
  - discriminate.
Qed.

(** A 200 answer of [POST /api/send-mail] carries the hash of the
    transaction the handler submitted and the id extracted from its
    receipt, or "0" when none was. *)
Lemma postSendMail_success (self : EmailService.t)
    (body : EmailService.SendMailBody) (w : World)
    (success : bool) (mailId txHash : string) (timestamp : Z) :
  fst (EmailService.postSendMail self body w)
    = Ok (EmailService.mkResponse 200
            (EmailService.SentBody success mailId txHash timestamp)) ->
  exists tx receipt extracted,
    In (EvMailerSendMail
          (EmailService.orEmpty (EmailService.proof body))
          (BytesUtil.cidToBytes32
             (EmailService.orEmpty (EmailService.cid body)))
          (EmailService.orEmpty (EmailService.senderEmail body))
          (EmailService.orEmpty (EmailService.recipientEmail body))
          (Ok tx))
       (newEvents w (snd (EmailService.postSendMail self body w)))
    /\ In (EvTxWait tx (Ok receipt))
          (newEvents w (snd (EmailService.postSendMail self body w)))
    /\ txHash = TransactionResponse.hash tx
    /\ EmailService.extractMailId (BaseMailerClient.receiptLogs receipt)
       = Ok extracted
    /\ mailId = match extracted with Some id => id | None => "0" end.
Proof.
  intros Hok.
  destruct (EmailService.postSendMail self body w) as [r w'] eqn:Hrun.
  cbn [fst snd] in *. subst r.
  unfold EmailService.postSendMail in Hrun.
  apply try_catch_Ok_inv in Hrun as [Hrun | (e & w1 & _ & Hcatch)];
    [| apply ret_Ok_inv in Hcatch as [Hcatch _]; discriminate].
  destruct (_ || _);
    [apply ret_Ok_inv in Hrun as [Hrun _]; discriminate |].
  cbv zeta in Hrun.
  apply bind_Ok_inv in Hrun as (owner & w1 & Hlookup & Hrun).
  destruct (owner =? _);
    [apply ret_Ok_inv in Hrun as [Hrun _]; discriminate |].
  apply bind_Ok_inv in Hrun as ([] & w2 & Hset & Hrun).
  apply bind_Ok_inv in Hrun as (key & w3 & Hkey & Hrun).
  apply bind_Ok_inv in Hrun as (isValid & w4 & Hverify & Hrun).
  destruct (negb isValid);
    [apply ret_Ok_inv in Hrun as [Hrun _]; discriminate |].
  apply bind_Ok_inv in Hrun as ([] & w5 & Hpin & Hrun).
  apply bind_Ok_inv in Hrun as (tx & w6 & Hsubmit & Hrun).
  apply bind_Ok_inv in Hrun as (receipt & w7 & Hwait & Hrun).
  apply bind_Ok_inv in Hrun as (extracted & w8 & Hextract & Hrun).
  apply bind_Ok_inv in Hrun as (now' & w9 & Hnow & Hrun).
  apply bind_Ok_inv in Hrun as ([] & w10 & Hsave & Hrun).
  apply ret_Ok_inv in Hrun as [Hresp ->].
  injection Hresp as _ <- <- _.
  apply lift_Ok_inv in Hextract as [Hextract ->].
  apply call_Ok_inv in Hwait as [_ Hw7].
  apply call_Ok_inv in Hsubmit as [_ Hw6].
  apply call_Ok_inv in Hlookup as [_ Hw1].
  assert (Ht2 : exists evs, trace w2 = trace w1 ++ evs).
  { unfold InMemoryCidStore.set in Hset. injection Hset as <-.
    eexists. reflexivity. }
  assert (Ht3 : trace w3 = trace w2).
  { unfold EmailService.get_verificationKey in Hkey.
    injection Hkey as _ <-. reflexivity. }
  assert (Ht4 : exists evs, trace w4 = trace w3 ++ evs).
  { destruct (EmailService.keyLoaded key).
    - exact (emits_run _ _ _ _ _ _
               (emits_verifyProof anyEvent _ _ _ _ (fun _ _ _ _ => eq_refl))
               Hverify).
    - apply ret_Ok_inv in Hverify as [_ ->]. exists [].
      rewrite app_nil_r. reflexivity. }
  destruct (emits_run _ _ _ _ _ _
              (emits_pin anyEvent _ _ (fun _ => eq_refl)) Hpin) as (evs5 & Ht5).
  assert (Ht9 : exists evs, trace w9 = trace w7 ++ evs).
  { unfold now in Hnow. injection Hnow as _ <-. eexists. reflexivity. }
  assert (Ht10 : exists evs, trace w10 = trace w9 ++ evs).
  { unfold InMemoryMailStore.save in Hsave. injection Hsave as <-.
    eexists. reflexivity. }
  destruct Ht2 as (evs2 & Ht2). destruct Ht4 as (evs4 & Ht4).
  destruct Ht9 as (evs9 & Ht9). destruct Ht10 as (evs10 & Ht10).
  exists tx, receipt, extracted.
  erewrite newEvents_app;
    [| rewrite Ht10, Ht9, Hw7, Hw6; cbn [trace log_event];
       rewrite Ht5, Ht4, Ht3, Ht2, Hw1; cbn [trace log_event];
       rewrite <- !app_assoc; reflexivity].
  split; [| split; [| split; [reflexivity | split;
                                [exact Hextract | reflexivity]]]].
  - rewrite !in_app_iff. do 4 right. left. left. reflexivity.
  - rewrite !in_app_iff. do 5 right. left. left. reflexivity.
Qed.

(** C4, as the code has it.  A dispatch that returns hands back the handle
    [ipfs.add] answered, the hash of the transaction [mailer.sendMail]
    answered for the commitment of that handle, and a mail id taken from
    the receipt of that transaction: the [mailId] decoded from a log
    with the [MailSent] topic when [extractMailIdFromReceipt] finds one,
    and the placeholder "0" when it finds none.  A dispatch that throws
    throws the error of the step that failed, unchanged: one of the two
    guard errors, the error of a library call, or the answer of a call
    recorded in the trace.  The service answers 200 in the same way, with
    the hash of the transaction it submitted and the id extracted from
    the receipt or "0". *)
Theorem sendMail_outcome (self : BaseMailerClient.t)
    (params : SendMailParams.t) (service : EmailService.t)
    (body : EmailService.SendMailBody) (w : World) :
  let run := BaseMailerClient.sendMail self params w in
  let evs := newEvents w (snd run) in
  (forall resp : SendMailResponse.t,
      fst run = Ok resp ->
      exists pkg proof tx receipt extracted,
        In (EvIpfsAdd pkg
              (IPFSClient.shouldCompress (BaseMailerClient.storage self))
              (IPFSClient.shouldPin (BaseMailerClient.storage self))
              (Ok (SendMailResponse.cid resp))) evs
        /\ In (EvMailerSendMail proof
                 (BytesUtil.cidToBytes32 (SendMailResponse.cid resp))
                 (SendMailParams.from params) (SendMailParams.to params)
                 (Ok tx)) evs
        /\ In (EvTxWait tx (Ok receipt)) evs
        /\ SendMailResponse.txHash resp = TransactionResponse.hash tx
        /\ BaseMailerClient.extractMailIdFromReceipt
             (BaseMailerClient.receiptLogs receipt) = Ok extracted
        /\ match extracted with
           | Some id =>
               SendMailResponse.mailId resp = id
               /\ exists logs log otherTopics mailId,
                    BaseMailerClient.receiptLogs receipt = Some logs
                    /\ In log logs
                    /\ Log.topics log
                       = Some (MailerInterface.topicHash :: otherTopics)
                    /\ parseLog log
                       = Ok (Some (LogDescription.mk (Some mailId)))
                    /\ id = Js.toString mailId
           | None => SendMailResponse.mailId resp = "0"
           end)
  /\ (forall e : exn, fst run = Throw e -> origin raisedLocally e evs)
  /\ (forall (success : bool) (mailId txHash : string) (timestamp : Z),
        let answer := EmailService.postSendMail service body w in
        fst answer
          = Ok (EmailService.mkResponse 200
                  (EmailService.SentBody success mailId txHash timestamp)) ->
        exists tx receipt extracted,
          In (EvMailerSendMail
                (EmailService.orEmpty (EmailService.proof body))
                (BytesUtil.cidToBytes32
                   (EmailService.orEmpty (EmailService.cid body)))
                (EmailService.orEmpty (EmailService.senderEmail body))
                (EmailService.orEmpty (EmailService.recipientEmail body))
                (Ok tx))
             (newEvents w (snd answer))
          /\ In (EvTxWait tx (Ok receipt)) (newEvents w (snd answer))
          /\ txHash = TransactionResponse.hash tx
          /\ EmailService.extractMailId (BaseMailerClient.receiptLogs receipt)
             = Ok extracted
          /\ mailId = match extracted with Some id => id | None => "0" end).
Proof.
  cbv zeta. split; [| split].
  - intros resp Hok.
    destruct (BaseMailerClient.sendMail self params w) as [r w'] eqn:Hrun.
    cbn [fst snd] in *. subst r.
    unfold BaseMailerClient.sendMail in Hrun.
    destruct (negb _); [discriminate |].
    apply bind_Ok_inv in Hrun as (recipient & w1 & Hresolve & Hrun).
    apply bind_Ok_inv in Hrun as (timestamp & w2 & Hnow & Hrun).
    apply bind_Ok_inv in Hrun as (encrypted & w3 & Hencrypt & Hrun).
    apply bind_Ok_inv in Hrun as (cid & w4 & Hupload & Hrun).
    apply bind_Ok_inv in Hrun as ([] & w5 & Hset & Hrun).
    apply bind_Ok_inv in Hrun as (proof & w6 & Hprove & Hrun).
    apply bind_Ok_inv in Hrun as (tx & w7 & Hsubmit & Hrun).
    apply bind_Ok_inv in Hrun as (receipt & w8 & Hwait & Hrun).
    apply bind_Ok_inv in Hrun as (extracted & w9 & Hextract & Hrun).
    apply ret_Ok_inv in Hrun as [<- ->].
    apply lift_Ok_inv in Hextract as [Hextract ->].
    apply call_Ok_inv in Hwait as [_ Hw8].
    apply call_Ok_inv in Hsubmit as [_ Hw7].
    unfold IPFSClient.upload in Hupload.
    apply call_Ok_inv in Hupload as [_ Hw4].
    assert (Hw5 : trace w5 = trace w4 ++ [EvCidStoreSet
                    (BytesUtil.cidToBytes32 cid) cid]).
    { unfold InMemoryCidStore.set in Hset. injection Hset as <-. reflexivity. }
    destruct (emits_run _ _ _ _ _ _ (resolveRecipient_quiet _) Hresolve)
      as (evs1 & Ht1).
    assert (Ht2 : exists evs, trace w2 = trace w1 ++ evs).
    { unfold now in Hnow. injection Hnow as _ <-. eexists. reflexivity. }
    destruct Ht2 as (evs2 & Ht2).
    destruct (emits_run _ _ _ _ _ _ (encrypt_quiet _ _ _) Hencrypt)
      as (evs3 & Ht3).
    destruct (emits_run _ _ _ _ _ _ (generateProof_quiet _) Hprove)
      as (evs6 & Ht6).
    exists encrypted, (ProofResult.proof proof), tx, receipt, extracted.
    cbn [SendMailResponse.cid SendMailResponse.txHash SendMailResponse.mailId].
    rewrite (newEvents_app w _
               (evs1 ++ evs2 ++ evs3
                ++ [EvIpfsAdd encrypted
                      (IPFSClient.shouldCompress (BaseMailerClient.storage self))
                      (IPFSClient.shouldPin (BaseMailerClient.storage self))
                      (Ok cid)]
                ++ [EvCidStoreSet (BytesUtil.cidToBytes32 cid) cid]
                ++ evs6
                ++ [EvMailerSendMail (ProofResult.proof proof)
                      (BytesUtil.cidToBytes32 cid) (SendMailParams.from params)
                      (SendMailParams.to params) (Ok tx)]
                ++ [EvTxWait tx (Ok receipt)])).
    2:{ rewrite Hw8, Hw7. cbn [trace log_event]. rewrite Ht6, Hw5, Hw4.
        cbn [trace log_event]. rewrite Ht3, Ht2, Ht1.
        rewrite <- !app_assoc. reflexivity. }
    split; [| split; [| split; [| split; [reflexivity | split]]]].
    + rewrite !in_app_iff. do 3 right. left. left. reflexivity.
    + rewrite !in_app_iff. do 6 right. left. left. reflexivity.
    + rewrite !in_app_iff. do 7 right. left. reflexivity.
    + exact Hextract.
    + destruct extracted as [id |]; [| reflexivity].
      split; [reflexivity |].
      unfold BaseMailerClient.extractMailIdFromReceipt in Hextract.
      destruct (BaseMailerClient.receiptLogs receipt) as [logs |];
        [| discriminate].
      destruct (negb _); [discriminate |].
      destruct (scanLogs_found _ _ Hextract) as (log & ts & z & Hfound).
      exists logs, log, ts, z. split; [reflexivity | exact Hfound].
  - intros e He.
    destruct (sendMail_emits self params w) as (evs & Ht & _ & Ho).
    rewrite (newEvents_app _ _ _ Ht). apply Ho. exact He.
  - intros success mailId txHash timestamp. apply postSendMail_success.
Qed.

End SendOutcome.

(** ** Resolving the recipient *)

Section RecipientGate.
Context `{CryptoLib} `{JsLib} `{EthersLib} `{Env}.

(** [resolveRecipient] returns only when the lookup and the resolver both
    returned; then they are the two events it added.  Otherwise nothing
    it added is an encryption or a storage call. *)
Lemma resolveRecipient_cases (email : string) (w : World) :
  let run := BaseMailerClient.resolveRecipient email w in
  (exists owner recipient,
      fst run = Ok recipient
      /\ tape (snd run) = tape w
      /\ trace (snd run)
         = trace w ++ [EvResolveEmail email (Ok owner);
                       EvRecipientResolver email owner (Ok recipient)])
  \/ ((forall recipient, fst run <> Ok recipient)
      /\ exists evs,
           trace (snd run) = trace w ++ evs
           /\ forallb (fun ev => negb (encryptsOrStores ev)) evs = true).
Proof.
  cbv zeta.
  unfold BaseMailerClient.resolveRecipient, BaseMailerClient.resolveOwner,
    bind, call.
  destruct (registry_resolveEmail (trace w) email) as [owner | e |].
  - destruct recipientResolver as [resolver |].
    + cbn [trace log_event fst snd].
      destruct (resolver _ email owner) as [recipient | e |] eqn:E.
      * left. exists owner, recipient. cbn [fst snd trace tape log_event].
        rewrite <- app_assoc. repeat split; reflexivity.
      * right. split; [discriminate |]. eexists [_; _].
        cbn [fst snd trace log_event]. rewrite <- app_assoc.
        split; reflexivity.
      * right. split; [discriminate |]. eexists [_; _].
        cbn [fst snd trace log_event]. rewrite <- app_assoc.
        split; reflexivity.
    + right. split; [discriminate |]. eexists [_]. split; reflexivity.
  - right. split; [discriminate |]. eexists [_]. split; reflexivity.
  - right. split; [discriminate |]. eexists [_]. split; reflexivity.
Qed.

Lemma no_match_in_filtered (q : Event -> bool) (evs pre post : list Event)
    (ev : Event) :
  forallb (fun ev => negb (q ev)) evs = true ->
  evs = pre ++ ev :: post -> q ev = true -> False.
Proof.
  intros Hall -> Hq. rewrite forallb_app in Hall.
  apply andb_prop in Hall as [_ Hall]. simpl in Hall. rewrite Hq in Hall.
  discriminate.
Qed.

(** With the timestamp set and two random draws ahead, [encrypt] reaches
    its AES-GCM call. *)
Lemma encrypt_reaches_cipher (self : EncryptionManager.t)
    (content : MailContent.t) (publicKeyHex : string) (ts : Z) (w : World)
    (draw1 draw2 : bytes) (rest : list bytes) :
  MailContent.timestamp content = Some ts ->
  tape w = draw1 :: draw2 :: rest ->
  exists key iv plaintext r,
    In (EvCipher key iv plaintext r)
       (newEvents w (snd (EncryptionManager.encrypt self content publicKeyHex w))).
Proof.
  intros Hts Htape. unfold EncryptionManager.encrypt. rewrite Hts.
  rewrite bind_ret. unfold bind at 1. unfold randomBytes at 1. rewrite Htape.
  unfold bind at 1. unfold randomBytes at 1. cbn [tape].
  unfold bind at 1.
  match goal with
  | |- context [call ?o ?record ?w1] =>
      destruct (call o record w1) as [[[c t] | e |] w2] eqn:Ecall;
      unfold call in Ecall; cbn [trace] in Ecall;
      injection Ecall as Er <-
  end.
  - match goal with
    | |- context [snd (?k ?w2)] =>
        assert (Hk : emits raisedLocally anyEvent k)
    end.
    { emits_steps.
      - apply emits_lift. intros e He.
        exfalso. exact (normalizePublicKey_never_throws _ _ He).
      - apply (emits_weaken raisedLocally quiet); [reflexivity |].
        apply wrapSymmetricKey_quiet. }
    match goal with
    | |- context [snd (?k ?w2)] => destruct (Hk w2) as (evs & Ht & _)
    end.
    do 4 eexists.
    erewrite newEvents_app;
      [| rewrite Ht; cbn [trace log_event]; rewrite <- app_assoc; reflexivity].
    left. reflexivity.
  - do 4 eexists. cbn [snd].
    erewrite newEvents_app; [| cbn [trace log_event]; reflexivity].
    left. reflexivity.
  - do 4 eexists. cbn [snd].
    erewrite newEvents_app; [| cbn [trace log_event]; reflexivity].
    left. reflexivity.
Qed.

(** Sealing a mail calls no storage. *)
Lemma encrypt_keeps_off_storage (self : EncryptionManager.t)
    (content : MailContent.t) (recipientPublicKeyHex : string) :
  emits raisedLocally (fun ev => negb (is_ipfs_add ev))
    (EncryptionManager.encrypt self content recipientPublicKeyHex).
Proof.
  unfold EncryptionManager.encrypt, EncryptionManager.wrapSymmetricKey.
  emits_steps.
  - apply emits_lift. intros e He.
    exfalso. exact (normalizePublicKey_never_throws _ _ He).
  - apply emits_lift. intros e He. eapply raised_getPublicKey. exact He.
  - apply emits_lift. apply computeSharedSecret_throws.
  - apply emits_lift. intros e He. eapply raised_hkdfSync. exact He.
  - apply emits_lift. intros e He. eapply raised_hkdfSync. exact He.
Qed.

Lemma filter_none (q : Event -> bool) (evs : list Event) :
  forallb (fun ev => negb (q ev)) evs = true -> filter q evs = [].
Proof.
  induction evs as [|ev evs IH]; simpl; [reflexivity |].
  intros Hall. apply andb_prop in Hall as [Hev Hall].
  destruct (q ev); [discriminate | exact (IH Hall)].
Qed.

(** C5, as the code has it.  In a dispatch, nothing is encrypted and
    nothing is sent to storage before the registry has answered the
    lookup of the recipient and the recipient resolver has returned.
    With no resolver configured the dispatch stops after the lookup with
    "recipientResolver is not configured; cannot derive public key".  The
    owner the registry answers is not examined: whatever it is, the zero
    address included, it goes to the resolver, and once the resolver has
    returned the dispatch goes on to seal the mail with the public key
    the resolver returned: the AES-GCM encryption is attempted, and when
    the sealing returns a package, that package is what is handed to
    storage; when the sealing throws, the dispatch throws the same error
    and storage is not called. *)
Theorem sendMail_recipient_gate (self : BaseMailerClient.t)
    (params : SendMailParams.t) (w : World) :
  let to := SendMailParams.to params in
  let run := BaseMailerClient.sendMail self params w in
  let evs := newEvents w (snd run) in
  (forall (pre post : list Event) (ev : Event),
      evs = pre ++ ev :: post -> encryptsOrStores ev = true ->
      exists owner recipient,
        In (EvResolveEmail to (Ok owner)) pre
        /\ In (EvRecipientResolver to owner (Ok recipient)) pre)
  /\ (forall owner : string,
        Js.truthy (Some (SendMailParams.from params)) = true ->
        registry_resolveEmail (trace w) to = Ok owner ->
        recipientResolver = None ->
        run = (Throw (Error
                 "recipientResolver is not configured; cannot derive public key"),
               log_event (EvResolveEmail to (Ok owner)) w))
  /\ (forall (owner : string) resolver (recipient : RecipientResolutionResult.t)
             (draw1 draw2 : bytes) (rest : list bytes),
        Js.truthy (Some (SendMailParams.from params)) = true ->
        registry_resolveEmail (trace w) to = Ok owner ->
        recipientResolver = Some resolver ->
        resolver (trace w ++ [EvResolveEmail to (Ok owner)]) to owner
          = Ok recipient ->
        tape w = draw1 :: draw2 :: rest ->
        exists key iv plaintext r, In (EvCipher key iv plaintext r) evs)
  /\ (forall (owner : string) resolver
             (recipient : RecipientResolutionResult.t),
        Js.truthy (Some (SendMailParams.from params)) = true ->
        registry_resolveEmail (trace w) to = Ok owner ->
        recipientResolver = Some resolver ->
        resolver (trace w ++ [EvResolveEmail to (Ok owner)]) to owner
          = Ok recipient ->
        let w1 :=
          log_event (EvRecipientResolver to owner (Ok recipient))
            (log_event (EvResolveEmail to (Ok owner)) w) in
        let timestamp := Date_now (trace w1) in
        let content :=
          MailContent.mk (SendMailParams.from params) to
            (SendMailParams.subject params) (SendMailParams.body params)
            (Some timestamp) (SendMailParams.attachments params) in
        let sealed :=
          EncryptionManager.encrypt (BaseMailerClient.encryption self) content
            (RecipientResolutionResult.publicKey recipient)
            (log_event (EvDateNow timestamp) w1) in
        let storage := BaseMailerClient.storage self in
        (forall pkg : EncryptedMailPackage.t,
            fst sealed = Ok pkg ->
            In (EvIpfsAdd pkg (IPFSClient.shouldCompress storage)
                  (IPFSClient.shouldPin storage)
                  (ipfs_add (trace (snd sealed)) pkg
                     (IPFSClient.shouldCompress storage)
                     (IPFSClient.shouldPin storage)))
               evs)
        /\ (forall e : exn,
              fst sealed = Throw e ->
              run = (Throw e, snd sealed)
              /\ filter is_ipfs_add evs = [])).
Proof.
  cbv zeta. split; [| split; [| split]].
  - intros pre post ev Hsplit Hev.
    unfold BaseMailerClient.sendMail in Hsplit.
    destruct (negb _).
    { cbn [throw snd] in Hsplit. rewrite newEvents_same in Hsplit.
      destruct pre; discriminate. }
    unfold bind at 1 in Hsplit.
    pose proof (resolveRecipient_cases (SendMailParams.to params) w) as Hcases.
    cbv zeta in Hcases.
    destruct (BaseMailerClient.resolveRecipient (SendMailParams.to params) w)
      as [r w1] eqn:Hresolve.
    cbn [fst snd] in Hcases.
    destruct Hcases as [(owner & recipient & -> & _ & Ht1)
                       | (Hfail & evs1 & Ht1 & Hnone)].
    + cbv beta iota in Hsplit.
      match type of Hsplit with
      | context [snd (?m w1)] =>
          assert (Hk : emits raisedLocally anyEvent m)
      end.
      { assert (Hany : forall ev0, quiet ev0 = true -> anyEvent ev0 = true)
          by reflexivity.
        apply emits_bind; [emits_steps |]. intros timestamp.
        apply emits_bind;
          [apply (emits_weaken _ _ _ _ Hany), encrypt_quiet |].
        intros encrypted.
        apply emits_bind; [apply (emits_weaken _ _ _ _ Hany), upload_quiet |].
        intros cid. apply emits_bind; [emits_steps |]. intros _.
        apply emits_bind;
          [apply (emits_weaken _ _ _ _ Hany), generateProof_quiet |].
        intros proof. apply emits_bind; [emits_steps |]. intros tx.
        apply emits_bind; [emits_steps |]. intros receipt.
        apply emits_bind; [| intros; apply emits_ret].
        apply emits_lift. apply extractMailIdFromReceipt_throws. }
      destruct (Hk w1) as (evs2 & Ht2 & _).
      erewrite newEvents_app in Hsplit;
        [| rewrite Ht2, Ht1, <- app_assoc; reflexivity].
      exists owner, recipient.
      destruct pre as [|e1 [|e2 pre]]; simpl in Hsplit.
      * injection Hsplit as <- _. discriminate.
      * injection Hsplit as <- <- _. discriminate.
      * injection Hsplit as <- <- _.
        split; [left; reflexivity | right; left; reflexivity].
    + exfalso.
      destruct r as [recipient | e |];
        [exact (Hfail recipient eq_refl) | |];
        cbn [snd] in Hsplit; rewrite (newEvents_app _ _ _ Ht1) in Hsplit;
        exact (no_match_in_filtered encryptsOrStores _ _ _ _ Hnone Hsplit Hev).
  - intros owner Hfrom Hlookup Hnone.
    unfold BaseMailerClient.sendMail. rewrite Hfrom. cbn [negb].
    unfold BaseMailerClient.resolveRecipient, BaseMailerClient.resolveOwner,
      bind, call.
    rewrite Hlookup, Hnone. reflexivity.
  - intros owner resolver recipient draw1 draw2 rest
      Hfrom Hlookup Hresolver Hanswer Htape.
    unfold BaseMailerClient.sendMail. rewrite Hfrom. cbn [negb].
    unfold bind at 1.
    assert (Hresolve :
      BaseMailerClient.resolveRecipient (SendMailParams.to params) w
      = (Ok recipient,
         log_event
           (EvRecipientResolver (SendMailParams.to params) owner (Ok recipient))
           (log_event (EvResolveEmail (SendMailParams.to params) (Ok owner)) w))).
    { unfold BaseMailerClient.resolveRecipient, BaseMailerClient.resolveOwner,
        bind, call.
      rewrite Hlookup, Hresolver. cbn [trace log_event].
      rewrite Hanswer. reflexivity. }
    rewrite Hresolve. unfold bind at 1. unfold now at 1.
    unfold bind at 1.
    match goal with
    | |- context [EncryptionManager.encrypt ?s ?c ?k ?w2] =>
        destruct (encrypt_reaches_cipher s c k _ w2 draw1 draw2 rest eq_refl
                    Htape)
          as (key & iv & plaintext & r & Hin);
        destruct (encrypt_quiet s c k w2) as (evsE & HtE & _);
        rewrite (newEvents_app _ _ _ HtE) in Hin;
        destruct (EncryptionManager.encrypt s c k w2) as [[enc | e |] w3]
    end; cbn [fst snd] in HtE.
    + cbv beta iota.
      match goal with
      | |- context [snd (?m w3)] =>
          assert (Hk : emits raisedLocally anyEvent m)
      end.
      { assert (Hany : forall ev0, quiet ev0 = true -> anyEvent ev0 = true)
          by reflexivity.
        apply emits_bind; [apply (emits_weaken _ _ _ _ Hany), upload_quiet |].
        intros cid. apply emits_bind; [emits_steps |]. intros _.
        apply emits_bind;
          [apply (emits_weaken _ _ _ _ Hany), generateProof_quiet |].
        intros proof. apply emits_bind; [emits_steps |]. intros tx.
        apply emits_bind; [emits_steps |]. intros receipt.
        apply emits_bind; [| intros; apply emits_ret].
        apply emits_lift. apply extractMailIdFromReceipt_throws. }
      destruct (Hk w3) as (evs2 & Ht2 & _).
      exists key, iv, plaintext, r.
      erewrite newEvents_app;
        [| rewrite Ht2, HtE; cbn [trace log_event];
           rewrite <- !app_assoc; reflexivity].
      rewrite !in_app_iff. right. right. right. left. exact Hin.
    + exists key, iv, plaintext, r. cbn [snd].
      erewrite newEvents_app;
        [| rewrite HtE; cbn [trace log_event];
           rewrite <- !app_assoc; reflexivity].
      rewrite !in_app_iff. right. right. right. exact Hin.
    + exists key, iv, plaintext, r. cbn [snd].
      erewrite newEvents_app;
        [| rewrite HtE; cbn [trace log_event];
           rewrite <- !app_assoc; reflexivity].
      rewrite !in_app_iff. right. right. right. exact Hin.
  - intros owner resolver recipient Hfrom Hlookup Hresolver Hanswer.
    remember (BaseMailerClient.sendMail self params w) as run eqn:Hrun.
    unfold BaseMailerClient.sendMail in Hrun. rewrite Hfrom in Hrun.
    cbn [negb] in Hrun. unfold bind at 1 in Hrun.
    assert (Hresolve :
      BaseMailerClient.resolveRecipient (SendMailParams.to params) w
      = (Ok recipient,
         log_event
           (EvRecipientResolver (SendMailParams.to params) owner (Ok recipient))
           (log_event (EvResolveEmail (SendMailParams.to params) (Ok owner)) w))).
    { unfold BaseMailerClient.resolveRecipient, BaseMailerClient.resolveOwner,
        bind, call.
      rewrite Hlookup, Hresolver. cbn [trace log_event].
      rewrite Hanswer. reflexivity. }
    rewrite Hresolve in Hrun. unfold bind at 1 in Hrun.
    unfold now at 1 in Hrun. unfold bind at 1 in Hrun.
    match type of Hrun with
    | context [EncryptionManager.encrypt ?s ?c ?k ?w2] =>
        destruct (encrypt_keeps_off_storage s c k w2) as (evsE & HtE & HnoE & _);
        destruct (EncryptionManager.encrypt s c k w2) as [[enc | e |] w3]
    end; cbn [fst snd] in *.
    + split; [| discriminate]. intros pkg Hpkg. injection Hpkg as <-.
      cbv beta iota in Hrun. unfold bind at 1 in Hrun.
      unfold IPFSClient.upload at 1, call at 1 in Hrun.
      match type of Hrun with
      | context [ipfs_add ?h ?p ?c ?n] =>
          destruct (ipfs_add h p c n) as [cid | e |]
      end.
      * match type of Hrun with
        | run = ?m ?w4 => assert (Hk : emits raisedLocally anyEvent m)
        end.
        { assert (Hany : forall ev0, quiet ev0 = true -> anyEvent ev0 = true)
            by reflexivity.
          apply emits_bind; [emits_steps |]. intros _.
          apply emits_bind;
            [apply (emits_weaken _ _ _ _ Hany), generateProof_quiet |].
          intros proof. apply emits_bind; [emits_steps |]. intros tx.
          apply emits_bind; [emits_steps |]. intros receipt.
          apply emits_bind; [| intros; apply emits_ret].
          apply emits_lift. apply extractMailIdFromReceipt_throws. }
        match type of Hrun with
        | run = ?m ?w4 => destruct (Hk w4) as (evs2 & Ht2 & _)
        end.
        rewrite <- Hrun in Ht2.
        erewrite newEvents_app;
          [| rewrite Ht2; cbn [trace log_event]; rewrite HtE;
             cbn [trace log_event]; rewrite <- !app_assoc; reflexivity].
        rewrite !in_app_iff. right. right. right. right. left. left.
        reflexivity.
      * subst run. cbn [snd].
        erewrite newEvents_app;
          [| cbn [trace log_event]; rewrite HtE;
             cbn [trace log_event]; rewrite <- !app_assoc; reflexivity].
        rewrite !in_app_iff. right. right. right. right. left.
        reflexivity.
      * subst run. cbn [snd].
        erewrite newEvents_app;
          [| cbn [trace log_event]; rewrite HtE;
             cbn [trace log_event]; rewrite <- !app_assoc; reflexivity].
        rewrite !in_app_iff. right. right. right. right. left.
        reflexivity.
    + split; [discriminate |]. intros e' He'. injection He' as <-.
      subst run. split; [reflexivity |]. cbn [snd].
      erewrite newEvents_app;
        [| rewrite HtE; cbn [trace log_event];
           rewrite <- !app_assoc; reflexivity].
      cbn [app filter is_ipfs_add]. apply filter_none. exact HnoE.
    + split; discriminate.
Qed.

End RecipientGate.

(** ** A service without verification key *)

Section KeepsKey.
Context `{JsLib} `{EthersLib} `{Env}.

Lemma keepsKey_ret {A} (a : A) : keepsKey (ret a).
Proof. intros w. reflexivity. Qed.

Lemma keepsKey_bind {A B} (m : M A) (k : A -> M B) :
  keepsKey m -> (forall a, keepsKey (k a)) -> keepsKey (bind m k).
Proof.
  intros Hm Hk w. specialize (Hm w). unfold bind.
  destruct (m w) as [[a | e |] w1]; cbn [snd] in *;
    [rewrite Hk | |]; exact Hm.
Qed.

Lemma keepsKey_call {A} (oracle : list Event -> outcome A)
    (record : outcome A -> Event) : keepsKey (call oracle record).
Proof. intros w. reflexivity. Qed.

Lemma keepsKey_emit (ev : Event) : keepsKey (emit ev).
Proof. intros w. reflexivity. Qed.

Lemma keepsKey_throw {A} (e : exn) : keepsKey (@throw A e).
Proof. intros w. reflexivity. Qed.

Lemma keepsKey_persistEvent (mailId contentCID : option string)
    (senderEmail recipientEmail : string) (timestamp : Z)
    (blockNumber : option Z) (txHash : option string) :
  keepsKey (EmailService.persistEvent mailId contentCID senderEmail
              recipientEmail timestamp blockNumber txHash).
Proof.
  unfold EmailService.persistEvent. destruct (_ || _).
  - apply keepsKey_ret.
  - apply keepsKey_bind; [intros w; reflexivity |].
    intros stored w. reflexivity.
Qed.

Lemma keepsKey_replayEvents (events : list EventLog.t) :
  keepsKey (EmailService.replayEvents events).
Proof.
  induction events as [|event rest IH]; simpl.
  - apply keepsKey_ret.
  - apply keepsKey_bind; [| intros _; exact IH].
    unfold EmailService.replayEvent.
    destruct (EventLog.args event) as [args |]; [| apply keepsKey_ret].
    apply keepsKey_bind.
    + unfold EmailService.mailIdToString.
      destruct (MailSentArgs.mailId args);
        [apply keepsKey_ret | apply keepsKey_throw].
    + intros id. apply keepsKey_persistEvent.
Qed.

Lemma keepsKey_bootstrapEvents (self : EmailService.t) :
  keepsKey (EmailService.bootstrapEvents self).
Proof.
  unfold EmailService.bootstrapEvents.
  apply keepsKey_bind.
  { destruct (EmailService.eventStartBlock _);
      [apply keepsKey_ret | apply keepsKey_call]. }
  intros startBlock. apply keepsKey_bind; [apply keepsKey_call |].
  intros current. apply keepsKey_bind; [| intros _; apply keepsKey_emit].
  destruct (current >=? startBlock)%Z; [| apply keepsKey_ret].
  apply keepsKey_bind; [apply keepsKey_call |].
  intros events. apply keepsKey_replayEvents.
Qed.

(** Under a key that is not loaded, the handler is the handler without
    the verification step. *)
Lemma postSendMail_unloaded (self : EmailService.t)
    (body : EmailService.SendMailBody) (w : World) :
  EmailService.keyLoaded (verificationKey w) = false ->
  EmailService.postSendMail self body w = Unverified.postSendMail self body w.
Proof.
  intros Hkey.
  unfold EmailService.postSendMail, Unverified.postSendMail.
  apply try_catch_cong.
  destruct (_ || _); [reflexivity |].
  cbv zeta. apply bind_cong. intros owner w1 Hcall.
  destruct (owner =? EmailService.zeroAddress); [reflexivity |].
  apply bind_cong. intros [] w2 Hset.
  unfold call in Hcall. injection Hcall as _ <-.
  unfold InMemoryCidStore.set in Hset. injection Hset as <-.
  unfold bind at 1. unfold EmailService.get_verificationKey at 1.
  cbn [verificationKey log_event]. rewrite Hkey.
  rewrite bind_ret. reflexivity.
Qed.

Lemma postSendMail_unverified_emits (self : EmailService.t)
    (body : EmailService.SendMailBody) :
  emits anyError notVerify (Unverified.postSendMail self body).
Proof.
  intros w.
  assert (Hinner : forall (m : M EmailService.Response),
            emits anyError notVerify m ->
            emits anyError notVerify
              (try_catch m
                 (fun error =>
                    ret (EmailService.mkResponse 500
                           (EmailService.ErrorBody (message error)))))).
  { intros m Hm w0. destruct (Hm w0) as (evs & Ht & Hp & _).
    exists evs. unfold try_catch.
    destruct (m w0) as [[a | e |] w1]; cbn [fst snd ret] in *;
      (split; [exact Ht | split; [exact Hp |]]);
      intros e' _; left; exact I. }
  apply Hinner. clear w.
  destruct (_ || _); [apply emits_ret |].
  cbv zeta. apply emits_bind; [emits_steps |]. intros owner.
  destruct (owner =? _); [apply emits_ret |].
  apply emits_bind; [emits_steps |]. intros _.
  apply emits_bind; [apply emits_pin; reflexivity |]. intros _.
  apply emits_bind; [emits_steps |]. intros tx.
  apply emits_bind; [emits_steps |]. intros receipt.
  apply emits_bind; [apply emits_lift; intros; exact I |]. intros extracted.
  apply emits_bind; [emits_steps |]. intros timestamp.
  apply emits_bind; [apply emits_mailStore_save; reflexivity |]. intros _.
  apply emits_ret.
Qed.

End KeepsKey.

Section WithoutKey.
Context `{JsLib} `{EthersLib} {E : Env}.

Lemma keepsKey_postSendMail_unverified (self : EmailService.t)
    (body : EmailService.SendMailBody) :
  keepsKey (Unverified.postSendMail self body).
Proof.
  assert (Hcatch : forall (m : M EmailService.Response) h,
            keepsKey m -> keepsKey (try_catch m (fun e => ret (h e)))).
  { intros m h Hm w. specialize (Hm w). unfold try_catch.
    destruct (m w) as [[a | e |] w1]; exact Hm. }
  unfold Unverified.postSendMail. apply Hcatch.
  destruct (_ || _); [apply keepsKey_ret |].
  cbv zeta. apply keepsKey_bind; [apply keepsKey_call |]. intros owner.
  destruct (owner =? _); [apply keepsKey_ret |].
  apply keepsKey_bind; [intros w; reflexivity |]. intros _.
  apply keepsKey_bind.
  { unfold IPFSClient.pin. destruct (negb _);
      [apply keepsKey_ret | apply keepsKey_call]. }
  intros _. apply keepsKey_bind; [apply keepsKey_call |]. intros tx.
  apply keepsKey_bind; [apply keepsKey_call |]. intros receipt.
  apply keepsKey_bind; [intros w; reflexivity |]. intros extracted.
  apply keepsKey_bind; [intros w; reflexivity |]. intros timestamp.
  apply keepsKey_bind; [intros w; reflexivity |]. intros _.
  apply keepsKey_ret.
Qed.

Lemma truthy_nonempty (s : string) : s <> "" -> Js.truthy (Some s) = true.
Proof.
  intros Hs. unfold Js.truthy. destruct (s =? "") eqn:Es; [| reflexivity].
  apply String.eqb_eq in Es. contradiction.
Qed.

(** C10.  A service constructed without [verificationKeyPath] loads no
    key when it starts, and a handler leaves the key as it is.  Without a
    loaded key, [POST /api/send-mail] runs exactly as the handler without
    the verification step: it never calls [groth16.verify], its run does
    not depend on what the verifier would answer, and for a request that
    has its four fields and a registered sender it pins the content (when
    pinning is on) and, once the pin has returned, submits the
    transaction with the proof as supplied. *)
Theorem postSendMail_skips_verification_without_key
    (self : EmailService.t) (body : EmailService.SendMailBody) (w : World) :
  (Js.truthy (EmailService.verificationKeyPath (EmailService.config self))
     = false ->
   verificationKey (snd (EmailService.start self w)) = verificationKey w)
  /\ (EmailService.keyLoaded (verificationKey w) = false ->
      let run := EmailService.postSendMail self body w in
      run = Unverified.postSendMail self body w
      /\ filter is_verify (newEvents w (snd run)) = []
      /\ (forall verifier,
            @EmailService.postSendMail _ _ (withVerifier E verifier) self body w
            = run)
      /\ verificationKey (snd run) = verificationKey w
      /\ (forall proof cid sender recipient owner : string,
            body = EmailService.mkBody (Some proof) (Some cid) (Some sender)
                     (Some recipient) ->
            proof <> "" -> cid <> "" -> sender <> "" -> recipient <> "" ->
            registry_resolveEmail (trace w) sender = Ok owner ->
            owner <> EmailService.zeroAddress ->
            let contentCID := BytesUtil.cidToBytes32 cid in
            let before :=
              [EvResolveEmail sender (Ok owner); EvCidStoreSet contentCID cid] in
            let pinning := IPFSClient.shouldPin (EmailService.ipfs self) in
            (pinning = true ->
             ipfs_pin_add (trace w ++ before) cid = Ok tt) ->
            exists ans post,
              newEvents w (snd run)
              = before
                ++ (if pinning then [EvIpfsPinAdd cid (Ok tt)] else [])
                ++ EvMailerSendMail proof contentCID sender recipient ans
                   :: post)).
Proof.
  split.
  - intros Hpath. unfold EmailService.start. rewrite Hpath.
    rewrite bind_ret. apply keepsKey_bootstrapEvents.
  - intros Hkey. cbv zeta.
    rewrite (postSendMail_unloaded self body w Hkey).
    split; [reflexivity | split; [| split; [| split]]].
    + destruct (postSendMail_unverified_emits self body w)
        as (evs & Ht & Hp & _).
      rewrite (newEvents_app _ _ _ Ht). apply filter_none.
      unfold notVerify in Hp. exact Hp.
    + intros verifier.
      rewrite (@postSendMail_unloaded _ _ (withVerifier E verifier)
                 self body w Hkey).
      reflexivity.
    + apply keepsKey_postSendMail_unverified.
    + intros proof cid sender recipient owner -> Hproof Hcid Hsender Hrecipient
        Hlookup Hregistered Hpin.
      assert (Hsnd : forall (m : M EmailService.Response) h w0,
                snd (try_catch m (fun e => ret (h e)) w0) = snd (m w0)).
      { intros m h w0. unfold try_catch.
        destruct (m w0) as [[a | e |] w1]; reflexivity. }
      unfold Unverified.postSendMail. rewrite Hsnd.
      cbn [EmailService.proof EmailService.cid EmailService.senderEmail
           EmailService.recipientEmail EmailService.orEmpty].
      rewrite !truthy_nonempty by assumption. cbn [negb orb].
      unfold bind at 1. unfold call at 1. rewrite Hlookup.
      destruct (owner =? EmailService.zeroAddress) eqn:Ezero.
      { apply String.eqb_eq in Ezero. contradiction. }
      unfold bind at 1. unfold InMemoryCidStore.set at 1.
      cbn [trace log_event tape cidStore mails verificationKey].
      unfold IPFSClient.pin.
      destruct (IPFSClient.shouldPin (EmailService.ipfs self)) eqn:Epin;
        cbn [negb].
      * unfold bind at 1. unfold call at 1. cbn [trace log_event].
        rewrite <- app_assoc. cbn [app]. rewrite (Hpin eq_refl).
        unfold bind at 1. unfold call at 1. cbn [trace log_event].
        match goal with
        | |- context [mailer_sendMail ?h ?a ?b ?c ?d] =>
            destruct (mailer_sendMail h a b c d) as [tx | e |] eqn:Esubmit
        end.
        -- cbv beta iota.
           match goal with
           | |- context [snd (?m ?w3)] =>
               assert (Hm : emits anyError anyEvent m);
               [| destruct (Hm w3) as (evs & Ht & _)]
           end.
           { apply emits_bind; [emits_steps |]. intros receipt.
             apply emits_bind; [apply emits_lift; intros; exact I |].
             intros extracted. apply emits_bind; [emits_steps |].
             intros timestamp.
             apply emits_bind; [apply emits_mailStore_save; reflexivity |].
             intros _. apply emits_ret. }
           eexists (Ok tx), _. apply newEvents_app.
           rewrite Ht. cbn [trace log_event]. rewrite <- !app_assoc.
           reflexivity.
        -- eexists (Throw e), []. apply newEvents_app.
           cbn [snd trace log_event]. rewrite <- !app_assoc. reflexivity.
        -- eexists Diverge, []. apply newEvents_app.
           cbn [snd trace log_event]. rewrite <- !app_assoc. reflexivity.
      * rewrite bind_ret.
        unfold bind at 1. unfold call at 1. cbn [trace log_event].
        match goal with
        | |- context [mailer_sendMail ?h ?a ?b ?c ?d] =>
            destruct (mailer_sendMail h a b c d) as [tx | e |] eqn:Esubmit
        end.
        -- cbv beta iota.
           match goal with
           | |- context [snd (?m ?w3)] =>
               assert (Hm : emits anyError anyEvent m);
               [| destruct (Hm w3) as (evs & Ht & _)]
           end.
           { apply emits_bind; [emits_steps |]. intros receipt.
             apply emits_bind; [apply emits_lift; intros; exact I |].
             intros extracted. apply emits_bind; [emits_steps |].
             intros timestamp.
             apply emits_bind; [apply emits_mailStore_save; reflexivity |].
             intros _. apply emits_ret. }
           eexists (Ok tx), _. apply newEvents_app.
           rewrite Ht. cbn [trace log_event]. rewrite <- !app_assoc.
           reflexivity.
        -- eexists (Throw e), []. apply newEvents_app.
           cbn [snd trace log_event]. rewrite <- !app_assoc. reflexivity.
        -- eexists Diverge, []. apply newEvents_app.
           cbn [snd trace log_event]. rewrite <- !app_assoc. reflexivity.
Qed.

End WithoutKey.

(** ** Runs on the stand-ins *)


(** With a receipt that carries no log at all, the dispatch still reports
    success, and the mail id it returns is the placeholder "0", which no
    [MailSent] event carried.  And a dispatch that fails at the upload
    throws the very error of a dispatch that fails at the proof: the
    error does not tell the step. *)
Lemma sendMail_placeholder_id_counterexample :
  let dispatch (E : Env) :=
    @BaseMailerClient.sendMail Standin.crypto Standin.js Standin.ethers
      E Standin.client Standin.params Standin.world0 in
  let lastCall (E : Env) := last (trace (snd (dispatch E))) (EvDateNow 0) in
  (fst (dispatch Standin.withoutLogs)
     = Ok (SendMailResponse.mk "0" "QmStandinHandle" "0xfeed")
   /\ filter (fun ev => match ev with EvTxWait _ _ => true | _ => false end)
             (trace (snd (dispatch Standin.withoutLogs)))
      = [EvTxWait (TransactionResponse.mk "0xfeed")
           (Ok (Some (TransactionReceipt.mk (Some []) (Some 7%Z))))])
  /\ (fst (dispatch Standin.storageDown) = Throw (Error "socket hang up")
      /\ fst (dispatch Standin.proverDown) = Throw (Error "socket hang up")
      /\ is_ipfs_add (lastCall Standin.storageDown) = true
      /\ match lastCall Standin.proverDown with
         | EvFullProve _ (Throw _) => True
         | _ => False
         end).
Proof. vm_compute. repeat split. Qed.

(** C4 on the registered stand-in: the id returned is the 42 of the
    [MailSent] log. *)
Lemma sendMail_outcome_witness :
  let run :=
    @BaseMailerClient.sendMail Standin.crypto Standin.js Standin.ethers
      Standin.registered Standin.client Standin.params Standin.world0 in
  fst run = Ok (SendMailResponse.mk "42" "QmStandinHandle" "0xfeed")
  /\ exists proof tx,
       In (EvMailerSendMail proof (BytesUtil.cidToBytes32 "QmStandinHandle")
             "alice.base.eth@basemailer.com" "bob.base.eth@basemailer.com"
             (Ok tx))
          (newEvents Standin.world0 (snd run))
       /\ TransactionResponse.hash tx = "0xfeed".
Proof.
  cbv zeta.
  assert (Hrun :
    fst (@BaseMailerClient.sendMail Standin.crypto Standin.js Standin.ethers
           Standin.registered Standin.client Standin.params Standin.world0)
    = Ok (SendMailResponse.mk "42" "QmStandinHandle" "0xfeed")).
  { vm_compute. reflexivity. }
  split; [exact Hrun |].
  destruct (proj1 (@sendMail_outcome Standin.crypto Standin.js Standin.ethers
                     Standin.registered Standin.client Standin.params
                     Standin.service Standin.request Standin.world0) _ Hrun)
    as (pkg & proof & tx & receipt & extracted & _ & Hsubmit & _ & Hhash & _).
  exists proof, tx. split; [exact Hsubmit | symmetry; exact Hhash].
Defined.

(** The registry answers the zero address for the recipient: the dispatch
    neither fails nor stops, it encrypts, uploads and returns. *)
Lemma sendMail_unregistered_recipient_counterexample :
  let run :=
    @BaseMailerClient.sendMail Standin.crypto Standin.js Standin.ethers
      Standin.unregistered Standin.client Standin.params Standin.world0 in
  hd_error (trace (snd run))
    = Some (EvResolveEmail "bob.base.eth@basemailer.com"
              (Ok "0x0000000000000000000000000000000000000000"))
  /\ fst run = Ok (SendMailResponse.mk "0" "QmStandinHandle" "0xfeed")
  /\ List.length (filter is_cipher (trace (snd run))) = 1
  /\ List.length (filter is_ipfs_add (trace (snd run))) = 1.
Proof. vm_compute. repeat split. Qed.

(** C5 on the unregistered stand-in: the zero address goes to the
    resolver, the dispatch reaches its AES-GCM call and hands the sealed
    package to storage. *)
Lemma sendMail_recipient_gate_witness :
  let evs :=
    newEvents Standin.world0
      (snd (@BaseMailerClient.sendMail Standin.crypto Standin.js
              Standin.ethers Standin.unregistered Standin.client
              Standin.params Standin.world0)) in
  (exists key iv plaintext r, In (EvCipher key iv plaintext r) evs)
  /\ (exists pkg compress pin r, In (EvIpfsAdd pkg compress pin r) evs).
Proof.
  cbv zeta.
  destruct (@sendMail_recipient_gate Standin.crypto Standin.js
              Standin.ethers Standin.unregistered Standin.client
              Standin.params Standin.world0)
    as (_ & _ & Hcipher & Hupload).
  split.
  - eapply (Hcipher EmailService.zeroAddress); reflexivity.
  - edestruct (Hupload EmailService.zeroAddress) as [Hin _];
      [reflexivity | reflexivity | reflexivity | reflexivity |].
    do 4 eexists. eapply Hin. vm_compute. reflexivity.
Defined.

(** C10 on the stand-in service, whose verifier would reject every proof:
    the request is answered 200 and the transaction was submitted with
    the proof as it came. *)
Lemma postSendMail_skips_verification_without_key_witness :
  let run :=
    @EmailService.postSendMail Standin.js Standin.ethers Standin.registered
      Standin.service Standin.request Standin.world0 in
  filter is_verify (newEvents Standin.world0 (snd run)) = []
  /\ exists ans post,
       newEvents Standin.world0 (snd run)
       = [EvResolveEmail "alice.base.eth@basemailer.com"
            (Ok Standin.registeredOwner);
          EvCidStoreSet (BytesUtil.cidToBytes32 "QmStandinHandle")
            "QmStandinHandle";
          EvIpfsPinAdd "QmStandinHandle" (Ok tt)]
         ++ EvMailerSendMail "0xbad0"
              (BytesUtil.cidToBytes32 "QmStandinHandle")
              "alice.base.eth@basemailer.com" "bob.base.eth@basemailer.com" ans
            :: post.
Proof.
  cbv zeta.
  destruct (proj2 (@postSendMail_skips_verification_without_key
                     Standin.js Standin.ethers Standin.registered
                     Standin.service Standin.request Standin.world0)
              eq_refl)
    as (_ & Hnone & _ & _ & Hsubmit).
  split; [exact Hnone |].
  apply (Hsubmit "0xbad0" "QmStandinHandle" "alice.base.eth@basemailer.com"
           "bob.base.eth@basemailer.com" Standin.registeredOwner);
    try reflexivity; try discriminate.
Defined.

(** * Further properties *)

(** ** Hexadecimal strings: what [fromHex] reads and [assertHex] accepts *)

Section HexFacts.
Import Bytes.

Lemma hexValue_table (c : ascii) (h : N) :
  hexValue c = Some h -> In (h, lowerAscii c) hexTable.
Proof.
  destruct c as [[] [] [] [] [] [] [] []]; vm_compute; intros E;
    try discriminate; injection E as <-; tauto.
Qed.

Lemma byteToHex_pair (c1 c2 : ascii) (h l : N) :
  hexValue c1 = Some h -> hexValue c2 = Some l ->
  byteToHex (byte_of_N (16 * h + l))
  = String (lowerAscii c1) (String (lowerAscii c2) "").
Proof.
  intros H1 H2. apply hexValue_table in H1, H2.
  generalize dependent (lowerAscii c2). generalize dependent (lowerAscii c1).
  intros a1 H1 a2 H2. unfold hexTable in H1, H2.
  repeat (destruct H1 as [H1 | H1]; [injection H1 as <- <- |]);
    [.. | destruct H1];
    repeat (destruct H2 as [H2 | H2]; [injection H2 as <- <- |]);
    try (destruct H2); reflexivity.
Qed.

Lemma string_pair_ind (P : string -> Prop) :
  P "" -> (forall c, P (String c "")) ->
  (forall c1 c2 s, P s -> P (String c1 (String c2 s))) ->
  forall s, P s.
Proof.
  intros H0 H1 H2 s.
  assert (Hboth : P s /\ forall c, P (String c s)).
  { induction s as [|c s [IHs IHc]]; [split; [exact H0 | exact H1] |].
    split; [apply IHc |]. intros c0. apply H2. exact IHs. }
  exact (proj1 Hboth).
Qed.

(** On a string of hexadecimal digits the decoder reads every full pair,
    and what it read encodes back to the digits in lower case. *)
Lemma hexDecode_digits (s : string) :
  HexCheck.allHexDigits s = true ->
  List.length (hexDecode s) = (String.length s / 2)%nat
  /\ (Nat.even (String.length s) = true ->
      hexEncode (hexDecode s) = toLowerCase s).
Proof.
  induction s as [| c | c1 c2 s IH] using string_pair_ind; intros Hall.
  - split; reflexivity.
  - split; [reflexivity | discriminate].
  - cbn [HexCheck.allHexDigits] in Hall.
    apply andb_prop in Hall as [Hc1 Hall].
    apply andb_prop in Hall as [Hc2 Hall].
    unfold HexCheck.isHexDigit in Hc1, Hc2.
    destruct (hexValue c1) as [h |] eqn:E1; [| discriminate].
    destruct (hexValue c2) as [l |] eqn:E2; [| discriminate].
    destruct (IH Hall) as [Hlen Henc].
    cbn [hexDecode]. rewrite E1, E2. split.
    + cbn [List.length String.length]. rewrite Hlen.
      change (S (S (String.length s))) with (2 + String.length s)%nat.
      replace (2 + String.length s)%nat with (1 * 2 + String.length s)%nat
        by reflexivity.
      rewrite Nat.div_add_l by discriminate. reflexivity.
    + cbn [String.length Nat.even]. intros Heven.
      cbn [hexEncode toLowerCase].
      rewrite (byteToHex_pair c1 c2 h l E1 E2), (Henc Heven). reflexivity.
Qed.

(** The decoder stops at the first pair that is not made of two digits,
    and at a single digit left over. *)
Lemma hexDecode_stops (b : bytes) (c1 c2 : ascii) (rest : string) :
  HexCheck.isHexDigit c1 && HexCheck.isHexDigit c2 = false ->
  hexDecode (hexEncode b ++ String c1 (String c2 rest)) = b
  /\ hexDecode (hexEncode b ++ String c1 "") = b.
Proof.
  intros Hbad. induction b as [|x b [IH1 IH2]].
  - cbn [hexEncode hexDecode String.append]. split; [| reflexivity].
    unfold HexCheck.isHexDigit in Hbad.
    destruct (hexValue c1), (hexValue c2); try reflexivity. discriminate.
  - cbn [hexEncode].
    change ((byteToHex x ++ hexEncode b) ++ String c1 (String c2 rest))%string
      with (byteToHex x ++ (hexEncode b ++ String c1 (String c2 rest)))%string.
    change ((byteToHex x ++ hexEncode b) ++ String c1 "")%string
      with (byteToHex x ++ (hexEncode b ++ String c1 ""))%string.
    rewrite !hexDecode_byteToHex, IH1, IH2. split; reflexivity.
Qed.

(** X1.  [fromHex] inverts [toHex]: every buffer is read back, byte for
    byte, from the string [toHex] makes of it; so [toHex] never maps two
    buffers to one string. *)
Theorem toHex_fromHex_roundtrip (a b : bytes) :
  fromHex (toHex b) = Ok b /\ (toHex a = toHex b -> a = b).
Proof.
  split; [apply fromHex_toHex |]. intros E.
  pose proof (fromHex_toHex a) as Ha. rewrite E, fromHex_toHex in Ha.
  injection Ha as <-. reflexivity.
Qed.

(** X2.  [fromHex] throws for one reason only, a missing "0x".  Digits
    that are not hexadecimal raise nothing: the bytes before the first
    pair that is not two hexadecimal digits are returned and the rest of
    the string is ignored, as is a single digit left at the end. *)
Theorem fromHex_stops_at_first_bad_digit :
  (forall (hex : string) (e : exn),
      fromHex hex = Throw e <->
      startsWith0x hex = false /\ e = Error "Hex string must start with 0x")
  /\ (forall (b : bytes) (c1 c2 : ascii) (rest : string),
        HexCheck.isHexDigit c1 && HexCheck.isHexDigit c2 = false ->
        fromHex (toHex b ++ String c1 (String c2 rest)) = Ok b
        /\ fromHex (toHex b ++ String c1 "") = Ok b).
Proof.
  split.
  - intros hex e. unfold fromHex.
    destruct (startsWith0x hex); cbn [negb]; split.
    + discriminate.
    + intros [Hf _]. discriminate.
    + intros E. injection E as <-. split; reflexivity.
    + intros [_ ->]. reflexivity.
  - intros b c1 c2 rest Hbad.
    destruct (hexDecode_stops b c1 c2 rest Hbad) as [H1 H2].
    unfold fromHex, toHex. cbn [String.append startsWith0x slice2].
    cbn. rewrite H1, H2. split; reflexivity.
Qed.

(** X3.  An input [assertHex] accepts is read by [fromHex] without
    truncation at a bad digit: one byte per full pair of digits after
    the prefix, which encode back to the input in lower case when the
    number of digits is even (with an odd number the last digit is
    lost).  Of the strings [toHex] makes, [assertHex] accepts all but the
    "0x" of the empty buffer. *)
Theorem assertHex_guards_fromHex (input label : string) :
  (HexCheck.assertHex input label = Ok tt ->
   exists bs : bytes,
     fromHex input = Ok bs
     /\ List.length bs = ((String.length input - 2) / 2)%nat
     /\ (Nat.even (String.length input) = true ->
         toHex bs = toLowerCase input))
  /\ (forall b : bytes,
        HexCheck.assertHex (toHex b) label = Ok tt <-> b <> []).
Proof.
  split.
  - unfold HexCheck.assertHex, HexCheck.test.
    destruct (startsWith0x input) eqn:Hprefix; [| discriminate].
    destruct (slice2 input =? "") eqn:Hempty; [discriminate |].
    destruct (HexCheck.allHexDigits (slice2 input)) eqn:Hall; [| discriminate].
    intros _. destruct input as [|c0 [|c1 digits]]; try discriminate.
    cbn [startsWith0x] in Hprefix. apply andb_prop in Hprefix as [E0 E1].
    apply Ascii.eqb_eq in E0, E1. subst c0 c1.
    cbn [slice2] in Hall. destruct (hexDecode_digits digits Hall) as [Hlen Henc].
    exists (hexDecode digits). unfold fromHex. cbn [startsWith0x slice2].
    split; [reflexivity | split].
    + cbn [String.length].
      replace (S (S (String.length digits)) - 2)%nat
        with (String.length digits) by lia.
      exact Hlen.
    + cbn [String.length Nat.even]. intros Heven. unfold toHex.
      rewrite (Henc Heven). reflexivity.
  - intros b. unfold HexCheck.assertHex, HexCheck.test, toHex.
    cbn [String.append startsWith0x slice2]. cbn [Ascii.eqb Bool.eqb andb].
    destruct b as [|x b].
    + cbn. split; [discriminate | intros Hne; contradiction Hne; reflexivity].
    + split; [discriminate |]. intros _.
      assert (Hne : (hexEncode (x :: b) =? "") = false).
      { cbn [hexEncode]. unfold byteToHex. reflexivity. }
      rewrite Hne. cbn [negb andb].
      assert (Hall : HexCheck.allHexDigits (hexEncode (x :: b)) = true).
      { generalize (x :: b). intros bs.
        induction bs as [|y bs IH]; [reflexivity |].
        cbn [hexEncode]. unfold byteToHex.
        cbn [String.append HexCheck.allHexDigits]. rewrite IH.
        destruct y; reflexivity. }
      rewrite Hall. reflexivity.
Qed.

End HexFacts.

(** X2 on the bytes 0xab 0xcd followed by "zz12" and by one digit. *)
Lemma fromHex_stops_at_first_bad_digit_witness :
  Bytes.fromHex "0xabcdzz12" = Ok [xab; xcd]
  /\ Bytes.fromHex "0xabcd1" = Ok [xab; xcd].
Proof.
  exact (proj2 fromHex_stops_at_first_bad_digit [xab; xcd] "z"%char "z"%char
           "12" eq_refl).
Defined.

(** X3 on an input in upper case with an even number of digits. *)
Lemma assertHex_guards_fromHex_witness :
  exists bs : bytes,
    Bytes.fromHex "0xAB01" = Ok bs
    /\ List.length bs = 2%nat
    /\ (Nat.even 6 = true -> Bytes.toHex bs = "0xab01").
Proof.
  exact (proj1 (assertHex_guards_fromHex "0xAB01" "key") eq_refl).
Defined.

(** ** The console logger *)

Section LoggerFacts.
Import ConsoleLogger.

(** X4.  The level of a logger is a threshold.  A silent logger writes
    nothing; any other logger writes every error, with the text
    "[BaseMailer][error] " before the message; and a logger that writes
    at one severity writes at every higher one: debug implies info, info
    implies warn, warn implies error. *)
Theorem shouldLog_threshold (self : t) (message : string)
    (meta : option string) :
  (level self = LvSilent ->
   debug self message meta = None /\ info self message meta = None
   /\ warn self message meta = None /\ error self message meta = None)
  /\ (level self <> LvSilent ->
      error self message meta
      = Some (mkLine LvError ("[BaseMailer][error] " ++ message)
                (match meta with Some m => m | None => "" end)))
  /\ (debug self message meta <> None -> info self message meta <> None)
  /\ (info self message meta <> None -> warn self message meta <> None)
  /\ (warn self message meta <> None -> error self message meta <> None).
Proof.
  destruct self as [[]]; unfold debug, info, warn, error, write;
    cbn [level]; repeat split; try intros Hl; repeat split; cbn in *;
    try discriminate; try reflexivity;
    try (exfalso; apply Hl; reflexivity).
Qed.

End LoggerFacts.

(** X4 on the logger an [EncryptionManager] makes for itself, at level
    warn: it stays quiet on info and writes the error. *)
Lemma shouldLog_threshold_witness :
  let logger := ConsoleLogger.new (Some ConsoleLogger.LvWarn) in
  ConsoleLogger.info logger "Registered email" None = None
  /\ ConsoleLogger.error logger "MAC verification failed" None
     = Some (ConsoleLogger.mkLine ConsoleLogger.LvError
               "[BaseMailer][error] MAC verification failed" "").
Proof.
  split; [reflexivity |].
  apply (proj1 (proj2 (shouldLog_threshold
                         (ConsoleLogger.new (Some ConsoleLogger.LvWarn))
                         "MAC verification failed" None))).
  discriminate.
Defined.

(** ** The encryption engine *)

Section EngineFacts.
Context {C : CryptoLib} `{JsLib} `{Env}.
Import EncryptionManager.

Lemma firstUsableKey_inv (draws rest : list bytes) (key : bytes) :
  firstUsableKey draws = Some (key, rest) ->
  exists (skipped : list bytes) (chunk : bytes),
    draws = skipped ++ chunk :: rest
    /\ key = Buffer.resize 32 chunk
    /\ Buffer.everyZero key = false
    /\ Forall (fun c => Buffer.everyZero (Buffer.resize 32 c) = true) skipped.
Proof.
  induction draws as [|chunk draws IH]; cbn [firstUsableKey]; [discriminate |].
  rewrite length_resize. cbn [Nat.eqb orb].
  destruct (Buffer.everyZero (Buffer.resize 32 chunk)) eqn:Ezero.
  - intros Hrest. destruct (IH Hrest) as (skipped & c & -> & Hkey & Hnz & Hall).
    exists (chunk :: skipped), c. repeat split; try assumption.
    constructor; assumption.
  - intros E. injection E as <- <-. exists [], chunk.
    repeat split; [exact Ezero | constructor].
Qed.

Lemma firstUsableKey_finds (draws : list bytes) (chunk : bytes) :
  In chunk draws -> Buffer.everyZero (Buffer.resize 32 chunk) = false ->
  exists key rest, firstUsableKey draws = Some (key, rest).
Proof.
  induction draws as [|c draws IH]; intros Hin Hnz; [destruct Hin |].
  cbn [firstUsableKey]. rewrite length_resize. cbn [Nat.eqb orb].
  destruct (Buffer.everyZero (Buffer.resize 32 c)) eqn:Ezero.
  - destruct Hin as [-> | Hin]; [congruence | exact (IH Hin Hnz)].
  - eexists. eexists. reflexivity.
Qed.

(** X5.  The key [generatePrivateKey] returns is 32 bytes long and not
    all zero: it is the first draw of the random source that is not all
    zero, the draws before it having been discarded; and as soon as the
    source has such a draw ahead, a key is returned.  Nothing is
    recorded in the trace. *)
Theorem generatePrivateKey_never_zero (w : World) :
  (forall (key : bytes) (w' : World),
      generatePrivateKey w = (Ok key, w') ->
      List.length key = 32%nat
      /\ Buffer.everyZero key = false
      /\ trace w' = trace w
      /\ exists (skipped : list bytes) (chunk : bytes),
           tape w = skipped ++ chunk :: tape w'
           /\ key = Buffer.resize 32 chunk
           /\ Forall
                (fun c => Buffer.everyZero (Buffer.resize 32 c) = true)
                skipped)
  /\ (forall chunk : bytes,
        In chunk (tape w) ->
        Buffer.everyZero (Buffer.resize 32 chunk) = false ->
        exists key w', generatePrivateKey w = (Ok key, w')).
Proof.
  split.
  - intros key w'. unfold generatePrivateKey.
    destruct (firstUsableKey (tape w)) as [[k rest] |] eqn:Efirst;
      [| discriminate].
    intros E. injection E as <- <-.
    destruct (firstUsableKey_inv _ _ _ Efirst)
      as (skipped & chunk & Htape & Hkey & Hnz & Hall).
    split; [rewrite Hkey; apply length_resize |].
    split; [exact Hnz | split; [reflexivity |]].
    exists skipped, chunk. cbn [tape]. repeat split; assumption.
  - intros chunk Hin Hnz. unfold generatePrivateKey.
    destruct (firstUsableKey_finds _ _ Hin Hnz) as (key & rest & ->).
    eexists. eexists. reflexivity.
Qed.

Lemma randomBytes_Ok_inv (n : nat) (w w' : World) (drawn : bytes) :
  randomBytes n w = (Ok drawn, w') -> List.length drawn = n.
Proof.
  unfold randomBytes. destruct (tape w); [discriminate |].
  intros E. injection E as <- _. apply length_resize.
Qed.

(** What a run of [encrypt] that returns has computed. *)
Lemma encrypt_Ok_inv (self : EncryptionManager.t) (content : MailContent.t)
    (publicKeyHex : string) (w w1 : World) (pkg : EncryptedMailPackage.t) :
  encrypt self content publicKeyHex w = (Ok pkg, w1) ->
  let timestamp :=
    match MailContent.timestamp content with
    | Some ts => ts
    | None => Date_now (trace w)
    end in
  exists symmetricKey iv ciphertext authTag pk ephemeralPrivateKey
         ephemeralPublicKey secret maskKey macKey : bytes,
    List.length symmetricKey = 32%nat
    /\ List.length iv = 12%nat
    /\ aes256gcmEncrypt symmetricKey iv
         (Bytes.toUtf8Bytes
            (JSON_stringify_content
               (MailContent.with_timestamp content timestamp)))
       = Ok (ciphertext, authTag)
    /\ normalizePublicKey publicKeyHex = Ok pk
    /\ getPublicKey ephemeralPrivateKey = Ok ephemeralPublicKey
    /\ computeSharedSecret ephemeralPrivateKey pk = Ok secret
    /\ Hkdf.deriveKey secret "basemailer-mask" 32 = Ok maskKey
    /\ Hkdf.deriveKey secret "basemailer-mac" 32 = Ok macKey
    /\ pkg =
       EncryptedMailPackage.mk (version self)
         (EncryptedContentPayload.mk "AES-256-GCM" (Bytes.toHex ciphertext)
            (Bytes.toHex iv) (Bytes.toHex authTag))
         (EncryptedKeyPayload.mk "ECIES-secp256k1"
            (Bytes.toHex ephemeralPublicKey)
            (Bytes.toHex (xorMask symmetricKey maskKey))
            (Bytes.toHex (hmacSha256 macKey (xorMask symmetricKey maskKey))))
         (MailMetadata.mk (version self) timestamp
            (Z.of_nat (List.length ciphertext
                       + List.length (xorMask symmetricKey maskKey)))
            "mail").
Proof.
  intros Henc. cbv zeta. unfold encrypt in Henc.
  apply bind_Ok_inv in Henc as (ts & w' & Hts & Henc).
  assert (Ets : ts = match MailContent.timestamp content with
                     | Some t => t
                     | None => Date_now (trace w)
                     end).
  { destruct (MailContent.timestamp content).
    - apply ret_Ok_inv in Hts as [Hts _]. symmetry. exact Hts.
    - unfold now in Hts. injection Hts as <- _. reflexivity. }
  rewrite <- Ets. clear Ets Hts.
  apply bind_Ok_inv in Henc as (symmetricKey & wk & Hkey & Henc).
  apply bind_Ok_inv in Henc as (iv & wi & Hiv & Henc).
  apply bind_Ok_inv in Henc as ([ciphertext authTag] & wc & Haes & Henc).
  apply call_Ok_inv in Haes as [Haes _].
  apply bind_Ok_inv in Henc as (pk & wp & Hnorm & Henc).
  apply lift_Ok_inv in Hnorm as [Hnorm _].
  apply bind_Ok_inv in Henc as (wrapped & ww & Hwrap & Henc).
  apply ret_Ok_inv in Henc as [<- _].
  unfold wrapSymmetricKey in Hwrap.
  apply bind_Ok_inv in Hwrap as (ephemeralPrivateKey & we & _ & Hwrap).
  apply bind_Ok_inv in Hwrap as (ephemeralPublicKey & w3 & Heph & Hwrap).
  apply lift_Ok_inv in Heph as [Heph _].
  apply bind_Ok_inv in Hwrap as (sharedSecret & w4 & Hshared & Hwrap).
  apply lift_Ok_inv in Hshared as [Hshared _].
  apply bind_Ok_inv in Hwrap as (maskKey & w5 & Hmask & Hwrap).
  apply lift_Ok_inv in Hmask as [Hmask _].
  apply bind_Ok_inv in Hwrap as (macKey & w6 & Hmac & Hwrap).
  apply lift_Ok_inv in Hmac as [Hmac _].
  apply ret_Ok_inv in Hwrap as [<- _].
  exists symmetricKey, iv, ciphertext, authTag, pk, ephemeralPrivateKey,
    ephemeralPublicKey, sharedSecret, maskKey, macKey.
  split; [exact (randomBytes_Ok_inv _ _ _ _ Hkey) |].
  split; [exact (randomBytes_Ok_inv _ _ _ _ Hiv) |].
  repeat split; assumption.
Qed.

(** X6.  Every package [encrypt] returns carries the version of the
    engine in both places, the two algorithm names and the content type
    "mail"; its nonce is 12 bytes and its wrapped key 32 bytes, both in
    hexadecimal; its size is the number of ciphertext bytes plus those
    32; and its timestamp is the one of the content, or the reading of
    the clock when the content has none. *)
Theorem encrypt_package_shape (self : EncryptionManager.t)
    (content : MailContent.t) (publicKeyHex : string) (w w1 : World)
    (pkg : EncryptedMailPackage.t) :
  encrypt self content publicKeyHex w = (Ok pkg, w1) ->
  let ec := EncryptedMailPackage.encryptedContent pkg in
  let ek := EncryptedMailPackage.encryptedKey pkg in
  let md := EncryptedMailPackage.metadata pkg in
  EncryptedMailPackage.version pkg = version self
  /\ MailMetadata.version md = version self
  /\ MailMetadata.contentType md = "mail"
  /\ EncryptedContentPayload.algorithm ec = "AES-256-GCM"
  /\ EncryptedKeyPayload.algorithm ek = "ECIES-secp256k1"
  /\ MailMetadata.timestamp md
     = match MailContent.timestamp content with
       | Some ts => ts
       | None => Date_now (trace w)
       end
  /\ exists iv wrappedKey ciphertext : bytes,
       Bytes.fromHex (EncryptedContentPayload.iv ec) = Ok iv
       /\ List.length iv = 12%nat
       /\ Bytes.fromHex (EncryptedKeyPayload.ciphertext ek) = Ok wrappedKey
       /\ List.length wrappedKey = 32%nat
       /\ Bytes.fromHex (EncryptedContentPayload.ciphertext ec) = Ok ciphertext
       /\ MailMetadata.size md = Z.of_nat (List.length ciphertext + 32).
Proof.
  intros Henc.
  destruct (encrypt_Ok_inv _ _ _ _ _ _ Henc)
    as (symmetricKey & iv & ciphertext & authTag & pk & esk & epk & secret
        & maskKey & macKey & Lkey & Liv & _ & _ & _ & _ & _ & _ & ->).
  cbv zeta.
  cbn [EncryptedMailPackage.version EncryptedMailPackage.encryptedContent
       EncryptedMailPackage.encryptedKey EncryptedMailPackage.metadata
       MailMetadata.version MailMetadata.contentType MailMetadata.timestamp
       MailMetadata.size EncryptedContentPayload.algorithm
       EncryptedContentPayload.iv EncryptedContentPayload.ciphertext
       EncryptedKeyPayload.algorithm EncryptedKeyPayload.ciphertext].
  assert (Lwrapped : List.length (xorMask symmetricKey maskKey) = 32%nat).
  { unfold xorMask. rewrite length_xorMaskFrom. exact Lkey. }
  do 6 (split; [reflexivity |]).
  exists iv, (xorMask symmetricKey maskKey), ciphertext.
  rewrite !fromHex_toHex, Lwrapped. repeat split; assumption.
Qed.

(** X8.  [decrypt] takes the private key with or without its "0x", and
    checks its length before anything else can fail: a key that does not
    decode to exactly 32 bytes makes [decrypt] throw "Private key must
    be 32 bytes" at once, whatever the package holds, with nothing
    computed and nothing recorded. *)
Theorem decrypt_checks_private_key (self : EncryptionManager.t)
    (pkg : EncryptedMailPackage.t) (privateKeyHex : string) (w : World) :
  (Bytes.startsWith0x privateKeyHex = false ->
   decrypt self pkg ("0x" ++ privateKeyHex) w
   = decrypt self pkg privateKeyHex w)
  /\ (List.length
        (Bytes.hexDecode
           (if Bytes.startsWith0x privateKeyHex
            then Bytes.slice2 privateKeyHex else privateKeyHex)) <> 32%nat ->
      decrypt self pkg privateKeyHex w
      = (Throw (Error "Private key must be 32 bytes"), w)).
Proof.
  split.
  - intros Hprefix. unfold decrypt, unwrapSymmetricKey, normalizePrivateKey,
      ensureHexPrefix.
    rewrite Hprefix. reflexivity.
  - intros Hlen. unfold decrypt, unwrapSymmetricKey.
    destruct (normalizePublicKey_total
                (EncryptedKeyPayload.ephemeralPublicKey
                   (EncryptedMailPackage.encryptedKey pkg))) as [epk Hepk].
    assert (Hsk : normalizePrivateKey privateKeyHex
                  = Throw (Error "Private key must be 32 bytes")).
    { unfold normalizePrivateKey, ensureHexPrefix, Bytes.fromHex.
      destruct (Bytes.startsWith0x privateKeyHex) eqn:Hprefix.
      - rewrite Hprefix. cbn [negb].
        apply Nat.eqb_neq in Hlen. rewrite Hlen. reflexivity.
      - cbn [String.append Bytes.startsWith0x Bytes.slice2 Ascii.eqb
             Bool.eqb andb negb].
        apply Nat.eqb_neq in Hlen. rewrite Hlen. reflexivity. }
    unfold bind, lift. rewrite Hepk, Hsk. reflexivity.
Qed.

End EngineFacts.

Section StampedRoundTrip.
Context {C : CryptoLib} {L : CryptoLaws C} `{JsLib} `{Env}.
Import EncryptionManager.

(** X7.  A content without timestamp is stamped by [encrypt] with the
    reading of the clock, and that is what the recipient gets: for a
    recipient key pair, [decrypt] returns the content with this reading
    as its timestamp, the same reading the metadata of the package
    carry. *)
Theorem decrypt_encrypt_stamps_clock
    (sender receiver : EncryptionManager.t) (content : MailContent.t)
    (privateKeyHex publicKeyHex : string) (w w1 w2 : World)
    (pkg : EncryptedMailPackage.t) :
  MailContent.timestamp content = None ->
  json_faithful (MailContent.with_timestamp content (Date_now (trace w))) ->
  recipient_keypair privateKeyHex publicKeyHex ->
  encrypt sender content publicKeyHex w = (Ok pkg, w1) ->
  fst (decrypt receiver pkg privateKeyHex w2)
    = Ok (MailContent.with_timestamp content (Date_now (trace w)))
  /\ MailMetadata.timestamp (EncryptedMailPackage.metadata pkg)
     = Date_now (trace w).
Proof.
  intros Hts Hjson (sk & pk & Hsk & Hpk & Hpub) Henc.
  destruct (encrypt_Ok_inv _ _ _ _ _ _ Henc)
    as (symmetricKey & iv & ciphertext & authTag & pk' & esk & epk & secret
        & maskKey & macKey & _ & _ & Haes & Hnorm & Heph & Hshared & Hmask
        & Hmac & ->).
  rewrite Hts in *. rewrite Hpub in Hnorm. injection Hnorm as <-.
  split; [| reflexivity].
  assert (Hshared' : computeSharedSecret sk epk = Ok secret).
  { unfold computeSharedSecret in *.
    rewrite (ecdh_agreement sk esk pk epk Hpk Heph). exact Hshared. }
  unfold decrypt, unwrapSymmetricKey, bind, lift, call, emit, ret.
  cbn [EncryptedMailPackage.encryptedKey EncryptedMailPackage.encryptedContent
       EncryptedKeyPayload.ephemeralPublicKey EncryptedKeyPayload.ciphertext
       EncryptedKeyPayload.mac EncryptedContentPayload.iv
       EncryptedContentPayload.ciphertext EncryptedContentPayload.authTag].
  rewrite normalizePublicKey_toHex, Hsk, Hshared', Hmask, Hmac.
  rewrite !fromHex_toHex, equals_refl.
  cbn [negb fst snd].
  rewrite xorMask_involutive.
  rewrite (aes_gcm_correct _ _ _ _ _ Haes).
  cbn [fst].
  rewrite utf8ToString_toUtf8Bytes. exact Hjson.
Qed.

End StampedRoundTrip.

(** ** The mail store and the commitment map *)

Section StoreFacts.
Context {V : Type}.

Lemma map_get_set_other (k k0 : string) (v : V) (m : Js.Map V) :
  k0 <> k -> Js.map_get k0 (Js.map_set k v m) = Js.map_get k0 m.
Proof.
  intros Hne. induction m as [|[k' v'] m IH]; simpl.
  - destruct (k0 =? k) eqn:E; [| reflexivity].
    apply String.eqb_eq in E. contradiction.
  - destruct (k =? k') eqn:E; simpl.
    + apply String.eqb_eq in E. subst k'.
      destruct (k0 =? k) eqn:E0; [| reflexivity].
      apply String.eqb_eq in E0. contradiction.
    + rewrite IH. reflexivity.
Qed.

Lemma in_map_set (k : string) (v x : V) (k0 : string) (m : Js.Map V) :
  NoDup (Js.map_keys m) ->
  In (k0, x) (Js.map_set k v m)
  <-> (k0 = k /\ x = v) \/ (k0 <> k /\ In (k0, x) m).
Proof.
  induction m as [|[k' v'] m IH]; simpl; intros ND.
  - split.
    + intros [E | []]. injection E as <- <-. left. split; reflexivity.
    + intros [[-> ->] | [_ []]]. left. reflexivity.
  - inversion ND as [|? ? Hnotin ND']; subst.
    destruct (k =? k') eqn:E; simpl.
    + apply String.eqb_eq in E. subst k'. split.
      * intros [E | Hin].
        -- injection E as <- <-. left. split; reflexivity.
        -- right. split; [| right; exact Hin].
           intros ->. apply Hnotin. apply (in_map fst) in Hin. exact Hin.
      * intros [[-> ->] | [Hne [E | Hin]]].
        -- left. reflexivity.
        -- injection E as -> _. contradiction Hne. reflexivity.
        -- right. exact Hin.
    + apply String.eqb_neq in E. rewrite (IH ND'). split.
      * intros [E' | [[-> ->] | [Hne Hin]]].
        -- injection E' as <- <-. right. split; [| left; reflexivity].
           intros ->. contradiction E. reflexivity.
        -- left. split; reflexivity.
        -- right. split; [exact Hne | right; exact Hin].
      * intros [[-> ->] | [Hne [E' | Hin]]].
        -- right. left. split; reflexivity.
        -- left. exact E'.
        -- right. right. split; assumption.
Qed.

End StoreFacts.

Section MailStoreFacts.
Import InMemoryMailStore.

Lemma indexed_save (mail : StoredMail.t) (m : Js.Map StoredMail.t) :
  indexed m -> indexed (Js.map_set (StoredMail.mailId mail) mail m).
Proof.
  intros [ND Hkeys]. split; [apply map_set_NoDup; exact ND |].
  apply Forall_forall. intros [k x] Hin.
  apply (in_map_set _ _ _ _ _ ND) in Hin as [[-> ->] | [_ Hin]].
  - reflexivity.
  - rewrite Forall_forall in Hkeys. exact (Hkeys _ Hin).
Qed.

(** The records of an index after a [save]: the saved one, and the
    records under other mail ids. *)
Lemma values_after_save (mail x : StoredMail.t) (m : Js.Map StoredMail.t) :
  indexed m ->
  In x (Js.map_values (Js.map_set (StoredMail.mailId mail) mail m))
  <-> x = mail
      \/ (In x (Js.map_values m)
          /\ StoredMail.mailId x <> StoredMail.mailId mail).
Proof.
  intros [ND Hkeys]. rewrite Forall_forall in Hkeys.
  unfold Js.map_values. rewrite !in_map_iff. split.
  - intros ([k y] & Hy & Hin). cbn [snd] in Hy. subst y.
    apply (in_map_set _ _ _ _ _ ND) in Hin as [[_ ->] | [Hne Hin]].
    + left. reflexivity.
    + right. split; [exists (k, x); split; [reflexivity | exact Hin] |].
      pose proof (Hkeys _ Hin) as Hk. cbn [fst snd] in Hk.
      rewrite <- Hk. exact Hne.
  - intros [-> | (([k y] & Hy & Hin) & Hne)].
    + exists (StoredMail.mailId mail, mail). split; [reflexivity |].
      apply (in_map_set _ _ _ _ _ ND). left. split; reflexivity.
    + cbn [snd] in Hy. subst y. exists (k, x). split; [reflexivity |].
      apply (in_map_set _ _ _ _ _ ND). right. split; [| exact Hin].
      pose proof (Hkeys _ Hin) as Hk. cbn [fst snd] in Hk.
      rewrite Hk. exact Hne.
Qed.

(** X9.  [save] is an upsert keyed by the mail id.  After it, [get]
    answers the saved record under its id and what it answered before
    under every other id.  In an index as the store builds it, the
    inbox of an address then lists the saved record if it is addressed
    there, and otherwise exactly the records it listed before under
    other mail ids: an earlier version of the same mail is gone from
    every inbox.  The same holds for the sent boxes, and the index
    stays one record per id. *)
Theorem mailStore_save_upserts (mail : StoredMail.t) (w : World) :
  let w' := snd (save mail w) in
  fst (get (StoredMail.mailId mail) w') = Ok (Some mail)
  /\ (forall mailId : string,
        mailId <> StoredMail.mailId mail ->
        fst (get mailId w') = fst (get mailId w))
  /\ (indexed (mails w) ->
      indexed (mails w')
      /\ forall (email : string) (x : StoredMail.t)
                (inbox inbox' sentbox sentbox' : list StoredMail.t),
           fst (getInbox email w) = Ok inbox ->
           fst (getInbox email w') = Ok inbox' ->
           fst (getSentbox email w) = Ok sentbox ->
           fst (getSentbox email w') = Ok sentbox' ->
           (In x inbox' <->
            (x = mail /\ StoredMail.recipientEmail mail = email)
            \/ (In x inbox
                /\ StoredMail.mailId x <> StoredMail.mailId mail))
           /\ (In x sentbox' <->
               (x = mail /\ StoredMail.senderEmail mail = email)
               \/ (In x sentbox
                   /\ StoredMail.mailId x <> StoredMail.mailId mail))).
Proof.
  cbv zeta. unfold save, get, getInbox, getSentbox. cbn [fst snd mails].
  split; [rewrite map_get_set_same; reflexivity |].
  split; [intros mailId Hne; rewrite map_get_set_other by exact Hne;
          reflexivity |].
  intros Hidx. split; [apply indexed_save; exact Hidx |].
  intros email x inbox inbox' sentbox sentbox' Ei Ei' Es Es'.
  injection Ei as <-. injection Ei' as <-.
  injection Es as <-. injection Es' as <-.
  rewrite !filter_In, (values_after_save mail x _ Hidx), !String.eqb_eq.
  split; split.
  - intros [[-> | [Hin Hne]] Hrcpt].
    + left. split; [reflexivity | exact Hrcpt].
    + right. split; [split; assumption | exact Hne].
  - intros [[-> Hrcpt] | [[Hin Hrcpt] Hne]].
    + split; [left; reflexivity | exact Hrcpt].
    + split; [right; split; assumption | exact Hrcpt].
  - intros [[-> | [Hin Hne]] Hsnd].
    + left. split; [reflexivity | exact Hsnd].
    + right. split; [split; assumption | exact Hne].
  - intros [[-> Hsnd] | [[Hin Hsnd] Hne]].
    + split; [left; reflexivity | exact Hsnd].
    + split; [right; split; assumption | exact Hsnd].
Qed.

End MailStoreFacts.

(** ** What a dispatch leaves in the commitment map *)

Section ClientStore.
Context `{CryptoLib} `{JsLib} `{EthersLib} `{Env}.

Lemma generateProof_cidStore (inputs : ProofInputs.t) (w w' : World)
    (proof : ProofResult.t) :
  ProofGenerator.generateProof inputs w = (Ok proof, w') ->
  cidStore w' = cidStore w.
Proof.
  unfold ProofGenerator.generateProof. intros Hrun.
  apply bind_Ok_inv in Hrun as ([p signals] & w1 & Hcall & Hrun).
  apply call_Ok_inv in Hcall as [_ ->].
  apply bind_Ok_inv in Hrun as (packed & w2 & Hpack & Hrun).
  apply lift_Ok_inv in Hpack as [_ ->].
  apply ret_Ok_inv in Hrun as [_ ->]. reflexivity.
Qed.

(** X10.  When [sendMail] returns, the commitment map of the client
    answers the handle it returned for the commitment of that handle: the
    entry written before the submission is still there at the end. *)
Theorem sendMail_leaves_commitment_resolvable (self : BaseMailerClient.t)
    (params : SendMailParams.t) (w w' : World) (resp : SendMailResponse.t) :
  BaseMailerClient.sendMail self params w = (Ok resp, w') ->
  fst (InMemoryCidStore.get
         (BytesUtil.cidToBytes32 (SendMailResponse.cid resp)) w')
  = Ok (Some (SendMailResponse.cid resp)).
Proof.
  unfold BaseMailerClient.sendMail. destruct (negb _); [discriminate |].
  intros Hrun.
  apply bind_Ok_inv in Hrun as (recipient & w1 & _ & Hrun).
  apply bind_Ok_inv in Hrun as (timestamp & w2 & _ & Hrun).
  apply bind_Ok_inv in Hrun as (encrypted & w3 & _ & Hrun).
  apply bind_Ok_inv in Hrun as (cid & w4 & _ & Hrun).
  apply bind_Ok_inv in Hrun as ([] & w5 & Hset & Hrun).
  apply bind_Ok_inv in Hrun as (proof & w6 & Hproof & Hrun).
  apply bind_Ok_inv in Hrun as (tx & w7 & Hsubmit & Hrun).
  apply bind_Ok_inv in Hrun as (receipt & w8 & Hwait & Hrun).
  apply bind_Ok_inv in Hrun as (mailId & w9 & Hextract & Hrun).
  apply ret_Ok_inv in Hrun as [<- ->].
  apply lift_Ok_inv in Hextract as [_ ->].
  apply call_Ok_inv in Hwait as [_ ->].
  apply call_Ok_inv in Hsubmit as [_ ->].
  apply generateProof_cidStore in Hproof.
  unfold InMemoryCidStore.set in Hset. injection Hset as <-.
  unfold InMemoryCidStore.get.
  cbn [fst snd SendMailResponse.cid cidStore log_event] in *.
  rewrite Hproof. cbn [cidStore]. rewrite map_get_set_same. reflexivity.
Qed.

End ClientStore.

(** ** Ingestion: the listener, the catch-up and the start of the service *)

Section IngestionMore.
Context `{JsLib} `{EthersLib} `{Env}.
Import EmailService.

Lemma toString_nonempty (z : Z) : Js.toString z <> "".
Proof.
  unfold Js.toString. destruct (Z.to_int z) as [d | d]; cbn.
  - destruct d; discriminate.
  - discriminate.
Qed.

Lemma truthy_toString (z : Z) : Js.truthy (Some (Js.toString z)) = true.
Proof. apply truthy_nonempty, toString_nonempty. Qed.

(** [Number] keeps every integer of magnitude up to 2^53. *)
Lemma Number_exact (n : Z) : (Z.abs n <= 2 ^ 53)%Z -> Js.Number n = n.
Proof.
  intros Hn. unfold Js.Number.
  destruct (Z.eq_dec (Z.abs n) (2 ^ 53)%Z) as [Heq | Hne].
  - destruct (Z.abs_eq_or_opp n) as [E | E]; rewrite E in Heq.
    + subst n. vm_compute. reflexivity.
    + assert (n = (- 2 ^ 53)%Z) as -> by lia. vm_compute. reflexivity.
  - destruct (Z.eq_dec (Z.abs n) 0%Z) as [Hz | Hnz].
    + rewrite Hz. reflexivity.
    + assert (Hlog : (Z.log2 (Z.abs n) < 53)%Z)
        by (apply Z.log2_lt_pow2; lia).
      destruct (Z.leb_spec (Z.log2 (Z.abs n) + 1 - 53) 0)%Z;
        [reflexivity | lia].
Qed.

(** Above 2^53 it rounds to the nearest double, a tie going to the even
    significand. *)
Example Number_rounds :
  (Js.Number (2 ^ 53 + 1) = 2 ^ 53
   /\ Js.Number (2 ^ 53 + 2) = 2 ^ 53 + 2
   /\ Js.Number (2 ^ 53 + 3) = 2 ^ 53 + 4
   /\ Js.Number (2 ^ 64 - 1) = 2 ^ 64
   /\ Js.Number (- (2 ^ 53 + 1)) = - 2 ^ 53)%Z.
Proof. vm_compute. repeat split. Qed.

(** X11.  The listener files a ledger event under its mail id with the
    handle the commitment map knows for its commitment, and with the
    commitment itself in the place of the handle when the map does not
    know it; [GET /api/mail/:mailId] then answers that record.  So an
    event whose commitment was remembered by [cidStore.set] is indexed
    with the remembered handle.  The timestamp of the record is the
    [Number] of the event's: the event's own up to 2^53, the nearest
    double beyond. *)
Theorem onMailSent_indexes_handle (args : MailSentArgs.t) (id : Z)
    (contentCID : string) (blockNumber : option Z) (txHash : option string)
    (w : World) :
  MailSentArgs.mailId args = Some id ->
  MailSentArgs.contentCID args = Some contentCID ->
  contentCID <> "" ->
  let w' := snd (onMailSent args blockNumber txHash w) in
  let handle :=
    match Js.map_get contentCID (cidStore w) with
    | Some cid => cid
    | None => contentCID
    end in
  fst (Routes.getMail (Js.toString id) w')
  = Ok (Routes.mkResponse 200
          (Routes.MailBody
             (StoredMail.mk (Js.toString id) handle contentCID
                (MailSentArgs.senderEmail args)
                (MailSentArgs.recipientEmail args)
                (Js.Number (MailSentArgs.timestamp args)) blockNumber
                txHash)))
  /\ cidStore w' = cidStore w
  /\ (forall (cid : string) (w0 : World),
        w = snd (InMemoryCidStore.set contentCID cid w0) -> handle = cid)
  /\ ((Z.abs (MailSentArgs.timestamp args) <= 2 ^ 53)%Z ->
      Js.Number (MailSentArgs.timestamp args) = MailSentArgs.timestamp args).
Proof.
  intros Hid Hcid Hne. cbv zeta. unfold onMailSent. rewrite Hid, Hcid.
  cbn [mailIdToString]. rewrite bind_ret.
  rewrite (persistEvent_run (Some (Js.toString id)) (Some contentCID)
             _ _ _ _ _ w (truthy_toString id) (truthy_nonempty _ Hne)).
  cbn [snd orEmpty cidStore].
  split; [| split; [reflexivity | split; [| apply Number_exact]]].
  - unfold Routes.getMail, InMemoryMailStore.get, bind. cbn [mails].
    rewrite map_get_set_same. reflexivity.
  - intros cid w0 ->. unfold InMemoryCidStore.set. cbn [snd cidStore].
    rewrite map_get_set_same. reflexivity.
Qed.

(** What one replayed event does to the index. *)
Lemma replayEvent_effect (event : EventLog.t) (w : World) :
  let run := replayEvent event w in
  cidStore (snd run) = cidStore w
  /\ ((mails (snd run) = mails w
       /\ forall args id contentCID,
            EventLog.args event = Some args ->
            MailSentArgs.mailId args = Some id ->
            MailSentArgs.contentCID args = Some contentCID ->
            contentCID = "")
      \/ exists (args : MailSentArgs.t) (id : Z) (record : StoredMail.t),
           EventLog.args event = Some args
           /\ MailSentArgs.mailId args = Some id
           /\ StoredMail.mailId record = Js.toString id
           /\ fst run = Ok tt
           /\ mails (snd run) = Js.map_set (Js.toString id) record (mails w))
  /\ (forall e, fst run = Throw e ->
      exists args, EventLog.args event = Some args
                   /\ MailSentArgs.mailId args = None)
  /\ fst run <> Diverge.
Proof.
  cbv zeta. unfold replayEvent.
  destruct (EventLog.args event) as [args |] eqn:Eargs.
  2:{ cbn [ret fst snd]. split; [reflexivity |].
      split; [left; split; [reflexivity | discriminate] |].
      split; discriminate. }
  destruct (MailSentArgs.mailId args) as [id |] eqn:Eid; cbn [mailIdToString].
  2:{ unfold bind, throw. cbn [fst snd]. split; [reflexivity |].
      split; [left; split; [reflexivity |] |].
      - intros a i c Ea Ei. injection Ea as <-. congruence.
      - split; [| discriminate]. intros e _. exists args.
        split; [reflexivity | exact Eid]. }
  rewrite bind_ret.
  destruct (Js.truthy (MailSentArgs.contentCID args)) eqn:Ecid.
  - rewrite (persistEvent_run (Some (Js.toString id)) _ _ _ _ _ _ w
               (truthy_toString id) Ecid).
    cbn [fst snd cidStore mails orEmpty]. split; [reflexivity |].
    split; [| split; discriminate].
    right. eexists args, id, _.
    repeat split; try reflexivity. exact Eid.
  - rewrite (persistEvent_skip (Some (Js.toString id)) _ _ _ _ _ _ w
               (or_intror Ecid)).
    cbn [fst snd]. split; [reflexivity |].
    split; [| split; discriminate].
    left. split; [reflexivity |].
    intros a i c Ea Ei Ec. injection Ea as <-. rewrite Ec in Ecid.
    unfold Js.truthy in Ecid. destruct (c =? "") eqn:E; [| discriminate].
    apply String.eqb_eq in E. exact E.
Qed.

(** A record under a key stays under it, whatever else is saved. *)
Lemma filed_after_set (k k0 : string) (record : StoredMail.t)
    (m : Js.Map StoredMail.t) :
  StoredMail.mailId record = k ->
  (exists r, Js.map_get k0 m = Some r /\ StoredMail.mailId r = k0) ->
  exists r, Js.map_get k0 (Js.map_set k record m) = Some r
            /\ StoredMail.mailId r = k0.
Proof.
  intros Hk (r & Hget & Hr). destruct (String.eqb_spec k0 k) as [-> | Hne].
  - exists record. split; [apply map_get_set_same | exact Hk].
  - exists r. rewrite map_get_set_other by exact Hne. split; assumption.
Qed.

Lemma present_after_set (k k0 : string) (record : StoredMail.t)
    (m : Js.Map StoredMail.t) :
  Js.map_get k0 m <> None -> Js.map_get k0 (Js.map_set k record m) <> None.
Proof.
  intros Hget. destruct (String.eqb_spec k0 k) as [-> | Hne].
  - rewrite map_get_set_same. discriminate.
  - rewrite map_get_set_other by exact Hne. exact Hget.
Qed.

(** The loop does not unfile a record. *)
Lemma replayEvents_keeps_filed (events : list EventLog.t) (w : World)
    (key : string) :
  (exists r, Js.map_get key (mails w) = Some r /\ StoredMail.mailId r = key) ->
  exists r,
    Js.map_get key (mails (snd (replayEvents events w))) = Some r
    /\ StoredMail.mailId r = key.
Proof.
  revert w. induction events as [|event rest IH]; intros w Hfiled;
    [exact Hfiled |].
  cbn [replayEvents]. unfold bind.
  destruct (replayEvent_effect event w) as (_ & Hmails & _ & _).
  assert (Hstep : exists r,
            Js.map_get key (mails (snd (replayEvent event w))) = Some r
            /\ StoredMail.mailId r = key).
  { destruct Hmails as [[-> _] | (a & i & record & _ & _ & Hrec & _ & ->)];
      [exact Hfiled | apply filed_after_set; assumption]. }
  destruct (replayEvent event w) as [[[] | e |] w1]; cbn [snd] in *;
    [apply IH | |]; exact Hstep.
Qed.

(** X12.  The catch-up loop goes through as long as no entry with
    arguments lacks its mail id.  When it goes through, every replayed
    event that has a mail id and a commitment has a record under its
    id; records that were in the index are still under their keys, and
    the commitment map is as before. *)
Theorem replayEvents_indexes_every_event (events : list EventLog.t)
    (w : World) :
  let run := replayEvents events w in
  ((forall event args,
       In event events -> EventLog.args event = Some args ->
       MailSentArgs.mailId args <> None) ->
   fst run = Ok tt)
  /\ (fst run = Ok tt ->
      forall event args id contentCID,
        In event events ->
        EventLog.args event = Some args ->
        MailSentArgs.mailId args = Some id ->
        MailSentArgs.contentCID args = Some contentCID ->
        contentCID <> "" ->
        exists record : StoredMail.t,
          Js.map_get (Js.toString id) (mails (snd run)) = Some record
          /\ StoredMail.mailId record = Js.toString id)
  /\ (forall key : string,
        Js.map_get key (mails w) <> None ->
        Js.map_get key (mails (snd run)) <> None)
  /\ cidStore (snd run) = cidStore w.
Proof.
  cbv zeta. revert w.
  induction events as [|event rest IH]; intros w.
  { cbn [replayEvents ret fst snd]. split; [reflexivity |].
    split; [intros _ ? ? ? ? [] |]. split; [auto | reflexivity]. }
  cbn [replayEvents].
  destruct (replayEvent_effect event w) as (Hcid & Hmails & Hthrow & Hdiv).
  unfold bind.
  destruct (replayEvent event w) as [[[] | e |] w1] eqn:Erun;
    cbn [fst snd] in *.
  - destruct (IH w1) as (IHok & IHfiled & IHkept & IHcid).
    split; [| split; [| split]].
    + intros Hids. apply IHok. intros ev args Hin. apply Hids. right.
      exact Hin.
    + intros Hok ev args id contentCID [<- | Hin] Hargs Hid Hcc Hne.
      * destruct Hmails as [[_ Hnone] | (a & i & record & Ha & Hi & Hrec
                                          & _ & Hm)].
        -- contradiction Hne. exact (Hnone _ _ _ Hargs Hid Hcc).
        -- rewrite Hargs in Ha. injection Ha as <-.
           rewrite Hid in Hi. injection Hi as <-.
           assert (Hfiled : exists r,
                     Js.map_get (Js.toString id) (mails w1) = Some r
                     /\ StoredMail.mailId r = Js.toString id).
           { exists record. rewrite Hm. split;
               [apply map_get_set_same | exact Hrec]. }
           exact (replayEvents_keeps_filed rest w1 _ Hfiled).
      * exact (IHfiled Hok ev args id contentCID Hin Hargs Hid Hcc Hne).
    + intros key Hkey. apply IHkept.
      destruct Hmails as [[-> _] | (a & i & record & _ & _ & _ & _ & ->)];
        [exact Hkey | apply present_after_set; exact Hkey].
    + rewrite IHcid. exact Hcid.
  - split; [| split; [discriminate | split; [| exact Hcid]]].
    + intros Hids. destruct (Hthrow e eq_refl) as (args & Hargs & Hnone).
      exfalso. exact (Hids event args (or_introl eq_refl) Hargs Hnone).
    + intros key Hkey.
      destruct Hmails as [[-> _] | (a & i & record & _ & _ & _ & Hok & _)];
        [exact Hkey | discriminate].
  - contradiction Hdiv. reflexivity.
Qed.

End IngestionMore.

(** ** The catch-up and the subscription *)

Section Bootstrap.
Context `{JsLib} `{EthersLib} `{Env}.
Import EmailService.

Lemma newEvents_trans (w w1 w2 : World) (evs1 evs2 : list Event) :
  trace w1 = trace w ++ evs1 -> trace w2 = trace w1 ++ evs2 ->
  newEvents w w2 = evs1 ++ evs2.
Proof.
  intros Hfirst Hthen. apply newEvents_app.
  rewrite Hthen, Hfirst, app_assoc. reflexivity.
Qed.

Lemma emits_cidStore_get (p : Event -> bool) (key : string) :
  (forall r, p (EvCidStoreGet key r) = true) ->
  emits anyError p (InMemoryCidStore.get key).
Proof.
  intros Hp w. eexists [_]. cbn.
  split; [reflexivity | split; [rewrite Hp; reflexivity | discriminate]].
Qed.

Lemma replayEvents_emits (events : list EventLog.t) :
  emits anyError is_indexing (replayEvents events).
Proof.
  induction events as [|event rest IH]; cbn [replayEvents].
  - apply emits_ret.
  - apply emits_bind; [| intros _; exact IH].
    unfold replayEvent. destruct (EventLog.args event) as [args |];
      [| apply emits_ret].
    apply emits_bind.
    + unfold mailIdToString. destruct (MailSentArgs.mailId args);
        [apply emits_ret | apply emits_throw; exact I].
    + intros id. unfold persistEvent. destruct (_ || _); [apply emits_ret |].
      apply emits_bind; [apply emits_cidStore_get; reflexivity |].
      intros stored. apply emits_mailStore_save. reflexivity.
Qed.

Lemma indexing_not_subscribe (evs : list Event) :
  forallb is_indexing evs = true -> filter is_subscribe evs = [].
Proof.
  induction evs as [|ev evs IH]; cbn; [reflexivity |].
  intros Hall. apply andb_prop in Hall as [Hev Hall].
  destruct ev; try discriminate; cbn; exact (IH Hall).
Qed.

Lemma indexing_not_query (evs : list Event) (ev : Event) :
  forallb is_indexing evs = true -> In ev evs ->
  match ev with
  | EvQueryFilter _ _ _ | EvGetBlockNumber _ | EvMailerOn _ => False
  | _ => True
  end.
Proof.
  intros Hall Hin. rewrite forallb_forall in Hall. specialize (Hall _ Hin).
  destruct ev; try discriminate; exact I.
Qed.

(** The runs of [bootstrapFrom]: the head is read; below the start block
    the listener is registered at once; otherwise the range from the
    start block to the head is queried and replayed, and the listener is
    registered if nothing failed. *)
Lemma bootstrapFrom_cases (startBlock : Z) (w : World) :
  let run := bootstrapFrom startBlock w in
  let head := provider_getBlockNumber (trace w) in
  (fst run <> Ok tt /\ (forall c, head <> Ok c)
   /\ trace (snd run) = trace w ++ [EvGetBlockNumber head])
  \/ (exists current : Z,
        head = Ok current /\ (current < startBlock)%Z
        /\ run = (Ok tt,
                  log_event (EvMailerOn "MailSent")
                    (log_event (EvGetBlockNumber (Ok current)) w)))
  \/ (exists (current : Z) (r : outcome (list EventLog.t))
             (replayed : list Event),
        head = Ok current /\ (startBlock <= current)%Z
        /\ forallb is_indexing replayed = true
        /\ ((fst run = Ok tt
             /\ trace (snd run)
                = trace w
                  ++ [EvGetBlockNumber (Ok current);
                      EvQueryFilter startBlock current r]
                  ++ replayed ++ [EvMailerOn "MailSent"])
            \/ (fst run <> Ok tt
                /\ trace (snd run)
                   = trace w
                     ++ [EvGetBlockNumber (Ok current);
                         EvQueryFilter startBlock current r]
                     ++ replayed))).
Proof.
  cbv zeta. unfold bootstrapFrom, bind, call.
  destruct (provider_getBlockNumber (trace w)) as [current | e |] eqn:Ehead.
  2:{ left. cbn.
      split; [discriminate | split; [intros c; discriminate | reflexivity]]. }
  2:{ left. cbn.
      split; [discriminate | split; [intros c; discriminate | reflexivity]]. }
  destruct (current >=? startBlock)%Z eqn:Ecmp.
  2:{ right. left. exists current. split; [reflexivity |].
      split; [lia | reflexivity]. }
  right. right.
  set (w1 := log_event (EvGetBlockNumber (Ok current)) w).
  destruct (mailer_queryFilter (trace w1) startBlock current)
    as [events | e |] eqn:Equery.
  2:{ exists current, (Throw e), []. split; [reflexivity |].
      split; [lia | split; [reflexivity |]]. right. cbn.
      split; [discriminate |]. rewrite <- app_assoc. reflexivity. }
  2:{ exists current, Diverge, []. split; [reflexivity |].
      split; [lia | split; [reflexivity |]]. right. cbn.
      split; [discriminate |]. rewrite <- app_assoc. reflexivity. }
  set (w2 := log_event (EvQueryFilter startBlock current (Ok events)) w1).
  destruct (replayEvents_emits events w2) as (replayed & Ht & Hp & _).
  exists current, (Ok events), replayed.
  split; [reflexivity | split; [lia | split; [exact Hp |]]].
  destruct (replayEvents events w2) as [[[] | e |] w3]; cbn [fst snd] in *.
  - left. split; [reflexivity |]. unfold emit. cbn [snd log_event trace].
    rewrite Ht. subst w2 w1. cbn [log_event trace].
    rewrite <- !app_assoc. reflexivity.
  - right. split; [discriminate |]. rewrite Ht. subst w2 w1.
    cbn [log_event trace]. rewrite <- !app_assoc. reflexivity.
  - right. split; [discriminate |]. rewrite Ht. subst w2 w1.
    cbn [log_event trace]. rewrite <- !app_assoc. reflexivity.
Qed.

Lemma bootstrapFrom_facts (startBlock : Z) (w : World) :
  let run := bootstrapFrom startBlock w in
  exists evs : list Event,
    trace (snd run) = trace w ++ evs
    /\ (fst run = Ok tt ->
        exists before,
          evs = before ++ [EvMailerOn "MailSent"]
          /\ filter is_subscribe before = [])
    /\ (fst run <> Ok tt -> filter is_subscribe evs = [])
    /\ (forall fromBlock toBlock r,
          In (EvQueryFilter fromBlock toBlock r) evs ->
          fromBlock = startBlock /\ (fromBlock <= toBlock)%Z
          /\ In (EvGetBlockNumber (Ok toBlock)) evs).
Proof.
  cbv zeta.
  destruct (bootstrapFrom_cases startBlock w)
    as [(Hfail & _ & Ht)
       | [(current & Hhead & Hlt & Hrun)
         | (current & r & replayed & Hhead & Hle & Hp & Hend)]].
  - eexists. split; [exact Ht |]. split; [| split].
    + intros Hok. contradiction.
    + intros _. reflexivity.
    + intros f t r [E | []]. discriminate.
  - rewrite Hrun. cbn [fst snd log_event trace]. eexists. split.
    { rewrite <- app_assoc. reflexivity. }
    split; [| split].
    + intros _. exists [EvGetBlockNumber (Ok current)].
      split; reflexivity.
    + intros Hne. contradiction Hne. reflexivity.
    + intros f t r [E | [E | []]]; discriminate.
  - assert (Hquery : forall f t r' tail,
              In (EvQueryFilter f t r')
                 ([EvGetBlockNumber (Ok current);
                   EvQueryFilter startBlock current r]
                  ++ replayed ++ tail) ->
              (forall ev, In ev tail -> is_subscribe ev = true) ->
              f = startBlock /\ (f <= t)%Z
              /\ In (EvGetBlockNumber (Ok t))
                    ([EvGetBlockNumber (Ok current);
                      EvQueryFilter startBlock current r]
                     ++ replayed ++ tail)).
    { intros f t r' tail Hin Htail.
      cbn [app] in Hin. destruct Hin as [E | [E | Hin]]; [discriminate | |].
      - injection E as <- <- _. split; [reflexivity |].
        split; [exact Hle | left; reflexivity].
      - apply in_app_or in Hin as [Hin | Hin].
        + destruct (indexing_not_query _ _ Hp Hin).
        + specialize (Htail _ Hin). discriminate. }
    destruct Hend as [[Hok Ht] | [Hfail Ht]]; eexists;
      (split; [exact Ht |]); split; [| split | | split].
    + intros _. eexists. split; [rewrite !app_assoc; reflexivity |].
      rewrite filter_app, (indexing_not_subscribe _ Hp). reflexivity.
    + intros Hne. contradiction.
    + intros f t r' Hin. apply (Hquery f t r' _ Hin).
      intros ev [<- | []]. reflexivity.
    + intros Hok. contradiction.
    + intros _. rewrite filter_app, (indexing_not_subscribe _ Hp).
      reflexivity.
    + intros f t r' Hin.
      rewrite <- (app_nil_r replayed) in Hin |- *.
      apply (Hquery f t r' _ Hin). intros ev [].
Qed.

(** X13.  [bootstrapEvents] registers the [MailSent] listener last, and
    only if the catch-up went through: a run that returns ends with the
    one [mailer.on] of the run, and a run that fails (a head that cannot
    be read, a query or a replay that throws) registers no listener at
    all.  With a start block beyond the head nothing is queried.  Every
    query is for the range from the start block to the head that was
    just read, and with no start block configured that start is itself
    a reading of the head, so nothing older is replayed. *)
Theorem bootstrapEvents_subscribes_last (self : EmailService.t) (w : World) :
  let run := bootstrapEvents self w in
  let evs := newEvents w (snd run) in
  (fst run = Ok tt ->
   exists before,
     evs = before ++ [EvMailerOn "MailSent"]
     /\ filter is_subscribe before = [])
  /\ (fst run <> Ok tt -> filter is_subscribe evs = [])
  /\ (forall startBlock current : Z,
        eventStartBlock (config self) = Some startBlock ->
        provider_getBlockNumber (trace w) = Ok current ->
        (current < startBlock)%Z ->
        run = (Ok tt,
               log_event (EvMailerOn "MailSent")
                 (log_event (EvGetBlockNumber (Ok current)) w)))
  /\ (forall (fromBlock toBlock : Z) (r : outcome (list EventLog.t)),
        In (EvQueryFilter fromBlock toBlock r) evs ->
        (fromBlock <= toBlock)%Z
        /\ In (EvGetBlockNumber (Ok toBlock)) evs
        /\ match eventStartBlock (config self) with
           | Some startBlock => fromBlock = startBlock
           | None => In (EvGetBlockNumber (Ok fromBlock)) evs
           end).
Proof.
  cbv zeta.
  change (bootstrapEvents self)
    with (bind
            (match eventStartBlock (config self) with
             | Some b => ret b
             | None => call provider_getBlockNumber EvGetBlockNumber
             end) bootstrapFrom).
  destruct (eventStartBlock (config self)) as [b |].
  - rewrite bind_ret.
    destruct (bootstrapFrom_facts b w) as (evs & Ht & Hok & Hfail & Hquery).
    rewrite (newEvents_app _ _ _ Ht).
    split; [exact Hok | split; [exact Hfail | split]].
    + intros startBlock current E Hhead Hlt. injection E as <-.
      destruct (bootstrapFrom_cases b w)
        as [(_ & Hnone & _)
           | [(c & Hc & _ & Hrun) | (c & _ & _ & Hc & Hle & _)]].
      * contradiction (Hnone _ Hhead).
      * rewrite Hhead in Hc. injection Hc as <-. exact Hrun.
      * rewrite Hhead in Hc. injection Hc as <-. lia.
    + intros f t r Hin. destruct (Hquery f t r Hin) as (-> & Hle & Hget).
      repeat split; assumption.
  - destruct (provider_getBlockNumber (trace w)) as [s | e |] eqn:Ehead.
    + set (w1 := log_event (EvGetBlockNumber (Ok s)) w).
      assert (Hrun : bind (call provider_getBlockNumber EvGetBlockNumber)
                       bootstrapFrom w = bootstrapFrom s w1).
      { unfold bind, call. rewrite Ehead. reflexivity. }
      rewrite Hrun.
      destruct (bootstrapFrom_facts s w1) as (evs & Ht & Hok & Hfail & Hquery).
      rewrite (newEvents_trans w w1 _ [EvGetBlockNumber (Ok s)] evs
                 eq_refl Ht).
      split; [| split; [| split]].
      * intros Hret. destruct (Hok Hret) as (before & -> & Hnone).
        exists (EvGetBlockNumber (Ok s) :: before).
        split; [reflexivity | exact Hnone].
      * intros Hret. cbn [app filter is_subscribe]. exact (Hfail Hret).
      * discriminate.
      * intros f t r [E | Hin]; [discriminate |].
        destruct (Hquery f t r Hin) as (-> & Hle & Hget).
        split; [exact Hle | split; [right; exact Hget | left; reflexivity]].
    + assert (Hrun : bind (call provider_getBlockNumber EvGetBlockNumber)
                       bootstrapFrom w
                     = (Throw e, log_event (EvGetBlockNumber (Throw e)) w)).
      { unfold bind, call. rewrite Ehead. reflexivity. }
      rewrite Hrun. cbn [fst snd]. rewrite newEvents_log1.
      split; [discriminate | split; [reflexivity | split; [discriminate |]]].
      intros f t r [E | []]. discriminate.
    + assert (Hrun : bind (call provider_getBlockNumber EvGetBlockNumber)
                       bootstrapFrom w
                     = (Diverge, log_event (EvGetBlockNumber Diverge) w)).
      { unfold bind, call. rewrite Ehead. reflexivity. }
      rewrite Hrun. cbn [fst snd]. rewrite newEvents_log1.
      split; [discriminate | split; [reflexivity | split; [discriminate |]]].
      intros f t r [E | []]. discriminate.
Qed.

End Bootstrap.

(** ** The start of the service *)

Section ServiceStart.
Context `{JsLib} `{EthersLib} `{Env}.
Import EmailService.

(** X14.  A service configured with a [verificationKeyPath] reads and
    parses that file first when it starts.  Once the file is read and
    parsed, the parsed key is the key of the service from then on,
    whatever becomes of the catch-up that follows; and when the file
    cannot be read, or its content cannot be parsed, [start] throws that
    error at once, before anything is asked of the ledger. *)
Theorem start_loads_verification_key (self : EmailService.t) (w : World)
    (path : string) :
  verificationKeyPath (config self) = Some path ->
  path <> "" ->
  let run := start self w in
  (forall (raw : string) (key : VerificationKey),
      fs_readFile (trace w) path = Ok raw ->
      JSON_parse_key raw = Ok key ->
      verificationKey (snd run) = Some key
      /\ hd_error (newEvents w (snd run)) = Some (EvReadFile path (Ok raw)))
  /\ (forall e : exn,
        fs_readFile (trace w) path = Throw e ->
        run = (Throw e, log_event (EvReadFile path (Throw e)) w))
  /\ (forall (raw : string) (e : exn),
        fs_readFile (trace w) path = Ok raw ->
        JSON_parse_key raw = Throw e ->
        run = (Throw e, log_event (EvReadFile path (Ok raw)) w)).
Proof.
  intros Hpath Hne. cbv zeta. unfold start. rewrite Hpath.
  rewrite (truthy_nonempty _ Hne). cbn [orEmpty].
  split; [| split].
  - intros raw key Hread Hparse.
    set (w2 := mkWorld (trace w ++ [EvReadFile path (Ok raw)]) (tape w)
                 (cidStore w) (mails w) (Some key)).
    assert (Hfirst :
              (raw <- call (fun h => fs_readFile h path) (EvReadFile path) ;;
               key <- lift (JSON_parse_key raw) ;;
               set_verificationKey key) w = (Ok tt, w2)).
    { unfold bind, call, lift, set_verificationKey.
      rewrite Hread, Hparse. reflexivity. }
    rewrite (bind_Ok _ _ _ _ _ Hfirst).
    split; [exact (keepsKey_bootstrapEvents self w2) |].
    destruct (emits_run anyError anyEvent (bootstrapEvents self) w2
                (snd (bootstrapEvents self w2))
                (fst (bootstrapEvents self w2)))
      as (evs & Ht).
    { unfold bootstrapEvents. emits_steps.
      - apply (emits_weaken anyError is_indexing); [reflexivity |].
        apply replayEvents_emits. }
    { apply surjective_pairing. }
    rewrite (newEvents_trans w w2 _ [EvReadFile path (Ok raw)] evs eq_refl Ht).
    reflexivity.
  - intros e Hread. unfold bind, call. rewrite Hread. reflexivity.
  - intros raw e Hread Hparse. unfold bind, call, lift.
    rewrite Hread, Hparse. reflexivity.
Qed.

End ServiceStart.

(** ** The answers of [POST /api/send-mail] *)

Section ServiceAnswers.
Context `{JsLib} `{EthersLib} `{Env}.
Import EmailService.

(** X15.  The handler of [POST /api/send-mail] never throws: whatever
    fails inside becomes an answer 500 carrying the message of the error,
    and every answer is a 200, a 400 or a 500.  A request that lacks one
    of its four fields is answered 400 "Missing required fields" with
    nothing done at all; a sender the registry resolves to the zero
    address is answered 400 "Sender email not registered" after the
    lookup alone, the commitment map and the index untouched; and a
    registry that throws is answered 500 with its message. *)
Theorem postSendMail_always_answers (self : EmailService.t)
    (body : SendMailBody) (w : World) :
  let run := postSendMail self body w in
  (forall e : exn, fst run <> Throw e)
  /\ (forall resp : Response,
        fst run = Ok resp ->
        status resp = 200%Z \/ status resp = 400%Z \/ status resp = 500%Z)
  /\ (Js.truthy (proof body) = false \/ Js.truthy (cid body) = false
      \/ Js.truthy (senderEmail body) = false
      \/ Js.truthy (recipientEmail body) = false ->
      run = (Ok (mkResponse 400 (ErrorBody "Missing required fields")), w))
  /\ (forall proof cid sender recipient : string,
        body = mkBody (Some proof) (Some cid) (Some sender) (Some recipient) ->
        proof <> "" -> cid <> "" -> sender <> "" -> recipient <> "" ->
        (registry_resolveEmail (trace w) sender = Ok zeroAddress ->
         run = (Ok (mkResponse 400 (ErrorBody "Sender email not registered")),
                log_event (EvResolveEmail sender (Ok zeroAddress)) w))
        /\ (forall e : exn,
              registry_resolveEmail (trace w) sender = Throw e ->
              run = (Ok (mkResponse 500 (ErrorBody (message e))),
                     log_event (EvResolveEmail sender (Throw e)) w))).
Proof.
  cbv zeta. split; [| split; [| split]].
  - intros e. unfold postSendMail, try_catch.
    match goal with |- context [match ?m w with _ => _ end] =>
      destruct (m w) as [[resp | e' |] w1] end; discriminate.
  - intros resp Hok.
    destruct (postSendMail self body w) as [r w'] eqn:Hrun.
    cbn [fst] in Hok. subst r. unfold postSendMail in Hrun.
    apply try_catch_Ok_inv in Hrun as [Hrun | (e & w1 & _ & Hcatch)].
    2:{ apply ret_Ok_inv in Hcatch as [<- _]. right. right. reflexivity. }
    destruct (_ || _).
    { apply ret_Ok_inv in Hrun as [<- _]. right. left. reflexivity. }
    cbv zeta in Hrun.
    apply bind_Ok_inv in Hrun as (owner & w1 & _ & Hrun).
    destruct (owner =? _).
    { apply ret_Ok_inv in Hrun as [<- _]. right. left. reflexivity. }
    apply bind_Ok_inv in Hrun as ([] & w2 & _ & Hrun).
    apply bind_Ok_inv in Hrun as (key & w3 & _ & Hrun).
    apply bind_Ok_inv in Hrun as (isValid & w4 & _ & Hrun).
    destruct (negb isValid).
    { apply ret_Ok_inv in Hrun as [<- _]. right. left. reflexivity. }
    apply bind_Ok_inv in Hrun as ([] & w5 & _ & Hrun).
    apply bind_Ok_inv in Hrun as (tx & w6 & _ & Hrun).
    apply bind_Ok_inv in Hrun as (receipt & w7 & _ & Hrun).
    apply bind_Ok_inv in Hrun as (extracted & w8 & _ & Hrun).
    apply bind_Ok_inv in Hrun as (now' & w9 & _ & Hrun).
    apply bind_Ok_inv in Hrun as ([] & w10 & _ & Hrun).
    apply ret_Ok_inv in Hrun as [<- _]. left. reflexivity.
  - intros Hmissing. unfold postSendMail, try_catch.
    assert (Hcond : negb (Js.truthy (proof body)) || negb (Js.truthy (cid body))
                    || negb (Js.truthy (senderEmail body))
                    || negb (Js.truthy (recipientEmail body)) = true).
    { destruct Hmissing as [-> | [-> | [-> | ->]]]; cbn [negb];
        rewrite ?orb_true_r; reflexivity. }
    rewrite Hcond. reflexivity.
  - intros proof cid sender recipient -> Hp Hc Hs Hr.
    unfold postSendMail, try_catch.
    cbn [EmailService.proof EmailService.cid EmailService.senderEmail
         EmailService.recipientEmail orEmpty].
    rewrite !truthy_nonempty by assumption. cbn [negb orb].
    split; [| intros e]; intros Hlookup; unfold bind at 1; unfold call at 1;
      cbv beta zeta; rewrite Hlookup; [rewrite String.eqb_refl |];
      reflexivity.
Qed.

End ServiceAnswers.

(** ** Verification, when a key is loaded *)

Section ServiceVerifies.
Context `{JsLib} `{EthersLib} `{Env}.
Import EmailService.

Lemma split_after_prefix {A} (l1 l2 pre post : list A) (x : A) :
  l1 ++ l2 = pre ++ x :: post -> ~ In x l1 ->
  exists pre', pre = l1 ++ pre' /\ l2 = pre' ++ x :: post.
Proof.
  revert pre. induction l1 as [|a l1 IH]; intros pre Heq Hnotin.
  - exists pre. split; [reflexivity | exact Heq].
  - destruct pre as [|b pre]; cbn in Heq; injection Heq as -> Heq.
    + contradiction Hnotin. left. reflexivity.
    + destruct (IH pre Heq) as (pre' & -> & ->).
      { intros Hin. apply Hnotin. right. exact Hin. }
      exists pre'. split; reflexivity.
Qed.

Lemma try_catch_answer_world {A} (m : M A) (f : exn -> A) (w : World) :
  snd (try_catch m (fun e => ret (f e)) w) = snd (m w).
Proof. unfold try_catch. destruct (m w) as [[a | e |] w1]; reflexivity. Qed.

(** The runs of [verifyProof] under a loaded key: a conversion throws
    and nothing is recorded, or the verifier is asked once, about the
    owner, the commitment and the hash of the sender address. *)
Lemma verifyProof_cases (encodedProof senderAddress senderEmail
    contentCID : string) (w : World) :
  keyLoaded (verificationKey w) = true ->
  let run := verifyProof encodedProof senderAddress senderEmail contentCID w in
  (snd run = w /\ forall valid, fst run <> Ok valid)
  \/ exists (key : VerificationKey) (decoded : Groth16Proof.t)
            (address content email : Z) (ans : outcome bool),
       verificationKey w = Some key
       /\ decodeProof encodedProof = Ok decoded
       /\ BigInt senderAddress = Ok address
       /\ BigInt contentCID = Ok content
       /\ BigInt (BytesUtil.keccak256 (Bytes.toUtf8Bytes senderEmail))
          = Ok email
       /\ ans = groth16_verify (trace w) key
                  [Js.toString address; Js.toString content;
                   Js.toString email] decoded
       /\ run = (ans,
                 log_event
                   (EvGroth16Verify key
                      [Js.toString address; Js.toString content;
                       Js.toString email] decoded ans) w).
Proof.
  intros Hloaded. cbv zeta.
  unfold verifyProof, get_verificationKey, bind, lift. cbv beta iota.
  rewrite Hloaded. cbn [negb].
  destruct (verificationKey w) as [key |] eqn:Ekey; [| discriminate].
  destruct (decodeProof encodedProof) as [decoded | e |];
    [| left; split; [reflexivity | discriminate] ..].
  destruct (BigInt senderAddress) as [address | e |];
    [| left; split; [reflexivity | discriminate] ..].
  destruct (BigInt contentCID) as [content | e |];
    [| left; split; [reflexivity | discriminate] ..].
  destruct (BigInt (BytesUtil.keccak256 (Bytes.toUtf8Bytes senderEmail)))
    as [email | e |]; [| left; split; [reflexivity | discriminate] ..].
  right. exists key, decoded, address, content, email.
  eexists. repeat split; reflexivity.
Qed.

(** The runs of the handler under a loaded key: either nothing is
    submitted, or the run starts with the lookup of the sender, the
    write to the commitment map and a verification that answered true,
    and whatever is submitted afterwards is the request. *)
Lemma postSendMail_loaded_shape (self : EmailService.t) (body : SendMailBody)
    (w : World) :
  keyLoaded (verificationKey w) = true ->
  let proof := orEmpty (proof body) in
  let cid := orEmpty (cid body) in
  let sender := orEmpty (senderEmail body) in
  let recipient := orEmpty (recipientEmail body) in
  let contentCID := BytesUtil.cidToBytes32 cid in
  let evs := newEvents w (snd (postSendMail self body w)) in
  forallb notSubmit evs = true
  \/ exists (key : VerificationKey) (owner : string)
            (decoded : Groth16Proof.t) (address content email : Z)
            (tail : list Event),
       verificationKey w = Some key
       /\ decodeProof proof = Ok decoded
       /\ BigInt owner = Ok address
       /\ BigInt contentCID = Ok content
       /\ BigInt (BytesUtil.keccak256 (Bytes.toUtf8Bytes sender)) = Ok email
       /\ evs = [EvResolveEmail sender (Ok owner);
                 EvCidStoreSet contentCID cid;
                 EvGroth16Verify key
                   [Js.toString address; Js.toString content;
                    Js.toString email] decoded (Ok true)] ++ tail
       /\ forallb (submits proof contentCID sender recipient) tail = true.
Proof.
  intros Hloaded. cbv zeta. unfold postSendMail.
  rewrite try_catch_answer_world.
  match goal with
  | |- context [newEvents w (snd ?r)] => remember r as run eqn:Hrun
  end.
  destruct (_ || _).
  { left. subst run. cbn [ret snd]. rewrite newEvents_same. reflexivity. }
  unfold bind at 1 in Hrun. unfold call at 1 in Hrun. cbv beta zeta in Hrun.
  destruct (registry_resolveEmail (trace w) (orEmpty (senderEmail body)))
    as [owner | e |];
    [| left; subst run; cbn [snd]; rewrite newEvents_log1; reflexivity ..].
  destruct (owner =? zeroAddress).
  { left. subst run. cbn [ret snd]. rewrite newEvents_log1. reflexivity. }
  set (w1 := log_event (EvResolveEmail (orEmpty (senderEmail body)) (Ok owner))
               w) in Hrun.
  unfold bind at 1 in Hrun. unfold InMemoryCidStore.set at 1 in Hrun.
  cbv beta iota in Hrun.
  set (w2 := mkWorld _ _ _ _ _) in Hrun.
  unfold bind at 1 in Hrun. unfold get_verificationKey at 1 in Hrun.
  cbv beta iota in Hrun.
  change (verificationKey w2) with (verificationKey w) in Hrun.
  rewrite Hloaded in Hrun.
  assert (Ht2 : trace w2
                = trace w
                  ++ [EvResolveEmail (orEmpty (senderEmail body)) (Ok owner);
                      EvCidStoreSet
                        (BytesUtil.cidToBytes32 (orEmpty (cid body)))
                        (orEmpty (cid body))]).
  { subst w2 w1. cbn [trace log_event]. rewrite <- app_assoc. reflexivity. }
  unfold bind at 1 in Hrun.
  destruct (verifyProof_cases (orEmpty (proof body)) owner
              (orEmpty (senderEmail body))
              (BytesUtil.cidToBytes32 (orEmpty (cid body))) w2 Hloaded)
    as [[Hw Hfail]
       | (key & decoded & address & content & email & ans & Hkey & Hdec
          & Haddr & Hcontent & Hemail & _ & Hverify)].
  - left.
    destruct (verifyProof _ _ _ _ w2) as [[valid | e |] w3];
      cbn [fst snd] in *; subst w3;
      [contradiction (Hfail valid); reflexivity | |];
      subst run; cbn [snd]; rewrite (newEvents_app _ _ _ Ht2); reflexivity.
  - rewrite Hverify in Hrun.
    set (w3 := log_event _ w2) in Hrun.
    assert (Ht3 : trace w3
                  = trace w
                    ++ [EvResolveEmail (orEmpty (senderEmail body)) (Ok owner);
                        EvCidStoreSet
                          (BytesUtil.cidToBytes32 (orEmpty (cid body)))
                          (orEmpty (cid body));
                        EvGroth16Verify key
                          [Js.toString address; Js.toString content;
                           Js.toString email] decoded ans]).
    { subst w3. cbn [trace log_event]. rewrite Ht2, <- app_assoc.
      reflexivity. }
    destruct ans as [[|] | e |]; cbn [negb] in Hrun;
      [| left; subst run; cbn [ret snd]; rewrite (newEvents_app _ _ _ Ht3);
         reflexivity ..].
    right. exists key, owner, decoded, address, content, email.
    match type of Hrun with
    | run = ?k w3 =>
        assert (Hk : emits anyError
                       (submits (orEmpty (proof body))
                          (BytesUtil.cidToBytes32 (orEmpty (cid body)))
                          (orEmpty (senderEmail body))
                          (orEmpty (recipientEmail body))) k)
    end.
    { apply emits_bind; [apply emits_pin; reflexivity |]. intros _.
      apply emits_bind.
      { apply emits_call; [| reflexivity]. intros r.
        cbn [submits]. rewrite !String.eqb_refl. reflexivity. }
      intros tx. apply emits_bind; [emits_steps |]. intros receipt.
      apply emits_bind; [apply emits_lift; intros; exact I |].
      intros extracted.
      apply emits_bind; [emits_steps |]. intros timestamp.
      apply emits_bind; [apply emits_mailStore_save; reflexivity |].
      intros _. apply emits_ret. }
    destruct (Hk w3) as (tail & Ht & Hp & _). rewrite <- Hrun in Ht.
    exists tail. repeat split; try assumption.
    apply newEvents_app. rewrite Ht, Ht3, <- app_assoc. reflexivity.
Qed.

(** X16.  Under a loaded verification key nothing reaches the ledger
    unverified: in every run of [POST /api/send-mail], whatever its
    outcome, a submission comes after a [groth16.verify] that answered
    true, asked under the loaded key about the decoded proof of the
    request and three public signals: the owner the registry gave for
    the sender, the commitment that is submitted, and the hash of the
    sender address. *)
Theorem postSendMail_verifies_before_submission (self : EmailService.t)
    (body : SendMailBody) (w : World) (pre post : list Event)
    (proof contentCID from to : string)
    (ans : outcome TransactionResponse.t) :
  keyLoaded (verificationKey w) = true ->
  newEvents w (snd (postSendMail self body w))
    = pre ++ EvMailerSendMail proof contentCID from to ans :: post ->
  exists (key : VerificationKey) (owner : string) (decoded : Groth16Proof.t)
         (address content email : Z),
    verificationKey w = Some key
    /\ In (EvResolveEmail from (Ok owner)) pre
    /\ decodeProof proof = Ok decoded
    /\ BigInt owner = Ok address
    /\ BigInt contentCID = Ok content
    /\ BigInt (BytesUtil.keccak256 (Bytes.toUtf8Bytes from)) = Ok email
    /\ In (EvGroth16Verify key
             [Js.toString address; Js.toString content; Js.toString email]
             decoded (Ok true)) pre.
Proof.
  intros Hloaded Hsplit.
  destruct (postSendMail_loaded_shape self body w Hloaded)
    as [Hnone
       | (key & owner & decoded & address & content & email & tail & Hkey
          & Hdec & Haddr & Hcontent & Hemail & Hevs & Htail)].
  - exfalso.
    apply (no_match_in_filtered is_submit _ _ _ _ Hnone Hsplit). reflexivity.
  - rewrite Hevs in Hsplit.
    apply split_after_prefix in Hsplit as (pre' & -> & ->).
    2:{ intros [E | [E | [E | []]]]; discriminate. }
    rewrite forallb_app in Htail. apply andb_prop in Htail as [_ Htail].
    cbn [forallb submits] in Htail.
    apply andb_prop in Htail as [Hsame _].
    apply andb_prop in Hsame as [Hsame Hto].
    apply andb_prop in Hsame as [Hsame Hfrom].
    apply andb_prop in Hsame as [Hproof Hcc].
    apply String.eqb_eq in Hproof, Hcc, Hfrom.
    subst proof contentCID from.
    exists key, owner, decoded, address, content, email.
    repeat split; try assumption.
    + apply in_or_app. left. left. reflexivity.
    + apply in_or_app. left. right. right. left. reflexivity.
Qed.

(** X18.  A request whose proof the verifier rejects is answered 400
    "Invalid proof": nothing is pinned, nothing is submitted and the
    index is not written.  The commitment map has already been written:
    the handle of the rejected request stays remembered under its
    commitment. *)
Theorem postSendMail_rejects_invalid_proof (self : EmailService.t)
    (w : World) (proof cid sender recipient owner : string)
    (key : VerificationKey) (decoded : Groth16Proof.t)
    (address content email : Z) :
  let body := mkBody (Some proof) (Some cid) (Some sender) (Some recipient) in
  let contentCID := BytesUtil.cidToBytes32 cid in
  let before :=
    [EvResolveEmail sender (Ok owner); EvCidStoreSet contentCID cid] in
  let signals :=
    [Js.toString address; Js.toString content; Js.toString email] in
  proof <> "" -> cid <> "" -> sender <> "" -> recipient <> "" ->
  verificationKey w = Some key -> key_truthy key = true ->
  registry_resolveEmail (trace w) sender = Ok owner ->
  owner <> zeroAddress ->
  decodeProof proof = Ok decoded ->
  BigInt owner = Ok address ->
  BigInt contentCID = Ok content ->
  BigInt (BytesUtil.keccak256 (Bytes.toUtf8Bytes sender)) = Ok email ->
  groth16_verify (trace w ++ before) key signals decoded = Ok false ->
  postSendMail self body w
  = (Ok (mkResponse 400 (ErrorBody "Invalid proof")),
     mkWorld
       (trace w ++ before ++ [EvGroth16Verify key signals decoded (Ok false)])
       (tape w) (Js.map_set contentCID cid (cidStore w)) (mails w)
       (verificationKey w)).
Proof.
  cbv zeta. intros Hp Hc Hs Hr Hkey Htruthy Hlookup Howner Hdec Haddr Hcontent
    Hemail Hreject.
  assert (Hloaded : keyLoaded (verificationKey w) = true).
  { rewrite Hkey. exact Htruthy. }
  unfold postSendMail.
  cbn [EmailService.proof EmailService.cid EmailService.senderEmail
       EmailService.recipientEmail orEmpty].
  rewrite !truthy_nonempty by assumption. cbn [negb orb].
  unfold try_catch. unfold bind at 1. unfold call at 1. cbv beta zeta.
  rewrite Hlookup. apply String.eqb_neq in Howner. rewrite Howner.
  unfold bind at 1. unfold InMemoryCidStore.set at 1. cbv beta iota.
  set (w2 := mkWorld _ _ _ _ _).
  unfold bind at 1. unfold get_verificationKey at 1. cbv beta iota.
  change (verificationKey w2) with (verificationKey w). rewrite Hloaded.
  unfold bind at 1.
  destruct (verifyProof_cases proof owner sender (BytesUtil.cidToBytes32 cid)
              w2 Hloaded)
    as [[Hw Hfail]
       | (key' & decoded' & address' & content' & email' & ans & Hkey' & Hdec'
          & Haddr' & Hcontent' & Hemail' & Hans & Hverify)].
  - exfalso. unfold verifyProof, get_verificationKey, bind, lift in Hfail.
    cbv beta iota in Hfail.
    change (verificationKey w2) with (verificationKey w) in Hfail.
    rewrite Hloaded, Hdec, Haddr, Hcontent, Hemail in Hfail.
    cbn [negb fst call] in Hfail.
    unfold call in Hfail. cbn [fst] in Hfail.
    apply (Hfail false). rewrite Hkey. cbn [orEmpty]. subst w2.
    cbn [trace log_event]. rewrite <- app_assoc. exact Hreject.
  - change (verificationKey w2) with (verificationKey w) in Hkey'.
    rewrite Hkey in Hkey'. injection Hkey' as <-.
    rewrite Hdec in Hdec'. injection Hdec' as <-.
    rewrite Haddr in Haddr'. injection Haddr' as <-.
    rewrite Hcontent in Hcontent'. injection Hcontent' as <-.
    rewrite Hemail in Hemail'. injection Hemail' as <-.
    assert (Eans : ans = Ok false).
    { rewrite Hans. subst w2. cbn [trace log_event].
      rewrite <- app_assoc. exact Hreject. }
    rewrite Hverify, Eans. cbn [negb]. unfold ret. subst w2.
    unfold log_event. cbn [trace tape cidStore mails verificationKey].
    rewrite <- !app_assoc. reflexivity.
Qed.

End ServiceVerifies.

(** ** What an accepted request leaves behind *)

Section ServiceFiles.
Context `{JsLib} `{EthersLib} `{Env}.
Import EmailService.

Lemma keepsStores_ret {A} (a : A) : keepsStores (ret a).
Proof. intros w. split; reflexivity. Qed.

Lemma keepsStores_bind {A B} (m : M A) (k : A -> M B) :
  keepsStores m -> (forall a, keepsStores (k a)) -> keepsStores (bind m k).
Proof.
  intros Hm Hk w. specialize (Hm w). unfold bind.
  destruct (m w) as [[a | e |] w1]; cbn [snd] in *; [| exact Hm ..].
  destruct (Hk a w1) as [Hmails Hcids]. rewrite Hmails, Hcids. exact Hm.
Qed.

Lemma keepsStores_call {A} (oracle : list Event -> outcome A)
    (record : outcome A -> Event) : keepsStores (call oracle record).
Proof. intros w. split; reflexivity. Qed.

Lemma keepsStores_lift {A} (o : outcome A) : keepsStores (lift o).
Proof. intros w. split; reflexivity. Qed.

Lemma keepsStores_verifyProof (encodedProof senderAddress senderEmail
    contentCID : string) :
  keepsStores (verifyProof encodedProof senderAddress senderEmail contentCID).
Proof.
  unfold verifyProof. apply keepsStores_bind; [intros w; split; reflexivity |].
  intros key. destruct (negb _); [apply keepsStores_ret |].
  repeat (apply keepsStores_bind; [apply keepsStores_lift | intros ?]).
  apply keepsStores_call.
Qed.

Lemma keepsStores_pin (self : IPFSClient.t) (cid : string) :
  keepsStores (IPFSClient.pin self cid).
Proof.
  unfold IPFSClient.pin. destruct (negb _);
    [apply keepsStores_ret | apply keepsStores_call].
Qed.

Lemma keepsStores_run {A} (m : M A) (w w' : World) (r : outcome A) :
  keepsStores m -> m w = (r, w') ->
  mails w' = mails w /\ cidStore w' = cidStore w.
Proof. intros Hm E. specialize (Hm w). rewrite E in Hm. exact Hm. Qed.

Lemma truthy_inv (s : option string) :
  Js.truthy s = true -> exists v, s = Some v /\ v <> "".
Proof.
  destruct s as [v |]; [| discriminate]. cbn. intros Hv. exists v.
  split; [reflexivity |]. intros ->. discriminate.
Qed.

Lemma in_values_map_set {V} (k : string) (v : V) (m : Js.Map V) :
  In v (Js.map_values (Js.map_set k v m)).
Proof.
  unfold Js.map_values. induction m as [|[k' v'] m IH]; cbn.
  - left. reflexivity.
  - destruct (k =? k'); cbn; [left; reflexivity | right; exact IH].
Qed.

(** X17.  After an answer 200 of [POST /api/send-mail], the mail is in
    the index under the id the answer carries: [GET /api/mail/:mailId]
    answers the record of the request (its handle, the commitment of the
    handle, sender, recipient, the timestamp and the transaction hash of
    the answer), the inbox of the recipient and the sent box of the
    sender list it, the commitment map answers the handle for the
    commitment, and the records under other ids are as before. *)
Theorem postSendMail_files_sent_mail (self : EmailService.t)
    (body : SendMailBody) (w w' : World) (success : bool)
    (mailId txHash : string) (timestamp : Z) :
  postSendMail self body w
  = (Ok (mkResponse 200 (SentBody success mailId txHash timestamp)), w') ->
  exists (cid sender recipient : string) (blockNumber : option Z),
    EmailService.cid body = Some cid
    /\ senderEmail body = Some sender
    /\ recipientEmail body = Some recipient
    /\ success = true
    /\ let record :=
         StoredMail.mk mailId cid (BytesUtil.cidToBytes32 cid) sender
           recipient timestamp blockNumber (Some txHash) in
       fst (Routes.getMail mailId w')
       = Ok (Routes.mkResponse 200 (Routes.MailBody record))
       /\ (exists inbox,
             fst (Routes.getInbox recipient w')
             = Ok (Routes.mkResponse 200 (Routes.InboxBody inbox))
             /\ In record inbox)
       /\ (exists sentbox,
             fst (Routes.getSentbox sender w')
             = Ok (Routes.mkResponse 200 (Routes.SentboxBody sentbox))
             /\ In record sentbox)
       /\ fst (InMemoryCidStore.get (BytesUtil.cidToBytes32 cid) w')
          = Ok (Some cid)
       /\ forall other : string,
            other <> mailId ->
            fst (Routes.getMail other w') = fst (Routes.getMail other w).
Proof.
  intros Hrun. unfold postSendMail in Hrun.
  apply try_catch_Ok_inv in Hrun as [Hrun | (e & w1 & _ & Hcatch)];
    [| apply ret_Ok_inv in Hcatch as [Hcatch _]; discriminate].
  destruct (_ || _) eqn:Hfields;
    [apply ret_Ok_inv in Hrun as [Hrun _]; discriminate |].
  apply orb_false_elim in Hfields as [Hfields Hrcpt].
  apply orb_false_elim in Hfields as [Hfields Hsender].
  apply orb_false_elim in Hfields as [_ Hcid].
  apply negb_false_iff in Hrcpt, Hsender, Hcid.
  apply truthy_inv in Hrcpt as (recipient & Erecipient & _).
  apply truthy_inv in Hsender as (sender & Esender & _).
  apply truthy_inv in Hcid as (cid & Ecid & _).
  rewrite Erecipient, Esender, Ecid in Hrun. cbv zeta in Hrun.
  cbn [orEmpty] in Hrun.
  apply bind_Ok_inv in Hrun as (owner & w1 & Hlookup & Hrun).
  destruct (owner =? _);
    [apply ret_Ok_inv in Hrun as [Hrun _]; discriminate |].
  apply bind_Ok_inv in Hrun as ([] & w2 & Hset & Hrun).
  apply bind_Ok_inv in Hrun as (key & w3 & Hkey & Hrun).
  apply bind_Ok_inv in Hrun as (isValid & w4 & Hverify & Hrun).
  destruct (negb isValid);
    [apply ret_Ok_inv in Hrun as [Hrun _]; discriminate |].
  apply bind_Ok_inv in Hrun as ([] & w5 & Hpin & Hrun).
  apply bind_Ok_inv in Hrun as (tx & w6 & Hsubmit & Hrun).
  apply bind_Ok_inv in Hrun as (receipt & w7 & Hwait & Hrun).
  apply bind_Ok_inv in Hrun as (extracted & w8 & Hextract & Hrun).
  apply bind_Ok_inv in Hrun as (now' & w9 & Hnow & Hrun).
  apply bind_Ok_inv in Hrun as ([] & w10 & Hsave & Hrun).
  apply ret_Ok_inv in Hrun as [Hresp ->].
  injection Hresp as <- <- <- <-.
  apply (keepsStores_run _ _ _ _ (keepsStores_call _ _)) in Hlookup
    as [Hm1 Hc1].
  unfold InMemoryCidStore.set in Hset. injection Hset as <-.
  unfold get_verificationKey in Hkey. injection Hkey as _ <-.
  assert (Hstores4 : mails w4 = mails w
                     /\ cidStore w4
                        = Js.map_set (BytesUtil.cidToBytes32 cid) cid
                            (cidStore w)).
  { destruct (keyLoaded key).
    - apply (keepsStores_run _ _ _ _ (keepsStores_verifyProof _ _ _ _))
        in Hverify as [-> ->].
      cbn [mails cidStore]. rewrite Hm1, Hc1. split; reflexivity.
    - apply ret_Ok_inv in Hverify as [_ ->].
      cbn [mails cidStore]. rewrite Hm1, Hc1. split; reflexivity. }
  destruct Hstores4 as [Hm4 Hc4].
  apply (keepsStores_run _ _ _ _ (keepsStores_pin _ _)) in Hpin as [Hm5 Hc5].
  apply (keepsStores_run _ _ _ _ (keepsStores_call _ _)) in Hsubmit
    as [Hm6 Hc6].
  apply (keepsStores_run _ _ _ _ (keepsStores_call _ _)) in Hwait
    as [Hm7 Hc7].
  apply lift_Ok_inv in Hextract as [_ ->].
  unfold now in Hnow. injection Hnow as _ <-.
  unfold InMemoryMailStore.save in Hsave. injection Hsave as <-.
  exists cid, sender, recipient,
    (match receipt with
     | Some r => TransactionReceipt.blockNumber r
     | None => None
     end).
  split; [exact Ecid | split; [exact Esender | split; [exact Erecipient |]]].
  split; [reflexivity |]. cbv zeta.
  unfold Routes.getMail, Routes.getInbox, Routes.getSentbox, bind,
    InMemoryMailStore.get, InMemoryMailStore.getInbox,
    InMemoryMailStore.getSentbox, InMemoryCidStore.get.
  cbn [fst snd mails cidStore log_event StoredMail.mailId].
  rewrite map_get_set_same. split; [reflexivity |].
  split; [| split; [| split]].
  - eexists. split; [reflexivity |]. apply filter_In.
    split; [apply in_values_map_set | apply String.eqb_refl].
  - eexists. split; [reflexivity |]. apply filter_In.
    split; [apply in_values_map_set | apply String.eqb_refl].
  - rewrite Hc7, Hc6, Hc5, Hc4, map_get_set_same. reflexivity.
  - intros other Hother. rewrite map_get_set_other by exact Hother.
    rewrite Hm7, Hm6, Hm5, Hm4.
    destruct (Js.map_get other (mails w)); reflexivity.
Qed.

End ServiceFiles.

(** ** Reading the mail id off a receipt *)

Section ReceiptFacts.
Context `{EthersLib}.

Lemma scanLogs_agree (logs : list Log.t) :
  EmailService.scanLogs logs = BaseMailerClient.scanLogs logs.
Proof.
  induction logs as [|log rest IH]; cbn [EmailService.scanLogs
    BaseMailerClient.scanLogs]; [reflexivity |].
  destruct (Log.topics log) as [[|topic0 others] |]; try exact IH.
  destruct (topic0 =? MailerInterface.topicHash); [reflexivity | exact IH].
Qed.

Lemma topicHash_truthy : Js.truthy (Some MailerInterface.topicHash) = true.
Proof.
  unfold MailerInterface.topicHash, BytesUtil.keccak256, Bytes.toHex.
  reflexivity.
Qed.

(** X19.  The service and the client read the mail id off a receipt in
    the same way, on every receipt.  A receipt without logs gives no id.
    Otherwise the first log whose first topic is the [MailSent] topic
    decides alone: the id is the [mailId] it decodes to, logs after it
    are not looked at, and when it does not decode to an id none is
    found, whatever the later logs hold. *)
Theorem extractMailId_agrees_with_client :
  (forall logs : option (list Log.t),
      EmailService.extractMailId logs
      = BaseMailerClient.extractMailIdFromReceipt logs)
  /\ EmailService.extractMailId None = Ok None
  /\ (forall (pre post : list Log.t) (log : Log.t)
             (otherTopics : list string),
        (forall (earlier : Log.t) (topics : list string),
            In earlier pre ->
            Log.topics earlier
            <> Some (MailerInterface.topicHash :: topics)) ->
        Log.topics log = Some (MailerInterface.topicHash :: otherTopics) ->
        EmailService.extractMailId (Some (pre ++ log :: post))
        = match parseLog log with
          | Ok (Some parsed) =>
              Ok (option_map Js.toString (LogDescription.mailId parsed))
          | Ok None => Ok None
          | Throw e => Throw e
          | Diverge => Diverge
          end).
Proof.
  split; [| split].
  - intros [logs |]; [| reflexivity].
    unfold EmailService.extractMailId,
      BaseMailerClient.extractMailIdFromReceipt.
    rewrite scanLogs_agree. reflexivity.
  - reflexivity.
  - intros pre post log otherTopics Hpre Hlog.
    unfold EmailService.extractMailId. rewrite topicHash_truthy.
    cbn [negb]. induction pre as [|earlier pre IH]; cbn [app].
    + cbn [EmailService.scanLogs]. rewrite Hlog, String.eqb_refl.
      reflexivity.
    + cbn [EmailService.scanLogs].
      assert (IH' := IH (fun l ts Hin => Hpre l ts (or_intror Hin))).
      destruct (Log.topics earlier) as [[|topic0 others] |] eqn:Etopics;
        try exact IH'.
      destruct (topic0 =? MailerInterface.topicHash) eqn:Etopic;
        [| exact IH'].
      apply String.eqb_eq in Etopic. subst topic0.
      exfalso. exact (Hpre earlier others (or_introl eq_refl) Etopics).
Qed.

End ReceiptFacts.

(** ** Records read back from the ledger *)

Section RecordFacts.
Import MailRecords.

Lemma normalizeFrom_nth (records : list RawMailRecord.t) (index : Z)
    (i : nat) (raw : RawMailRecord.t) :
  nth_error records i = Some raw ->
  nth_error (normalizeFrom index records) i
  = Some (MailRecord.mk
            (match RawMailRecord.mailId raw with
             | Some id => id
             | None => (index + Z.of_nat i)%Z
             end)
            (RawMailRecord.contentCID raw) (RawMailRecord.senderEmail raw)
            (RawMailRecord.recipientEmail raw)
            (match RawMailRecord.timestamp raw with
             | Some ts => ts
             | None => 0%Z
             end)
            (RawMailRecord.verified raw)).
Proof.
  revert index i. induction records as [|record rest IH]; intros index i Hnth.
  - destruct i; discriminate.
  - destruct i as [|i]; cbn [nth_error normalizeFrom] in *.
    + injection Hnth as ->. rewrite Z.add_0_r. reflexivity.
    + rewrite (IH (index + 1)%Z i Hnth).
      replace (index + 1 + Z.of_nat i)%Z with (index + Z.of_nat (S i))%Z
        by lia.
      reflexivity.
Qed.

Lemma normalizeFrom_positions (records : list RawMailRecord.t) (index : nat) :
  (forall raw, In raw records -> RawMailRecord.mailId raw = None) ->
  map MailRecord.mailId (normalizeFrom (Z.of_nat index) records)
  = map Z.of_nat (seq index (List.length records)).
Proof.
  revert index. induction records as [|record rest IH]; intros index Hnone.
  - reflexivity.
  - cbn [normalizeFrom map List.length seq MailRecord.mailId].
    rewrite (Hnone record (or_introl eq_refl)).
    replace (Z.of_nat index + 1)%Z with (Z.of_nat (S index)) by lia.
    rewrite IH; [reflexivity |].
    intros raw Hin. apply Hnone. right. exact Hin.
Qed.

(** X20.  [normalizeMailRecords] keeps the number and the order of the
    records and copies their fields; a record that comes without mail id
    gets its position in the list as id, and one without timestamp gets
    0.  So records that all come without id, as the tuples of [getInbox],
    [getSentbox] and [getMail] do, are numbered 0, 1, 2, ... by their
    place in the answer. *)
Theorem normalizeMailRecords_numbers_by_position
    (records : list RawMailRecord.t) :
  let normalized := normalizeMailRecords records in
  List.length normalized = List.length records
  /\ (forall (i : nat) (raw : RawMailRecord.t),
        nth_error records i = Some raw ->
        nth_error normalized i
        = Some (MailRecord.mk
                  (match RawMailRecord.mailId raw with
                   | Some id => id
                   | None => Z.of_nat i
                   end)
                  (RawMailRecord.contentCID raw)
                  (RawMailRecord.senderEmail raw)
                  (RawMailRecord.recipientEmail raw)
                  (match RawMailRecord.timestamp raw with
                   | Some ts => ts
                   | None => 0%Z
                   end)
                  (RawMailRecord.verified raw)))
  /\ ((forall raw, In raw records -> RawMailRecord.mailId raw = None) ->
      map MailRecord.mailId normalized
      = map Z.of_nat (seq 0 (List.length records))).
Proof.
  cbv zeta. unfold normalizeMailRecords. split; [| split].
  - generalize 0%Z. induction records as [|record rest IH]; intros index;
      cbn [normalizeFrom List.length]; [reflexivity |].
    rewrite IH. reflexivity.
  - intros i raw Hnth. rewrite (normalizeFrom_nth _ 0%Z _ _ Hnth).
    reflexivity.
  - intros Hnone. exact (normalizeFrom_positions records 0 Hnone).
Qed.

End RecordFacts.

(** ** Runs of the further properties *)

(** X5 in the process of the stand-ins: a usable draw is ahead, a key is
    returned. *)
Lemma generatePrivateKey_never_zero_witness :
  exists key w',
    EncryptionManager.generatePrivateKey Standin.world0 = (Ok key, w').
Proof.
  apply (proj2 (generatePrivateKey_never_zero Standin.world0)
           (repeat x11 32)).
  - left. reflexivity.
  - reflexivity.
Defined.

(** X6 on the package of the stand-ins: 16 bytes of ciphertext per mail
    byte and 32 of wrapped key. *)
Lemma encrypt_package_shape_witness :
  exists iv wrappedKey ciphertext : bytes,
    Bytes.fromHex
      (EncryptedContentPayload.iv
         (EncryptedMailPackage.encryptedContent Standin.package)) = Ok iv
    /\ List.length iv = 12%nat
    /\ Bytes.fromHex
         (EncryptedKeyPayload.ciphertext
            (EncryptedMailPackage.encryptedKey Standin.package))
       = Ok wrappedKey
    /\ List.length wrappedKey = 32%nat
    /\ Bytes.fromHex
         (EncryptedContentPayload.ciphertext
            (EncryptedMailPackage.encryptedContent Standin.package))
       = Ok ciphertext
    /\ MailMetadata.size (EncryptedMailPackage.metadata Standin.package)
       = Z.of_nat (List.length ciphertext + 32).
Proof.
  refine (proj2 (proj2 (proj2 (proj2 (proj2 (proj2
    (@encrypt_package_shape Standin.crypto Standin.js Standin.withoutLogs
       (EncryptionManager.new None) Standin.mail Standin.recipientPublicKey
       Standin.world0
       (snd (@EncryptionManager.encrypt Standin.crypto Standin.js
               Standin.withoutLogs (EncryptionManager.new None) Standin.mail
               Standin.recipientPublicKey Standin.world0))
       Standin.package _))))))).
  vm_compute. reflexivity.
Defined.

(** X7 on the mail of the test suite without its timestamp: it comes
    back stamped with the reading of the stand-in clock. *)
Lemma decrypt_encrypt_stamps_clock_witness :
  exists (pkg : EncryptedMailPackage.t) (w1 : World),
    @EncryptionManager.encrypt Standin.crypto Standin.js Standin.withoutLogs
      (EncryptionManager.new None) Samples.unstamped
      Standin.recipientPublicKey Standin.world0 = (Ok pkg, w1)
    /\ fst (@EncryptionManager.decrypt Standin.crypto Standin.js
              (EncryptionManager.new None) pkg Standin.recipientPrivateKey w1)
       = Ok Standin.mail.
Proof.
  eexists. eexists. split.
  - vm_compute. reflexivity.
  - refine (proj1
      (@decrypt_encrypt_stamps_clock Standin.crypto standin_laws Standin.js
         Standin.withoutLogs (EncryptionManager.new None)
         (EncryptionManager.new None) Samples.unstamped
         Standin.recipientPrivateKey Standin.recipientPublicKey
         Standin.world0 _ _ _ eq_refl _ _ _)).
    + vm_compute. reflexivity.
    + exists Standin.recipientPrivateKeyBytes,
        (x02 :: Standin.recipientPrivateKeyBytes).
      vm_compute. repeat split.
    + vm_compute. reflexivity.
Defined.

(** X8 on a key of 31 bytes. *)
Lemma decrypt_checks_private_key_witness :
  @EncryptionManager.decrypt Standin.crypto Standin.js
    (EncryptionManager.new None) Standin.package
    (Bytes.toHex (repeat x01 31)) Standin.world0
  = (Throw (Error "Private key must be 32 bytes"), Standin.world0).
Proof.
  apply (proj2 (@decrypt_checks_private_key Standin.crypto Standin.js
                  (EncryptionManager.new None) Standin.package
                  (Bytes.toHex (repeat x01 31)) Standin.world0)).
  vm_compute. discriminate.
Defined.

(** X9 on an empty index: the record filed is listed in the inbox of its
    recipient. *)
Lemma mailStore_save_upserts_witness :
  let w' := snd (InMemoryMailStore.save Samples.sentRecord Standin.world0) in
  fst (InMemoryMailStore.get "42" w') = Ok (Some Samples.sentRecord)
  /\ (In Samples.sentRecord
        (filter
           (fun mail =>
              StoredMail.recipientEmail mail =? "bob.base.eth@basemailer.com")
           (Js.map_values (mails w')))).
Proof.
  cbv zeta.
  destruct (mailStore_save_upserts Samples.sentRecord Standin.world0)
    as (Hget & _ & Hindexed).
  split; [exact Hget |].
  destruct Hindexed as [_ Hboxes].
  { split; [constructor | constructor]. }
  apply (Hboxes "bob.base.eth@basemailer.com" Samples.sentRecord
           [] _ [] [] eq_refl eq_refl eq_refl eq_refl).
  left. split; reflexivity.
Defined.

(** X10 on the dispatch of the stand-in client. *)
Lemma sendMail_leaves_commitment_resolvable_witness :
  fst (InMemoryCidStore.get (BytesUtil.cidToBytes32 "QmStandinHandle")
         (snd (@BaseMailerClient.sendMail Standin.crypto Standin.js
                 Standin.ethers Standin.registered Standin.client
                 Standin.params Standin.world0)))
  = Ok (Some "QmStandinHandle").
Proof.
  apply (@sendMail_leaves_commitment_resolvable
           Standin.crypto Standin.js Standin.ethers Standin.registered
           Standin.client Standin.params Standin.world0
           (snd (@BaseMailerClient.sendMail Standin.crypto Standin.js
                   Standin.ethers Standin.registered Standin.client
                   Standin.params Standin.world0))
           (SendMailResponse.mk "42" "QmStandinHandle" "0xfeed")).
  vm_compute. reflexivity.
Defined.

(** X11 on the event of mail 42, in a process that knows no handle for
    its commitment: the commitment is filed in the place of the handle. *)
Lemma onMailSent_indexes_handle_witness :
  fst (Routes.getMail "42"
         (snd (EmailService.onMailSent
                 (MailSentArgs.mk (Some 42%Z) (Some "0xc0ffee") "alice" "bob"
                    1700000000000%Z)
                 (Some 7%Z) (Some "0xfeed") Standin.world0)))
  = Ok (Routes.mkResponse 200
          (Routes.MailBody
             (StoredMail.mk "42" "0xc0ffee" "0xc0ffee" "alice" "bob"
                1700000000000%Z (Some 7%Z) (Some "0xfeed")))).
Proof.
  apply (proj1 (onMailSent_indexes_handle
                  (MailSentArgs.mk (Some 42%Z) (Some "0xc0ffee") "alice" "bob"
                     1700000000000%Z)
                  42%Z "0xc0ffee" (Some 7%Z) (Some "0xfeed") Standin.world0
                  eq_refl eq_refl ltac:(discriminate))).
Defined.

(** X12 on three events, the second without commitment: the loop goes
    through and mail 42 is filed. *)
Lemma replayEvents_indexes_every_event_witness :
  let run := EmailService.replayEvents Samples.ledgerEvents Standin.world0 in
  fst run = Ok tt
  /\ exists record,
       Js.map_get "42" (mails (snd run)) = Some record
       /\ StoredMail.mailId record = "42".
Proof.
  cbv zeta.
  destruct (replayEvents_indexes_every_event Samples.ledgerEvents
              Standin.world0) as (Hgoes & Hfiled & _).
  assert (Hok : fst (EmailService.replayEvents Samples.ledgerEvents
                       Standin.world0) = Ok tt).
  { apply Hgoes. intros event args [<- | [<- | [<- | []]]] E;
      injection E as <-; discriminate. }
  split; [exact Hok |].
  apply (Hfiled Hok _ _ 42%Z "0xc0ffee" (or_introl eq_refl) eq_refl eq_refl
           eq_refl).
  discriminate.
Defined.

(** X13 on a service whose start block 20 is beyond the head 10 of the
    stand-in ledger: the head is read and the listener registered. *)
Lemma bootstrapEvents_subscribes_last_witness :
  @EmailService.bootstrapEvents Standin.registered Samples.keyedService
    Standin.world0
  = (Ok tt,
     log_event (EvMailerOn "MailSent")
       (log_event (EvGetBlockNumber (Ok 10%Z)) Standin.world0)).
Proof.
  apply (proj1 (proj2 (proj2
           (@bootstrapEvents_subscribes_last Standin.registered
              Samples.keyedService Standin.world0))) 20%Z 10%Z);
    [reflexivity | reflexivity | reflexivity].
Defined.

(** X14 on the same service: the key file is read first and its content
    is the key of the service after [start]. *)
Lemma start_loads_verification_key_witness :
  verificationKey
    (snd (@EmailService.start Standin.js Standin.registered
            Samples.keyedService Standin.world0))
  = Some "{}".
Proof.
  apply (proj1 (@start_loads_verification_key Standin.js
                  Standin.registered Samples.keyedService Standin.world0
                  "vk.json" eq_refl ltac:(discriminate))
           "{}" "{}" eq_refl eq_refl).
Defined.

(** X15 on a request without proof, and on the stand-in request when
    the registry knows no owner for the sender. *)
Lemma postSendMail_always_answers_witness :
  @EmailService.postSendMail Standin.js Standin.ethers Standin.registered
    Standin.service
    (EmailService.mkBody None (Some "QmStandinHandle") (Some "alice")
       (Some "bob"))
    Standin.world0
  = (Ok (EmailService.mkResponse 400
           (EmailService.ErrorBody "Missing required fields")),
     Standin.world0)
  /\ @EmailService.postSendMail Standin.js Standin.ethers Standin.unregistered
       Standin.service Standin.request Standin.world0
     = (Ok (EmailService.mkResponse 400
              (EmailService.ErrorBody "Sender email not registered")),
        log_event
          (EvResolveEmail "alice.base.eth@basemailer.com"
             (Ok EmailService.zeroAddress)) Standin.world0).
Proof.
  split.
  - apply (proj1 (proj2 (proj2
             (@postSendMail_always_answers Standin.js Standin.ethers
                Standin.registered Standin.service _ Standin.world0)))).
    left. reflexivity.
  - apply (proj1 (proj2 (proj2 (proj2
             (@postSendMail_always_answers Standin.js Standin.ethers
                Standin.unregistered Standin.service Standin.request
                Standin.world0)))
             "0xbad0" "QmStandinHandle" "alice.base.eth@basemailer.com"
             "bob.base.eth@basemailer.com" eq_refl ltac:(discriminate)
             ltac:(discriminate) ltac:(discriminate) ltac:(discriminate))).
    reflexivity.
Defined.

(** X16 with the key loaded and a verifier that accepts: the submission
    of the stand-in request comes after the verification of its proof. *)
Lemma postSendMail_verifies_before_submission_witness :
  exists (key : VerificationKey) (decoded : Groth16Proof.t)
         (signals : list string),
    In (EvGroth16Verify key signals decoded (Ok true))
       (firstn 4
          (trace (snd (@EmailService.postSendMail Standin.js Standin.ethers
                         Samples.accepting Standin.service Standin.request
                         Samples.keyedWorld)))).
Proof.
  destruct (@postSendMail_verifies_before_submission
              Standin.js Standin.ethers Samples.accepting Standin.service
              Standin.request Samples.keyedWorld
              (firstn 4
                 (trace (snd (@EmailService.postSendMail Standin.js
                                Standin.ethers Samples.accepting
                                Standin.service Standin.request
                                Samples.keyedWorld))))
              (skipn 5
                 (trace (snd (@EmailService.postSendMail Standin.js
                                Standin.ethers Samples.accepting
                                Standin.service Standin.request
                                Samples.keyedWorld))))
              "0xbad0" (BytesUtil.cidToBytes32 "QmStandinHandle")
              "alice.base.eth@basemailer.com" "bob.base.eth@basemailer.com"
              (Ok (TransactionResponse.mk "0xfeed")))
    as (key & owner & decoded & address & content & email & _ & _ & _ & _ & _
        & _ & Hin).
  - reflexivity.
  - vm_compute. reflexivity.
  - exists key, decoded. eexists. exact Hin.
Defined.

(** X17 on the stand-in request: the answer 200 carries id 42 and the
    record is served under it. *)
Lemma postSendMail_files_sent_mail_witness :
  let run :=
    @EmailService.postSendMail Standin.js Standin.ethers Standin.registered
      Standin.service Standin.request Standin.world0 in
  fst run
  = Ok (EmailService.mkResponse 200
          (EmailService.SentBody true "42" "0xfeed" 1700000000005%Z))
  /\ exists record,
       fst (Routes.getMail "42" (snd run))
       = Ok (Routes.mkResponse 200 (Routes.MailBody record))
       /\ StoredMail.cid record = "QmStandinHandle".
Proof.
  cbv zeta.
  assert (Hrun :
    @EmailService.postSendMail Standin.js Standin.ethers Standin.registered
      Standin.service Standin.request Standin.world0
    = (Ok (EmailService.mkResponse 200
             (EmailService.SentBody true "42" "0xfeed" 1700000000005%Z)),
       snd (@EmailService.postSendMail Standin.js Standin.ethers
              Standin.registered Standin.service Standin.request
              Standin.world0))).
  { vm_compute. reflexivity. }
  split; [rewrite Hrun; reflexivity |].
  destruct (@postSendMail_files_sent_mail Standin.js Standin.ethers
              Standin.registered Standin.service Standin.request
              Standin.world0 _ true "42" "0xfeed" 1700000000005%Z Hrun)
    as (cid & sender & recipient & blockNumber & Ecid & _ & _ & _ & Hget & _).
  injection Ecid as <-. eexists. split; [exact Hget | reflexivity].
Defined.

(** X18 with the key loaded and the stand-in verifier, which rejects:
    the answer is 400 and the commitment map has the handle. *)
Lemma postSendMail_rejects_invalid_proof_witness :
  let run :=
    @EmailService.postSendMail Standin.js Standin.ethers Standin.registered
      Standin.service Standin.request Samples.keyedWorld in
  fst run
  = Ok (EmailService.mkResponse 400 (EmailService.ErrorBody "Invalid proof"))
  /\ cidStore (snd run)
     = [(BytesUtil.cidToBytes32 "QmStandinHandle", "QmStandinHandle")]
  /\ mails (snd run) = [].
Proof.
  cbv zeta. unfold Standin.request.
  rewrite (@postSendMail_rejects_invalid_proof Standin.js Standin.ethers
             Standin.registered Standin.service Samples.keyedWorld
             "0xbad0" "QmStandinHandle" "alice.base.eth@basemailer.com"
             "bob.base.eth@basemailer.com" Standin.registeredOwner "{}"
             (Groth16Proof.mk [Bytes.utf8ToString [xba; xd0]] [] [])
             161%Z
             (match Standin.bigInt (BytesUtil.cidToBytes32 "QmStandinHandle")
              with Ok z => z | _ => 0%Z end)
             (match Standin.bigInt
                      (BytesUtil.keccak256
                         (Bytes.toUtf8Bytes "alice.base.eth@basemailer.com"))
              with Ok z => z | _ => 0%Z end));
    try discriminate; try (vm_compute; reflexivity).
  repeat split.
Defined.

(** X19 on a receipt whose first [MailSent] log is that of mail 42,
    followed by another one: the second is not looked at. *)
Lemma extractMailId_agrees_with_client_witness :
  @EmailService.extractMailId Standin.ethers
    (Some [Log.mk (Some ["0x00"]) "0x"; Standin.mailSentLog;
           Log.mk (Some [MailerInterface.topicHash; "0x2b"]) "0x"])
  = Ok (Some "42").
Proof.
  pose proof (proj2 (proj2 (@extractMailId_agrees_with_client Standin.ethers))
               [Log.mk (Some ["0x00"]) "0x"]
               [Log.mk (Some [MailerInterface.topicHash; "0x2b"]) "0x"]
               Standin.mailSentLog ["0x2a"]) as Hfirst.
  cbn [app] in Hfirst. rewrite Hfirst.
  - vm_compute. reflexivity.
  - intros earlier topics [<- | []] E.
    assert (E' := f_equal (fun o => match o with
                                    | Some (t :: _) => t
                                    | _ => ""
                                    end) E).
    change ("0x00" = MailerInterface.topicHash) in E'.
    assert (Hne : ("0x00" =? MailerInterface.topicHash) = false)
      by (vm_compute; reflexivity).
    rewrite <- E', String.eqb_refl in Hne. discriminate.
  - reflexivity.
Defined.

(** X20 on an answer of two tuples without id: they are numbered 0
    and 1. *)
Lemma normalizeMailRecords_numbers_by_position_witness :
  map MailRecord.mailId
    (MailRecords.normalizeMailRecords
       [RawMailRecord.mk None "0xc0ffee" "alice" "bob" (Some 5%Z) true;
        RawMailRecord.mk None "0xdecaf" "carol" "bob" None false])
  = [0%Z; 1%Z].
Proof.
  apply (proj2 (proj2 (normalizeMailRecords_numbers_by_position
           [RawMailRecord.mk None "0xc0ffee" "alice" "bob" (Some 5%Z) true;
            RawMailRecord.mk None "0xdecaf" "carol" "bob" None false]))).
  intros raw [<- | [<- | []]]; reflexivity.
Defined.
